(** * photos.py: the site build of bcj/Photos, embedded in Rocq

    The development follows [src/photos.py]: the [build] branch of [run]
    with its nested [process_image], and the methods [render] and
    [render_feeds] of [Page].  Python dictionaries that are only looked up
    are finite maps, the comment tables of a section are association lists
    in the order of the JSON object, the SQLite tables are finite maps, the
    console is a pair of line lists, and [exit] and exceptions are the
    [Raise] results of a small error monad. *)

From Stdlib Require Import ZArith Lia Bool Ascii String List Sorted Permutation.
From stdpp Require Import base tactics option list sorting gmap strings pretty.

Local Open Scope string_scope.
Local Open Scope list_scope.
Local Open Scope Z_scope.

(** ** Strings, as the Python code uses them

    Strings are byte strings: the model covers ASCII text, where Python's
    code points and these bytes coincide. *)

Module Str.

Definition slash : ascii := "/"%char.
Definition dot : ascii := "."%char.

Definition eqb_ascii (a b : ascii) : bool := bool_decide (a = b).

(** [s.rsplit(sep, 1)] when [sep in s]: the text before and after the
    last separator. *)
Fixpoint rsplit1 (sep : ascii) (s : string) : option (string * string) :=
  match s with
  | EmptyString => None
  | String c r =>
      match rsplit1 sep r with
      | Some (h, t) => Some (String c h, t)
      | None => if eqb_ascii c sep then Some (EmptyString, r) else None
      end
  end.

(** [s.rsplit(sep, 1)[0]], whether or not the separator occurs. *)
Definition rsplit_head (sep : ascii) (s : string) : string :=
  match rsplit1 sep s with Some (h, _) => h | None => s end.

(** [s.split(sep)]. *)
Fixpoint split (sep : ascii) (s : string) : list string :=
  match s with
  | EmptyString => [EmptyString]
  | String c r =>
      if eqb_ascii c sep then EmptyString :: split sep r
      else match split sep r with
           | x :: xs => String c x :: xs
           | [] => [String c EmptyString]
           end
  end.

(** [s.split(" ", 1)[0]]: the text before the first separator. *)
Fixpoint before (sep : ascii) (s : string) : string :=
  match s with
  | EmptyString => EmptyString
  | String c r => if eqb_ascii c sep then EmptyString else String c (before sep r)
  end.

(** [s.replace(a, b)] for single characters. *)
Fixpoint replace (a b : ascii) (s : string) : string :=
  match s with
  | EmptyString => EmptyString
  | String c r => String (if eqb_ascii c a then b else c) (replace a b r)
  end.

Definition is_digit (c : ascii) : bool :=
  let n := nat_of_ascii c in (48 <=? n)%nat && (n <=? 57)%nat.
Definition is_upper (c : ascii) : bool :=
  let n := nat_of_ascii c in (65 <=? n)%nat && (n <=? 90)%nat.
Definition is_lower (c : ascii) : bool :=
  let n := nat_of_ascii c in (97 <=? n)%nat && (n <=? 122)%nat.

(** [c.isalnum() and c.isascii()]. *)
Definition is_ascii_alnum (c : ascii) : bool :=
  is_digit c || is_upper c || is_lower c.

(** [c.lower()] on ASCII. *)
Definition lower (c : ascii) : ascii :=
  if is_upper c then ascii_of_nat (nat_of_ascii c + 32) else c.

Fixpoint map (f : ascii → ascii) (s : string) : string :=
  match s with
  | EmptyString => EmptyString
  | String c r => String (f c) (map f r)
  end.

Fixpoint forallb (f : ascii → bool) (s : string) : bool :=
  match s with
  | EmptyString => true
  | String c r => f c && forallb f r
  end.

(** [s.isnumeric()]: not empty, decimal digits only. *)
Definition isnumeric (s : string) : bool :=
  match s with
  | EmptyString => false
  | _ => forallb is_digit s
  end.

Fixpoint int_go (acc : Z) (s : string) : Z :=
  match s with
  | EmptyString => acc
  | String c r => int_go (10 * acc + (Z.of_nat (nat_of_ascii c) - 48)) r
  end.

(** [int(s)] on a string of decimal digits. *)
Definition int (s : string) : Z := int_go 0 s.

(** [str(n)] for an integer. *)
Definition of_Z (n : Z) : string := pretty n.

(** [sep.join(l)]. *)
Fixpoint join (sep : string) (l : list string) : string :=
  match l with
  | [] => EmptyString
  | [x] => x
  | x :: r => x +:+ sep +:+ join sep r
  end.

(** [PurePath.stem] of a file name: the name without its last suffix; a
    leading or a trailing dot starts no suffix. *)
Definition stem (name : string) : string :=
  match rsplit1 dot name with
  | Some (h, t) =>
      match h, t with
      | EmptyString, _ | _, EmptyString => name
      | _, _ => h
      end
  | None => name
  end.

(** [PurePath.suffix] of a path: the last suffix of its final component. *)
Definition suffix (path : string) : string :=
  let name := match rsplit1 slash path with Some (_, t) => t | None => path end in
  match rsplit1 dot name with
  | Some (h, t) =>
      match h, t with
      | EmptyString, _ | _, EmptyString => EmptyString
      | _, _ => String dot t
      end
  | None => EmptyString
  end.

End Str.

(** ** Results: a value, or the exception that ends the build *)

Inductive exn : Type :=
  | SystemExit (code : Z)
  | EOFError
  | NotImplementedError (msg : string)
  | TemplateNotFound (name : string)
  | TypeError
  | AttributeError
  | KeyError
  | IndexError
  | ValueError
  | OverflowError
  | OSError
  | Exception (repr : string).

Inductive result (A : Type) : Type :=
  | Ok (a : A)
  | Raise (e : exn).
Arguments Ok {A} a.
Arguments Raise {A} e.

Definition bind {A B : Type} (m : result A) (k : A → result B) : result B :=
  match m with
  | Ok a => k a
  | Raise e => Raise e
  end.

Notation "'let*' x := m 'in' k" := (bind m (fun x => k))
  (at level 10, x pattern, m at level 100, k at level 200).

Definition is_ok {A : Type} (r : result A) : Prop :=
  match r with Ok _ => True | Raise _ => False end.

(** ** The data of a build *)

(** An instant is a [datetime]: its POSIX time stamp.  Python orders two
    [datetime] values by their instants. *)
Definition datetime : Type := Z.

(** An image record of the photo store. *)
Record Image : Type := {
  img_id : Z;
  img_full_path : option string;
  img_creation_date : datetime;
  img_exif : option (gmap string string);
  img_title : option string;
  img_alt : option string;
  img_caption : option string;
  img_tags : list string;
}.

(** The dictionary [image_data] that [process_image] returns and caches. *)
Record image_data : Type := {
  d_id : Z;
  d_date : string;
  d_datetime : datetime;
  d_title : option string;
  d_alt : option string;
  d_caption : option string;
  d_file : string;
  d_tags : list (list string);
}.

(** What a path of the build directory is. *)
Inductive node : Type :=
  | Directory
  | File.

(** The build directory: its paths, relative to it, with [/] between
    their parts. *)
Definition disk : Type := gmap string node.

(** What the build reads and never writes: the formatting of an instant
    with ["%Y-%m-%d"] in the local zone, the photo store, and the table
    [images] of date overrides; the exception that
    [datetime.fromtimestamp] raises for a time stamp out of the range of
    the platform, if it raises one; the build directory as the loop over
    the configuration directory finds it (line 683), with its directory
    [images] and with [style.css]; and the number of bytes and the MIME
    type of a file of the directory [images], or the exception that
    [Image.open] raises. *)
Record world : Type := {
  strftime_ymd : datetime → string;
  get_image : Z → option Image;
  search_images : option (list string) → option (list string) → list Image;
  db_images : gmap Z string;
  timestamp_error : Z → option exn;
  build_dir : disk;
  image_length : string → Z;
  image_mimetype : string → result string;
}.

(** [datetime.fromtimestamp(t)]. *)
Definition fromtimestamp (w : world) (t : Z) : result datetime :=
  match timestamp_error w t with
  | Some e => Raise e
  | None => Ok t
  end.

(** What the build changes as it goes: the dictionaries [all_images],
    [all_tags] and [tag_paths], the table [tags], the files under
    [build/images], and the console. *)
Record state : Type := {
  all_images : gmap Z image_data;
  all_tags : gmap string (list Z);
  tag_paths : gmap string string;
  db_tags : gmap string bool;
  assets : gset string;
  stdin : list string;
  stdout : list string;
}.

Definition print (line : string) (st : state) : state :=
  {| all_images := all_images st; all_tags := all_tags st;
     tag_paths := tag_paths st; db_tags := db_tags st; assets := assets st;
     stdin := stdin st; stdout := stdout st ++ [line] |}.

Definition exit {A : Type} (code : Z) : result A := Raise (SystemExit code).

(** ** Tags: decisions, the walk to the root, the registration *)

(** The slug of a tag page (lines 635-645). *)
Definition tag_slug_char (symbol : ascii) : ascii :=
  if Str.is_ascii_alnum symbol then Str.lower symbol
  else if Str.eqb_ascii symbol "/"%char then "_"%char
  else if Str.eqb_ascii symbol "."%char || Str.eqb_ascii symbol "-"%char then symbol
  else "-"%char.

Definition tag_slug (tag : string) : string := Str.map tag_slug_char tag.

(** The prompt loop of lines 611-618 on the lines still to be read: [input]
    raises [EOFError] at the end of the input. *)
Fixpoint ask (tag : string) (inp out : list string)
  : result (bool * list string * list string) :=
  match inp with
  | [] => Raise EOFError
  | response :: inp' =>
      let out1 := out ++ ["allow #" +:+ tag +:+ "? y/n"] in
      if String.eqb response "y" then Ok (true, inp', out1)
      else if String.eqb response "n" then Ok (false, inp', out1)
      else ask tag inp' (out1 ++ ["please type 'y' or 'n'"])
  end.

(** Lines 605-626: the persisted decision, asked for and stored when the
    table has none. *)
Definition tag_allowed (tag : string) (st : state) : result (bool * state) :=
  match db_tags st !! tag with
  | Some allowed => Ok (allowed, st)
  | None =>
      let* (allowed, inp, out) := ask tag (stdin st) (stdout st) in
      Ok (allowed,
          {| all_images := all_images st; all_tags := all_tags st;
             tag_paths := tag_paths st;
             db_tags := <[tag := allowed]> (db_tags st);
             assets := assets st; stdin := inp; stdout := out |})
  end.

(** Lines 632-647: one tag gains the image. *)
Definition register (image_id : Z) (st : state) (tag : string) : state :=
  match all_tags st !! tag with
  | None =>
      {| all_images := all_images st;
         all_tags := <[tag := [image_id]]> (all_tags st);
         tag_paths := <[tag := tag_slug tag]> (tag_paths st);
         db_tags := db_tags st; assets := assets st;
         stdin := stdin st; stdout := stdout st |}
  | Some ids =>
      {| all_images := all_images st;
         all_tags := <[tag := ids ++ [image_id]]> (all_tags st);
         tag_paths := tag_paths st;
         db_tags := db_tags st; assets := assets st;
         stdin := stdin st; stdout := stdout st |}
  end.

(** Lines 649-657: [tag.rsplit("/", 1)[0]] when the tag has a slash, and
    [None] otherwise. *)
Definition parent (tag : string) : option string :=
  match Str.rsplit1 Str.slash tag with
  | Some (h, _) => Some h
  | None => None
  end.

(** The values the loop variable [tag] of [while tag:] takes as long as
    no prefix is allowed: the tag, its parent, and so on, up to the first
    one that is empty or has no parent.  The bound is the length of the
    tag, which every step shortens. *)
Fixpoint ancestors_upto (n : nat) (tag : string) : list string :=
  match n with
  | O => []
  | S n' =>
      match tag with
      | EmptyString => []
      | _ => tag :: match parent tag with
                    | Some p => ancestors_upto n' p
                    | None => []
                    end
      end
  end.

Definition ancestors (tag : string) : list string :=
  ancestors_upto (String.length tag) tag.

(** Lines 604-657 along those values: at the first allowed one the image
    gains the tag, and the inner loop registers it and all that follow. *)
Fixpoint walk (image_id : Z) (path : list string) (tags : list (list string))
    (st : state) : result (list (list string) * state) :=
  match path with
  | [] => Ok (tags, st)
  | tag :: rest =>
      let* (allowed, st1) := tag_allowed tag st in
      if (allowed : bool)
      then Ok (tags ++ [Str.split Str.slash tag],
               foldl (register image_id) st1 (tag :: rest))
      else walk image_id rest tags st1
  end.

(** Line 603: [for tag in image.tags]. *)
Fixpoint walk_tags (image_id : Z) (raw : list string) (tags : list (list string))
    (st : state) : result (list (list string) * state) :=
  match raw with
  | [] => Ok (tags, st)
  | tag :: raw' =>
      let* (tags1, st1) := walk image_id (ancestors tag) tags st in
      walk_tags image_id raw' tags1 st1
  end.

(** ** [process_image] (lines 563-674) *)

(** Lines 592-594: the day of an EXIF time such as [2020:01:31 10:00:00]. *)
Definition exif_day (value : string) : string :=
  Str.replace ":"%char "-"%char (Str.before " "%char value).

Definition set_assets (f : gset string) (st : state) : state :=
  {| all_images := all_images st; all_tags := all_tags st;
     tag_paths := tag_paths st; db_tags := db_tags st; assets := f;
     stdin := stdin st; stdout := stdout st |}.

Definition set_all_images (m : gmap Z image_data) (st : state) : state :=
  {| all_images := m; all_tags := all_tags st;
     tag_paths := tag_paths st; db_tags := db_tags st; assets := assets st;
     stdin := stdin st; stdout := stdout st |}.

(** The argument is an identifier (from a blog post) or an image of the
    store (from a search).  An empty [exif] dictionary holds no key, so the
    test [if image.exif] is part of the look-up. *)
Definition process_image (w : world) (id_or_image : Z + Image) (st : state)
  : result (image_data * state) :=
  let image_id :=
    match id_or_image with inl i => i | inr image => img_id image end in
  match all_images st !! image_id with
  | Some data => Ok (data, st)
  | None =>
      let image :=
        match id_or_image with
        | inl i => get_image w i
        | inr image => Some image
        end in
      match image with
      | None => exit 1
      | Some image =>
          match img_full_path image with
          | None => exit 1
          | Some full_path =>
              let extension := Str.map Str.lower (Str.suffix full_path) in
              let image_file := Str.of_Z (img_id image) +:+ extension in
              let st1 := set_assets ({[image_file]} ∪ assets st) st in
              let date := strftime_ymd w (img_creation_date image) in
              let date :=
                match img_exif image with
                | Some exif =>
                    match exif !! "DateTimeOriginal" with
                    | Some value => exif_day value
                    | None => date
                    end
                | None => date
                end in
              let date :=
                match db_images w !! img_id image with
                | Some row => row
                | None => date
                end in
              let* (tags, st2) := walk_tags image_id (img_tags image) [] st1 in
              let data :=
                {| d_id := img_id image; d_date := date;
                   d_datetime := img_creation_date image;
                   d_title := img_title image; d_alt := img_alt image;
                   d_caption := img_caption image; d_file := image_file;
                   d_tags := tags |} in
              Ok (data, set_all_images (<[img_id image := data]> (all_images st2)) st2)
          end
      end
  end.

(** ** Sections: entries, links and comments *)

Definition comment : Type := (string * string)%type.

(** The [comments] object of a section: post key to comments, in the order
    of the JSON object. *)
Definition comment_table : Type := list (string * list comment).

(** [comments.pop(key, [])]. *)
Fixpoint pop (key : string) (table : comment_table) : list comment * comment_table :=
  match table with
  | [] => ([], [])
  | (k, v) :: rest =>
      if String.eqb k key then (v, rest)
      else let (found, rest') := pop key rest in (found, (k, v) :: rest')
  end.

(** A post entry, the dictionary both kinds of section build. *)
Record entry : Type := {
  e_slug : string;
  e_title : string;
  e_description : option string;
  e_date : string;
  e_datetime : option datetime;
  e_images : list image_data;
  e_tags : list (list string);
  e_backward : option string;
  e_forward : option string;
  e_comments : list comment;
}.

Definition set_forward (slug : string) (e : entry) : entry :=
  {| e_slug := e_slug e; e_title := e_title e;
     e_description := e_description e; e_date := e_date e;
     e_datetime := e_datetime e; e_images := e_images e; e_tags := e_tags e;
     e_backward := e_backward e; e_forward := Some slug;
     e_comments := e_comments e |}.

(** [if entries: entries[-1]["forward"] = slug]. *)
Fixpoint set_last_forward (slug : string) (entries : list entry) : list entry :=
  match entries with
  | [] => []
  | [e] => [set_forward slug e]
  | e :: rest => e :: set_last_forward slug rest
  end.

(** The variables of the loop over the posts of a section; a blog has no
    [dates] and leaves the set empty. *)
Record assembly : Type := {
  entries : list entry;
  previous : option string;
  comments : comment_table;
  dates : gset string;
}.

Definition start (table : comment_table) : assembly :=
  {| entries := []; previous := None; comments := table; dates := ∅ |}.

(** Lines 730-731 and 808-809. *)
Definition warn_unused (table : comment_table) (st : state) : state :=
  match table with
  | [] => st
  | _ => print ("Unused comments: " +:+ Str.join ", " (table.*1)) st
  end.

(** *** A blog (lines 684-756) *)

Record manifest : Type := {
  m_title : string;
  m_slug : string;
  m_description : option string;
  m_images : list Z;
}.

Record blog : Type := {
  blog_title : string;
  blog_slug : string;
  blog_description : option string;
  blog_icon : option string;
  blog_comments : comment_table;
  blog_files : list (string * manifest);
}.

(** Lines 707-713: the images of a post and the set of their tags. *)
Fixpoint post_images (w : world) (ids : list Z) (images : list image_data)
    (tags : list (list string)) (st : state)
  : result (list image_data * list (list string) * state) :=
  match ids with
  | [] => Ok (images, tags, st)
  | image_id :: ids' =>
      let* (data, st1) := process_image w (inl image_id) st in
      post_images w ids' (images ++ [data]) (list_union tags (d_tags data)) st1
  end.

(** Lines 703-728 for one manifest, its images being resolved and its
    time stamp being one that [datetime.fromtimestamp] takes, as
    [blog_loop] has seen to. *)
Definition blog_entry (w : world) (name : string) (post : manifest)
    (images : list image_data) (tags : list (list string)) (a : assembly)
  : assembly :=
  let slug := m_slug post +:+ ".html" in
  let (found, rest) := pop slug (comments a) in
  let stamp := Str.int (Str.stem name) in
  {| entries :=
       set_last_forward slug (entries a) ++
       [ {| e_slug := slug; e_title := m_title post;
            e_description := m_description post;
            e_date := strftime_ymd w stamp; e_datetime := Some stamp;
            e_images := images; e_tags := tags;
            e_backward := previous a; e_forward := None;
            e_comments := found |} ];
     previous := Some slug;
     comments := rest;
     dates := dates a |}.

Fixpoint blog_loop (w : world) (files : list (string * manifest)) (a : assembly)
    (st : state) : result (assembly * state) :=
  match files with
  | [] => Ok (a, st)
  | (name, post) :: rest =>
      if Str.isnumeric (Str.stem name)
      then
        let* (images, tags, st1) := post_images w (m_images post) [] [] st in
        let* _ := fromtimestamp w (Str.int (Str.stem name)) in
        blog_loop w rest (blog_entry w name post images tags a) st1
      else blog_loop w rest a st
  end.

(** *** An auto-section (lines 758-834) *)

Record section_data : Type := {
  sec_title : string;
  sec_slug : string;
  sec_description : option string;
  sec_icon : option string;
  sec_creators : option (list string);
  sec_min_rating : option Z;
  sec_all_tags : option (list string);
  sec_no_tags : option (list string);
  sec_comments : comment_table;
}.

(** [x or y] on an optional title: [None] and the empty string are false. *)
Definition title_or (x : option string) (y : string) : string :=
  match x with
  | Some EmptyString | None => y
  | Some t => t
  end.

(** Lines 784 and 786: the slug of a post whose date is taken, and of the
    first post of a date. *)
Definition numbered_slug (date : string) (id : Z) : string :=
  date +:+ "-" +:+ Str.of_Z id +:+ ".html".

Definition dated_slug (date : string) : string := date +:+ ".html".

(** Lines 782-806 for one image, its data being resolved. *)
Definition section_entry (sd : section_data) (data : image_data) (a : assembly)
  : assembly :=
  let date := d_date data in
  let seen := bool_decide (date ∈ dates a) in
  let slug :=
    if seen then numbered_slug date (d_id data) else dated_slug date in
  let (found, rest) := pop (Str.rsplit_head Str.dot slug) (comments a) in
  {| entries :=
       set_last_forward slug (entries a) ++
       [ {| e_slug := slug; e_title := title_or (d_title data) (sec_title sd);
            e_description := None;
            e_date := date; e_datetime := None;
            e_images := [data]; e_tags := d_tags data;
            e_backward := previous a; e_forward := None;
            e_comments := found |} ];
     previous := Some slug;
     comments := rest;
     dates := if seen then dates a else {[date]} ∪ dates a |}.

Fixpoint section_loop (w : world) (sd : section_data) (images : list Image)
    (a : assembly) (st : state) : result (assembly * state) :=
  match images with
  | [] => Ok (a, st)
  | image :: rest =>
      match img_full_path image with
      | None => section_loop w sd rest a st
      | Some _ =>
          let* (data, st1) := process_image w (inr image) st in
          section_loop w sd rest (section_entry sd data a) st1
      end
  end.

(** ** Pages and feeds *)

(** A node of the tree of the tags: [{"path": ..., "children": {...}}].
    A dictionary of nodes keeps the order in which its keys came. *)
#[warnings="-register-all"]
Inductive tag_node : Type :=
  | TagNode (path : string) (children : list (string * tag_node)).

(** The argument bag of a page, by the kind of page that carries it. *)
Inductive argument_bag : Type :=
  | NoArguments
  | PostArguments (e : entry)
  | SectionArguments (description icon : option string) (entries : list entry)
  | TagArguments (images : list image_data)
  | TagsArguments (tags : list (string * tag_node))
  | ImageArguments (info : image_data)
  | HomeArguments (sections : list string).

Record Page : Type := {
  relative : string;
  template : string;
  title : string;
  arguments : argument_bag;
  date : option datetime;
  section : bool;
}.

(** [page.arguments["images"]]. *)
Definition page_images (p : Page) : option (list image_data) :=
  match arguments p with
  | PostArguments e => Some (e_images e)
  | ImageArguments info => Some [info]
  | _ => None
  end.

(** [page.arguments.get("description") or ""]. *)
Definition page_description (p : Page) : string :=
  match arguments p with
  | PostArguments e => default "" (e_description e)
  | SectionArguments d _ _ => default "" d
  | _ => ""
  end.

(** Python's [sorted(l, key=key, reverse=reverse)]: a stable sort that
    compares keys with [<] only.  Each element is put into the sorted rest
    of the list behind the elements that must come first, so elements with
    equal keys keep their order, also under [reverse=True]. *)
Section Sorted.
Context {A K : Type} (lt : K → K → bool) (key : A → K) (reverse : bool).

Definition goes_first (y x : A) : bool :=
  if reverse then lt (key x) (key y) else lt (key y) (key x).

Fixpoint insert (x : A) (l : list A) : list A :=
  match l with
  | [] => [x]
  | y :: l' => if goes_first y x then y :: insert x l' else x :: l
  end.

Definition sorted (l : list A) : list A := foldr insert [] l.
End Sorted.

(** ** Templates and the build directory *)

(** The keyword arguments of [template.render].  [Page.render] gives
    [navbar], [users] and [domain], which are the same for all pages of a
    build and belong to the template functions; [Page.render_entry] does
    not give them, and [chrome] tells the two calls apart. *)
Record keywords : Type := {
  page_title : string;
  path_to_root : string;
  page_arguments : argument_bag;
  chrome : bool;
}.

(** A loaded template renders to its text or raises an [Exception],
    given here by its [repr]. *)
Definition Template : Type := keywords → string + string.

(** The Jinja environment: the templates that [get_template] can load. *)
Definition Environment : Type := string → option Template.

(** [Path(relative).parent], the root being [.]. *)
Definition directory_of (relative : string) : string :=
  match Str.rsplit1 Str.slash relative with
  | Some (h, _) => h
  | None => "."
  end.

(** [root / directory / name]. *)
Definition below (directory name : string) : string :=
  if String.eqb directory "." then name else directory +:+ "/" +:+ name.

(** A name of an entry of a directory: not empty, not [.] or [..], and
    without [/]. *)
Definition file_name (s : string) : bool :=
  negb (String.eqb s "") && negb (String.eqb s ".")
  && negb (String.eqb s "..")
  && Str.forallb (λ c, negb (Str.eqb_ascii c Str.slash)) s.


Definition is_directory (d : disk) (p : string) : bool :=
  String.eqb p "."
  || match d !! p with Some Directory => true | _ => false end.

(** [open(root / p, "w")] finds its directory and no directory in its
    place. *)
Definition writable (d : disk) (p : string) : bool :=
  is_directory d (directory_of p)
  && match d !! p with Some Directory => false | _ => true end.

(** [path.mkdir(exist_ok=True)], without [parents=True]: an [OSError]
    when the path is a file ([FileExistsError]) or its parent is no
    directory ([FileNotFoundError], [NotADirectoryError]). *)
Definition mkdir (p : string) (d : disk) : result disk :=
  if String.eqb p "." then Ok d
  else
    match d !! p with
    | Some Directory => Ok d
    | Some File => Raise OSError
    | None =>
        if is_directory d (directory_of p) then Ok (<[p := Directory]> d)
        else Raise OSError
    end.

(** ** The feeds *)

(** One [entry]/[item] pair of the two feed documents. *)
Record feed_entry : Type := {
  fe_id : string;
  fe_title : string;
  fe_item_title : string;
  fe_published : datetime;
  fe_content : string;
  fe_summary : string;
  fe_enclosure : string;
  fe_length : Z;
  fe_type : string;
}.

Record feed : Type := {
  feed_directory : string;
  feed_atom : string;
  feed_rss : string;
  feed_title : string;
  feed_entries : list feed_entry;
}.

Definition date_key (p : Page) : datetime := default 0 (date p).

Definition has_date (p : Page) : bool :=
  match date p with Some _ => true | None => false end.

(** [Page.render_entry] (lines 195-199): neither the loading of the
    template nor its rendering is inside a [try]. *)
Definition render_entry (environment : Environment) (self : Page)
    (site : string) : result string :=
  match environment "minimal.html" with
  | None => Raise (TemplateNotFound "minimal.html")
  | Some tpl =>
      match tpl {| page_title := title self;
                   path_to_root := "https://" +:+ site;
                   page_arguments := arguments self; chrome := false |} with
      | inl text => Ok text
      | inr exception => Raise (Exception exception)
      end
  end.

(** Lines 147-190: the entry of one page.  A page without a date, without
    an [images] argument or with no image raises, and so do the template
    [minimal.html] and the reading of the file of the first image, which
    is there when it is among the files [copied] to the directory
    [images]. *)
Definition render_feed_entry (w : world) (environment : Environment)
    (copied : gset string) (site : string) (p : Page) : result feed_entry :=
  match date p with
  | None => Raise AttributeError
  | Some published =>
      let* content := render_entry environment p site in
      match page_images p with
      | None => Raise KeyError
      | Some [] => Raise IndexError
      | Some (image_info :: images) =>
          let post_url := "https://" +:+ site +:+ "/" +:+ relative p in
          let num_images := Z.of_nat (length (image_info :: images)) in
          if bool_decide (d_file image_info ∈ copied)
          then
            let* mime := image_mimetype w (d_file image_info) in
            Ok {| fe_id := post_url;
                  fe_title := title p;
                  fe_item_title :=
                    if 1 <? num_images
                    then title p +:+ " (" +:+ Str.of_Z num_images +:+ " images)"
                    else title p;
                  fe_published := published;
                  fe_content := content;
                  fe_summary := page_description p;
                  fe_enclosure :=
                    "https://" +:+ site +:+ "/images/" +:+ d_file image_info;
                  fe_length := image_length w (d_file image_info);
                  fe_type := mime |}
          else Raise OSError
      end
  end.

Fixpoint render_feed_entries (w : world) (environment : Environment)
    (copied : gset string) (site : string) (pages : list Page)
  : result (list feed_entry) :=
  match pages with
  | [] => Ok []
  | p :: rest =>
      let* e := render_feed_entry w environment copied site p in
      let* es := render_feed_entries w environment copied site rest in
      Ok (e :: es)
  end.

(** The order in which [render_feeds] visits the pages (line 143). *)
Definition feed_order (pages : list Page) : list Page :=
  sorted Z.ltb date_key true pages.

(** [Page.render_feeds] (lines 90-193).  Sorting two or more pages compares
    their dates, and a missing date makes the comparison raise.  The two
    documents are written at the end (lines 192-193), into the directory
    of the page, which nothing has made by then: it has to be in the
    build directory already. *)
Definition render_feeds (w : world) (environment : Environment)
    (copied : gset string) (self : Page) (site : string) (pages : list Page)
  : result feed :=
  let directory := directory_of (relative self) in
  if (1 <? length pages)%nat && negb (forallb has_date pages)
  then Raise TypeError
  else
    let* es :=
      render_feed_entries w environment copied site (feed_order pages) in
    if writable (build_dir w) (below directory "atom.xml")
       && writable (build_dir w) (below directory "rss.xml")
    then
      Ok {| feed_directory := directory;
            feed_atom := directory +:+ "/atom.xml";
            feed_rss := directory +:+ "/rss.xml";
            feed_title := title self;
            feed_entries := es |}
    else Raise OSError.

(** ** Rendering (lines 58-88 and 908-914) *)

(** The files of the build directory, as the writes in their order. *)
Definition files : Type := list (string * string).

(** [s.count(c)]. *)
Fixpoint count_of (c : ascii) (s : string) : nat :=
  match s with
  | EmptyString => O
  | String x r => if Str.eqb_ascii x c then S (count_of c r) else count_of c r
  end.

(** Lines 66-69. *)
Definition root_of (relative : string) : string :=
  match count_of Str.slash relative with
  | O => "."
  | n => Str.join "/" (replicate n "..")
  end.

(** The keyword arguments that [Page.render] gives to the template
    (lines 75-82). *)
Definition page_keywords (self : Page) : keywords :=
  {| page_title := title self; path_to_root := root_of (relative self);
     page_arguments := arguments self; chrome := true |}.

(** [Page.render].  [get_template] and [mkdir] are outside the [try] and
    their failure leaves the method; inside, [open(..., "w")] fails on a
    directory, and otherwise has emptied the file before the template
    runs; an exception of either is printed. *)
Definition render (environment : Environment) (self : Page) (d : disk)
    (fs : files) (st : state) : result (disk * files * state) :=
  match environment (template self) with
  | None => Raise (TemplateNotFound (template self))
  | Some tpl =>
      let* d1 := mkdir (directory_of (relative self)) d in
      match d1 !! relative self with
      | Some Directory =>
          Ok (d1, fs,
              print ("building " +:+ relative self +:+ " failed: "
                     +:+ "IsADirectoryError(21, 'Is a directory')") st)
      | _ =>
          match tpl (page_keywords self) with
          | inl text =>
              Ok (<[relative self := File]> d1, fs ++ [(relative self, text)],
                  st)
          | inr exception =>
              Ok (<[relative self := File]> d1, fs ++ [(relative self, "")],
                  print ("building " +:+ relative self +:+ " failed: "
                         +:+ exception) st)
          end
      end
  end.

(** Lines 908-914: [for page in pages: page.render(...)]. *)
Fixpoint render_all (environment : Environment) (pages : list Page)
    (d : disk) (fs : files) (st : state) : result (disk * files * state) :=
  match pages with
  | [] => Ok (d, fs, st)
  | page :: rest =>
      let* (d1, fs1, st1) := render environment page d fs st in
      render_all environment rest d1 fs1 st1
  end.

(** ** The build (lines 528-914) *)

(** A path of the site's configuration directory: a directory [blog-...],
    a file [section-...], or anything else. *)
Inductive path : Type :=
  | BlogDirectory (b : blog)
  | SectionFile (sd : section_data)
  | OtherPath (name : string).

(** Lines 685-731. *)
Definition assemble_blog (w : world) (b : blog) (st : state)
  : result (list entry * state) :=
  let posts := sorted String.ltb fst false (blog_files b) in
  let* (a, st1) := blog_loop w posts (start (blog_comments b)) st in
  Ok (entries a, warn_unused (comments a) st1).

(** Lines 759-809. *)
Definition assemble_section (w : world) (sd : section_data) (st : state)
  : result (list entry * state) :=
  match sec_min_rating sd with
  | Some _ => Raise (NotImplementedError "oops")
  | None =>
      let found := search_images w (sec_all_tags sd) (sec_no_tags sd) in
      let* (a, st1) := section_loop w sd found (start (sec_comments sd)) st in
      Ok (entries a, warn_unused (comments a) st1)
  end.

Definition post_page (section_slug : string) (e : entry) (d : option datetime)
  : Page :=
  {| relative := Str.join "/" [section_slug; e_slug e];
     template := "post.html"; title := e_title e;
     arguments := PostArguments e; date := d; section := false |}.

(** Lines 733-744: the pages of a blog take the date of the post. *)
Definition blog_post_pages (b : blog) (es : list entry) : list Page :=
  (λ e, post_page (blog_slug b) e (e_datetime e)) <$> es.

(** Lines 811-822: the pages of an auto-section take
    [entry["images"][0]["datetime"]]. *)
Fixpoint section_post_pages (sd : section_data) (es : list entry)
  : result (list Page) :=
  match es with
  | [] => Ok []
  | e :: rest =>
      match e_images e with
      | [] => Raise IndexError
      | first :: _ =>
          let* ps := section_post_pages sd rest in
          Ok (post_page (sec_slug sd) e (Some (d_datetime first)) :: ps)
      end
  end.

Definition index_page (slug name : string) (description icon : option string)
    (es : list entry) : Page :=
  {| relative := slug +:+ "/index.html"; template := "section.html";
     title := name; arguments := SectionArguments description icon es;
     date := None; section := true |}.

(** What the loop over the configuration directory gathers. *)
Record gathered : Type := {
  pages : list Page;
  all_blog_pages : list Page;
  feeds : list feed;
  sections : list string;
}.

Definition gather (g : gathered) (posts : list Page) (index : Page) (f : feed)
    (name : string) : gathered :=
  {| pages := pages g ++ posts ++ [index];
     all_blog_pages := all_blog_pages g ++ posts;
     feeds := feeds g ++ [f];
     sections := sections g ++ [name] |}.

(** The body of the loop of line 683 for one path. *)
Definition build_path (w : world) (environment : Environment)
    (domain : string) (p : path) (g : gathered) (st : state)
  : result (gathered * state) :=
  match p with
  | BlogDirectory b =>
      let* (es, st1) := assemble_blog w b st in
      let posts := blog_post_pages b es in
      let index :=
        index_page (blog_slug b) (blog_title b) (blog_description b)
          (blog_icon b) es in
      let* f := render_feeds w environment (assets st1) index domain posts in
      Ok (gather g posts index f (blog_title b), st1)
  | SectionFile sd =>
      let* (es, st1) := assemble_section w sd st in
      let* posts := section_post_pages sd es in
      let index :=
        index_page (sec_slug sd) (sec_title sd) (sec_description sd)
          (sec_icon sd) es in
      let* f := render_feeds w environment (assets st1) index domain posts in
      Ok (gather g posts index f (sec_title sd), st1)
  | OtherPath _ => Ok (g, st)
  end.

Fixpoint build_paths (w : world) (environment : Environment)
    (domain : string) (directory : list path) (g : gathered) (st : state)
  : result (gathered * state) :=
  match directory with
  | [] => Ok (g, st)
  | p :: rest =>
      let* (g1, st1) := build_path w environment domain p g st in
      build_paths w environment domain rest g1 st1
  end.

(** [all_images[image_id]] for the images of a tag. *)
Fixpoint tagged_images (cache : gmap Z image_data) (ids : list Z)
  : result (list image_data) :=
  match ids with
  | [] => Ok []
  | i :: rest =>
      match cache !! i with
      | None => Raise KeyError
      | Some info =>
          let* infos := tagged_images cache rest in Ok (info :: infos)
      end
  end.

(** Lines 836-857: one page per tag, its images by time. *)
Fixpoint tag_pages (st : state) (tags : list (string * list Z))
  : result (list Page) :=
  match tags with
  | [] => Ok []
  | (tag, info) :: rest =>
      let* infos := tagged_images (all_images st) info in
      match tag_paths st !! tag with
      | None => Raise KeyError
      | Some slug =>
          let* ps := tag_pages st rest in
          Ok ({| relative := "tags/" +:+ slug +:+ ".html";
                 template := "section.html"; title := tag;
                 arguments :=
                   TagArguments (sorted Z.ltb d_datetime false infos);
                 date := None; section := false |} :: ps)
      end
  end.

(** *** The tree of the tags (lines 859-864) *)

Fixpoint get_node (part : string) (current : list (string * tag_node))
  : option tag_node :=
  match current with
  | [] => None
  | (k, n) :: rest => if String.eqb k part then Some n else get_node part rest
  end.

Fixpoint set_node (part : string) (n : tag_node)
    (current : list (string * tag_node)) : list (string * tag_node) :=
  match current with
  | [] => []
  | (k, m) :: rest =>
      if String.eqb k part then (k, n) :: rest
      else (k, m) :: set_node part n rest
  end.

(** Lines 861-864: the loop over the parts of one tag, from the
    dictionary [current]; [tag_paths[...]] raises [KeyError] for a path
    that has no slug. *)
Fixpoint grow (paths : gmap string string) (full parts : list string)
    (current : list (string * tag_node))
  : result (list (string * tag_node)) :=
  match parts with
  | [] => Ok current
  | part :: rest =>
      let full := full ++ [part] in
      match get_node part current with
      | Some (TagNode path children) =>
          let* children := grow paths full rest children in
          Ok (set_node part (TagNode path children) current)
      | None =>
          match paths !! Str.join "/" full with
          | None => Raise KeyError
          | Some path =>
              let* children := grow paths full rest [] in
              Ok (current ++ [(part, TagNode path children)])
          end
      end
  end.

(** Lines 837 and 859-864: the tree of all the tags of the index. *)
Fixpoint tag_tree (paths : gmap string string) (tags : list string)
    (tree : list (string * tag_node)) : result (list (string * tag_node)) :=
  match tags with
  | [] => Ok tree
  | tag :: rest =>
      let* tree := grow paths [] (Str.split Str.slash tag) tree in
      tag_tree paths rest tree
  end.

(** Lines 877-891: the permanent page of an image. *)
Definition image_page (info : image_data) : Page :=
  {| relative := "images/" +:+ Str.of_Z (d_id info) +:+ ".html";
     template := "post.html"; title := title_or (d_title info) "Untitled";
     arguments := ImageArguments info; date := None; section := false |}.

(** What a build leaves behind. *)
Record built : Type := {
  built_pages : list Page;
  built_feeds : list feed;
  built_dir : disk;
  built_files : files;
}.

(** The build directory as the loop over the pages finds it (line 908):
    what the loop over the configuration directory found, with the files
    of the images and of the feeds, which are written in between (lines
    585 and 192-193). *)
Definition disk_of (w : world) (copied : gset string) (fs : list feed)
  : disk :=
  foldr (λ name d, <[name := File]> d) (build_dir w)
    ((fs ≫= λ f, [below (feed_directory f) "atom.xml";
                  below (feed_directory f) "rss.xml"])
     ++ ((λ name, "images/" +:+ name) <$> elements copied)).

(** The [build] command from line 683 on.  The two dictionaries
    [all_tags] and [all_images] are walked in the order of the finite
    maps. *)
Definition build (w : world) (environment : Environment) (domain name : string)
    (users : bool) (directory : list path) (st : state)
  : result (built * state) :=
  let first :=
    if users
    then [ {| relative := "commenting.html"; template := "commenting.html";
              title := "Commenting"; arguments := NoArguments;
              date := None; section := false |} ]
    else [] in
  let g0 :=
    {| pages := first; all_blog_pages := []; feeds := []; sections := [] |} in
  let* (g, st1) := build_paths w environment domain directory g0 st in
  let* tags := tag_pages st1 (map_to_list (all_tags st1)) in
  let* tree := tag_tree (tag_paths st1) (map_to_list (all_tags st1)).*1 [] in
  let tag_index :=
    {| relative := "tags/index.html"; template := "tags.html"; title := "Tags";
       arguments := TagsArguments tree; date := None; section := true |} in
  let images := image_page <$> (map_to_list (all_images st1)).*2 in
  let home :=
    {| relative := "index.html"; template := "home.html"; title := name;
       arguments := HomeArguments (sections g); date := None;
       section := false |} in
  let* f :=
    render_feeds w environment (assets st1) home domain (all_blog_pages g) in
  let all := pages g ++ tags ++ [tag_index] ++ images ++ [home] in
  let* (d, fs, st2) :=
    render_all environment all (disk_of w (assets st1) (feeds g ++ [f])) []
      st1 in
  Ok ({| built_pages := all; built_feeds := feeds g ++ [f]; built_dir := d;
         built_files := fs |},
      st2).

(** The state a build starts from: empty dictionaries, the persisted
    decisions, the assets already copied and the lines typed at the
    console. *)
Definition initial (decisions : gmap string bool) (copied : gset string)
    (typed : list string) : state :=
  {| all_images := ∅; all_tags := ∅; tag_paths := ∅; db_tags := decisions;
     assets := copied; stdin := typed; stdout := [] |}.

(** ** What the claims speak of *)

(** The entries of a section, of either kind. *)
Definition assemble (w : world) (p : path) (st : state)
  : result (list entry * state) :=
  match p with
  | BlogDirectory b => assemble_blog w b st
  | SectionFile sd => assemble_section w sd st
  | OtherPath _ => Ok ([], st)
  end.




(** The manifests of a blog that become posts, in the order of the loop of
    line 696. *)
Definition blog_posts (b : blog) : list (string * manifest) :=
  filter (λ f, Str.isnumeric (Str.stem f.1) = true)
    (sorted String.ltb fst false (blog_files b)).

(** The identifiers of the images of a list of entries. *)
Definition entry_ids (es : list entry) : list Z :=
  es ≫= λ e, d_id <$> e_images e.

(** What the slug of an entry is made from: the slug, the date, the
    images. *)
Definition shape (e : entry) : string * string * list image_data :=
  (e_slug e, e_date e, e_images e).

(** The identifier [process_image] is called with, and the image it works
    on when its cache holds none. *)
Definition given_id (id_or_image : Z + Image) : Z :=
  match id_or_image with inl i => i | inr image => img_id image end.

Definition resolve (w : world) (id_or_image : Z + Image) : option Image :=
  match id_or_image with
  | inl i => get_image w i
  | inr image => Some image
  end.

(** The cache and a list of images of the store tell the same instants,
    and so do two images of one identifier. *)
Definition agrees (cache : gmap Z image_data) (images : list Image) : Prop :=
  ∀ image d, image ∈ images → cache !! img_id image = Some d →
             d_datetime d = img_creation_date image.

Definition one_instant (images : list Image) : Prop :=
  ∀ a b, a ∈ images → b ∈ images → img_id a = img_id b →
         img_creation_date a = img_creation_date b.

(** The images of a search that become posts (line 778). *)
Definition with_path (images : list Image) : list Image :=
  filter (λ image, is_Some (img_full_path image)) images.

(** The entries of a feed run from the latest to the earliest. *)
Definition descending (es : list feed_entry) : Prop :=
  ∀ i j a b, es !! i = Some a → es !! j = Some b → (i < j)%nat →
             fe_published b ≤ fe_published a.

(** The order of [feed_order] on pages and on instants. *)
Definition not_before (p q : Page) : Prop := date_key q ≤ date_key p.
Definition not_earlier (s t : datetime) : Prop := t ≤ s.


(** ** What the loops keep true *)


(** What the loop of an auto-section keeps true of the shapes of its
    entries and of the set [dates]. *)
Definition shaped (seen : gset string)
    (k : string * string * list image_data) : Prop :=
  k.1.2 ∈ seen ∧
  ∃ d, k.2 = [d] ∧
       (k.1.1 = dated_slug k.1.2 ∨ k.1.1 = numbered_slug k.1.2 (d_id d)).

Definition apart (ks : list (string * string * list image_data)) : Prop :=
  NoDup (ks ≫= λ k, d_id <$> k.2) ∧
  ∀ k1 k2, k1 ∈ ks → k2 ∈ ks →
           String.length k1.1.2 = String.length k2.1.2.

Definition later_numbered
    (ks : list (string * string * list image_data)) : Prop :=
  ∀ i j k1 k2, ks !! i = Some k1 → ks !! j = Some k2 → (i < j)%nat →
    k1.1.2 = k2.1.2 → ∃ d, k2.2 = [d] ∧ k2.1.1 = numbered_slug k2.1.2 (d_id d).

Definition slugged (a : assembly) : Prop :=
  Forall (shaped (dates a)) (shape <$> entries a) ∧
  (apart (shape <$> entries a) → NoDup (e_slug <$> entries a)) ∧
  later_numbered (shape <$> entries a).

(** ** A small site, for the examples *)

Module Sample.

(** ["%Y-%m-%d"] in the zone UTC, by the usual count of days from
    1 March of year 0. *)
Definition pad (n : nat) (v : Z) : string :=
  let s := Str.of_Z v in
  String.concat "" (replicate (n - String.length s) "0") +:+ s.

Definition utc_ymd (t : datetime) : string :=
  let z := t `div` 86400 + 719468 in
  let era := z `div` 146097 in
  let doe := z - era * 146097 in
  let yoe :=
    (doe - doe `div` 1460 + doe `div` 36524 - doe `div` 146096) `div` 365 in
  let doy := doe - (365 * yoe + yoe `div` 4 - yoe `div` 100) in
  let mp := (5 * doy + 2) `div` 153 in
  let d := doy - (153 * mp + 2) `div` 5 + 1 in
  let m := if mp <? 10 then mp + 3 else mp - 9 in
  let y := yoe + era * 400 + (if m <=? 2 then 1 else 0) in
  pad 4 y +:+ "-" +:+ pad 2 m +:+ "-" +:+ pad 2 d.

Definition image (i : Z) (t : datetime) (exif : option (gmap string string))
    (tags : list string) : Image :=
  {| img_id := i;
     img_full_path := Some ("/photos/" +:+ Str.of_Z i +:+ ".JPG");
     img_creation_date := t; img_exif := exif;
     img_title := None; img_alt := None; img_caption := None;
     img_tags := tags |}.

(** Two photos of 1 January 2020 (UTC), 100 seconds apart, and a third
    one of 2 January whose camera wrote 31 December 2019. *)
Definition photos : list Image :=
  [ image 1 1577836800 None ["a"; "a/b"];
    image 2 1577836900 None [];
    image 3 1577923200
      (Some {["DateTimeOriginal" := "2019:12:31 23:59:59"]}) [] ].

(** The photo store with these photos, on a platform that takes the
    time stamps of the years 1 to 9999, and a build directory that has
    the directories of the sections of the examples. *)
Definition store (overrides : gmap Z string) : world :=
  {| strftime_ymd := utc_ymd;
     get_image := λ i, snd <$> list_find (λ im, img_id im = i) photos;
     search_images := λ _ _, photos;
     db_images := overrides;
     timestamp_error :=
       λ t, if (-62135596800 <=? t) && (t <? 253402300800) then None
            else Some ValueError;
     build_dir :=
       {[ "images" := Directory; "style.css" := File; "garden" := Directory;
          "trips" := Directory; "all" := Directory ]};
     image_length := λ _, 1024;
     image_mimetype := λ _, Ok "image/jpeg" |}.

Definition post (name slug : string) (images : list Z) : manifest :=
  {| m_title := name; m_slug := slug; m_description := None;
     m_images := images |}.

(** A blog with a post of 1 January 1999 and one of 1 January 2020, and
    a comment on the latter. *)
Definition garden : blog :=
  {| blog_title := "Garden"; blog_slug := "garden";
     blog_description := None; blog_icon := None;
     blog_comments := [("hello", [("reader@example.org", "nice")])];
     blog_files :=
       [ ("config.json", post "" "" []);
         ("915148800.json", post "Old" "old" [2]);
         ("1577836800.json", post "New" "hello" [2]) ] |}.

(** A blog with two posts that were given the same slug. *)
Definition twins : blog :=
  {| blog_title := "Trips"; blog_slug := "trips";
     blog_description := None; blog_icon := None; blog_comments := [];
     blog_files :=
       [ ("100.json", post "Out" "trip" [2]);
         ("200.json", post "Back" "trip" [3]) ] |}.

Definition everything (min_rating : option Z) : section_data :=
  {| sec_title := "All"; sec_slug := "all"; sec_description := None;
     sec_icon := None; sec_creators := None; sec_min_rating := min_rating;
     sec_all_tags := None; sec_no_tags := None;
     sec_comments := [("2020-01-01", [("reader@example.org", "nice")])] |}.

(** A build with nothing decided and nothing copied, where the console
    answers [n] and then [y]. *)
Definition fresh : state := initial ∅ ∅ ["n"; "y"].

(** Two pages of one instant. *)
Definition snapshot (name : string) (i : Z) : Page :=
  post_page "all"
    {| e_slug := name +:+ ".html"; e_title := name; e_description := None;
       e_date := "2020-01-01"; e_datetime := None;
       e_images :=
         [ {| d_id := i; d_date := "2020-01-01"; d_datetime := 1577836800;
              d_title := None; d_alt := None; d_caption := None;
              d_file := Str.of_Z i +:+ ".jpg"; d_tags := [] |} ];
       e_tags := []; e_backward := None; e_forward := None;
       e_comments := [] |}
    (Some 1577836800).

Definition front : Page :=
  index_page "all" "All" None None [].

(** The files of the photos in the directory [images] of the build. *)
Definition copies : gset string := {["1.jpg"; "2.jpg"; "3.jpg"]}.

(** Templates that render a page to its title, but for [post.html],
    which raises. *)
Definition jinja : Environment :=
  λ name,
    if String.eqb name "post.html"
    then Some (λ _, inr "UndefinedError()")
    else Some (λ k, inl (page_title k)).

(** The auto-section again, its comment kept under the slug of the
    entry. *)
Definition everything_html : section_data :=
  {| sec_title := "All"; sec_slug := "all"; sec_description := None;
     sec_icon := None; sec_creators := None; sec_min_rating := None;
     sec_all_tags := None; sec_no_tags := None;
     sec_comments := [("2020-01-01.html", [("reader@example.org", "nice")])] |}.

End Sample.

(** ** More of what the code keeps true *)

(** A line that the prompt of lines 611-618 takes as an answer. *)
Definition is_answer (response : string) : bool :=
  String.eqb response "y" || String.eqb response "n".

(** What the console shows for a line that is no answer: the prompt it
    answered and the reminder. *)
Definition asked_again (tag : string) (skipped : list string) : list string :=
  skipped ≫= λ _, ["allow #" +:+ tag +:+ "? y/n"; "please type 'y' or 'n'"].




(** The store answers with the image of the identifier it is asked for. *)
Definition faithful (w : world) : Prop :=
  ∀ i image, get_image w i = Some image → img_id image = i.

(** Every record of the cache is kept under its own identifier. *)
Definition keyed (st : state) : Prop :=
  ∀ i d, all_images st !! i = Some d → d_id d = i.

(** Every tag of the index has its slug in [tag_paths]. *)
Definition sluggish (st : state) : Prop :=
  ∀ tag ids, all_tags st !! tag = Some ids →
             tag_paths st !! tag = Some (tag_slug tag).

(** Every image of the index is in the cache, but for the one that is
    being processed. *)
Definition cached_but (image_id : Z) (st : state) : Prop :=
  ∀ tag ids i, all_tags st !! tag = Some ids → i ∈ ids →
               i = image_id ∨ is_Some (all_images st !! i).

Definition cached (st : state) : Prop :=
  ∀ tag ids i, all_tags st !! tag = Some ids → i ∈ ids →
               is_Some (all_images st !! i).

(** The tag index can be turned into pages. *)
Definition indexed (st : state) : Prop := sluggish st ∧ cached st.

(** The tag index lists an image under a tag. *)
Definition listed (image_id : Z) (tag : string) (st : state) : Prop :=
  ∃ ids, all_tags st !! tag = Some ids ∧ image_id ∈ ids.

(** [table.get(key)] on the comments of a section. *)
Fixpoint find (key : string) (table : comment_table) : option (list comment) :=
  match table with
  | [] => None
  | (k, v) :: rest => if String.eqb k key then Some v else find key rest
  end.

(** The comments a section starts with, and the key under which the loop
    of its kind looks up the comments of an entry (lines 705 and 803). *)
Definition path_comments (p : path) : comment_table :=
  match p with
  | BlogDirectory b => blog_comments b
  | SectionFile sd => sec_comments sd
  | OtherPath _ => []
  end.

Definition comment_key (p : path) (e : entry) : string :=
  match p with
  | BlogDirectory _ => e_slug e
  | _ => Str.rsplit_head Str.dot (e_slug e)
  end.

(** All the comments of a table, and of a list of entries. *)
Definition table_comments (table : comment_table) : list comment :=
  concat table.*2.

Definition entry_comments (es : list entry) : list comment :=
  concat (e_comments <$> es).

(** No comment of the table [all] is lost or made twice: each is on an
    entry or still in the table. *)
Definition conserved (all : comment_table) (a : assembly) : Prop :=
  sublist (comments a) all ∧
  entry_comments (entries a) ++ table_comments (comments a)
  ≡ₚ table_comments all.

(** The comments of the entries are those the table [all] has under their
    keys, as long as no key comes twice. *)
Definition keyed_comments (key : entry → string) (all : comment_table)
    (a : assembly) : Prop :=
  (∀ k, k ∉ key <$> entries a → find k (comments a) = find k all) ∧
  (NoDup (key <$> entries a) →
   ∀ e, e ∈ entries a → e_comments e = default [] (find (key e) all)).

(** The address of the page of a post (line 147). *)
Definition post_url (site : string) (p : Page) : string :=
  "https://" +:+ site +:+ "/" +:+ relative p.

(** A character of a URL path segment as the slugs use them: a lower-case
    letter, a digit, or one of [_ . -]. *)
Definition slug_char (c : ascii) : bool :=
  Str.is_digit c || Str.is_lower c || Str.eqb_ascii c "_"%char
  || Str.eqb_ascii c "."%char || Str.eqb_ascii c "-"%char.

(** ** The commands [create-auto] and [create-blog] (lines 345-418) *)

(** [symbol.isalpha() and symbol.isascii()]. *)
Definition is_ascii_alpha (c : ascii) : bool := Str.is_upper c || Str.is_lower c.

(** Lines 347-352: the loop over the title, [parts] being the list built
    so far. *)
Fixpoint title_parts (title : string) (parts : list ascii) : list ascii :=
  match title with
  | EmptyString => parts
  | String symbol rest =>
      if is_ascii_alpha symbol
      then title_parts rest (parts ++ [Str.lower symbol])
      else match last parts with
           | Some c =>
               if Str.eqb_ascii c "-"%char then title_parts rest parts
               else title_parts rest (parts ++ ["-"%char])
           | None => title_parts rest parts
           end
  end.

(** Line 354: the slug made from a title. *)
Definition title_slug (title : string) : string :=
  string_of_list_ascii (title_parts title []).

(** Lines 346-358: the slug of a new section, given or made from the
    title; [images] and [tags] are refused. *)
Definition section_slug (slug : option string) (name : string) : result string :=
  let slug := match slug with Some s => s | None => title_slug name end in
  if String.eqb slug "images" || String.eqb slug "tags" then exit 1
  else Ok slug.

(** A list of characters has no dash in front and no two dashes in a
    row. *)
Fixpoint no_double_dash (l : list ascii) : bool :=
  match l with
  | a :: ((b :: _) as rest) =>
      negb (Str.eqb_ascii a "-"%char && Str.eqb_ascii b "-"%char)
      && no_double_dash rest
  | _ => true
  end.

Definition well_dashed (l : list ascii) : Prop :=
  head l ≠ Some "-"%char ∧ no_double_dash l = true ∧
  Forall (λ c, Str.is_lower c = true ∨ c = "-"%char) l.

(** ** The command [add-comment] (lines 491-527) *)

(** Lines 521-524: [data["comments"][slug].append(...)], the list being
    made when the slug has none. *)
Fixpoint append_comment (slug : string) (c : comment) (table : comment_table)
  : comment_table :=
  match table with
  | [] => [(slug, [c])]
  | (k, v) :: rest =>
      if String.eqb k slug then (k, v ++ [c]) :: rest
      else (k, v) :: append_comment slug c rest
  end.

(** [json.dump(..., sort_keys=True)] on the comments: the keys are written
    in their order as strings. *)
Definition dump_sorted (table : comment_table) : comment_table :=
  sorted String.ltb fst false table.

(** The site's configuration directory is a map from the names of its
    entries to the paths: a blog directory is a directory with its
    [config.json], and the paths that are no blog directory and no
    section file are the plain files [config.json], [db.sqlite3] and
    [users.json].  The names are those of entries of a directory
    ([file_name]). *)
Record create_args : Type := {
  ca_title : string;
  ca_slug : option string;
  ca_description : option string;
  ca_creators : option (list string);
  ca_min_rating : option Z;
  ca_all_tags : option (list string);
  ca_no_tags : option (list string);
  ca_icon : option string;
}.

(** Lines 365-380: the section file that [create-auto] writes. *)
Definition new_section (args : create_args) (slug : string) : section_data :=
  {| sec_title := ca_title args; sec_slug := slug;
     sec_description := ca_description args; sec_icon := ca_icon args;
     sec_creators := ca_creators args; sec_min_rating := ca_min_rating args;
     sec_all_tags := ca_all_tags args; sec_no_tags := ca_no_tags args;
     sec_comments := [] |}.

(** Lines 345-381. *)
Definition create_auto (args : create_args) (directory : gmap string path)
  : result (gmap string path) :=
  let* slug := section_slug (ca_slug args) (ca_title args) in
  let name := "section-" +:+ slug +:+ ".json" in
  match directory !! name with
  | Some _ => exit 1
  | None => Ok (<[name := SectionFile (new_section args slug)]> directory)
  end.

(** Lines 403-417: the directory that [create-blog] makes, with its
    [config.json] and no post. *)
Definition new_blog (args : create_args) (slug : string) : blog :=
  {| blog_title := ca_title args; blog_slug := slug;
     blog_description := ca_description args; blog_icon := ca_icon args;
     blog_comments := [];
     blog_files :=
       [("config.json",
         {| m_title := ""; m_slug := ""; m_description := None;
            m_images := [] |})] |}.

(** Lines 382-418. *)
Definition create_blog (args : create_args) (directory : gmap string path)
  : result (gmap string path) :=
  let* slug := section_slug (ca_slug args) (ca_title args) in
  let name := "blog-" +:+ slug in
  match directory !! name with
  | Some _ => exit 1
  | None => Ok (<[name := BlogDirectory (new_blog args slug)]> directory)
  end.

Record comment_args : Type := {
  cm_email : string;
  cm_blog : option string;
  cm_section : option string;
  cm_slug : string;
  cm_comment : string;
}.

(** [if args.section:] on an optional string: [None] and the empty string
    are false. *)
Definition truthy (s : option string) : option string :=
  match s with
  | Some EmptyString | None => None
  | Some s => Some s
  end.

(** Lines 518-527 on the comments of a section. *)
Definition commented (args : comment_args) (table : comment_table)
  : comment_table :=
  dump_sorted
    (append_comment (cm_slug args) (cm_email args, cm_comment args) table).

(** Lines 491-527.  [users] is the content of [users.json], if there is
    such a file. *)
Definition add_comment (users : option (list (string * string)))
    (args : comment_args) (directory : gmap string path)
  : result (gmap string path) :=
  match users with
  | None => exit 1
  | Some user_data =>
      if bool_decide (cm_email args ∈ user_data.*1)
      then
        match truthy (cm_section args) with
        | Some s =>
            let name := "section-" +:+ s +:+ ".json" in
            match directory !! name with
            | Some (SectionFile sd) =>
                Ok (<[name :=
                      SectionFile
                        {| sec_title := sec_title sd; sec_slug := sec_slug sd;
                           sec_description := sec_description sd;
                           sec_icon := sec_icon sd;
                           sec_creators := sec_creators sd;
                           sec_min_rating := sec_min_rating sd;
                           sec_all_tags := sec_all_tags sd;
                           sec_no_tags := sec_no_tags sd;
                           sec_comments := commented args (sec_comments sd) |}]>
                      directory)
            | _ => exit 1
            end
        | None =>
            match truthy (cm_blog args) with
            | Some name =>
                match directory !! name with
                | Some (BlogDirectory b) =>
                    Ok (<[name :=
                          BlogDirectory
                            {| blog_title := blog_title b;
                               blog_slug := blog_slug b;
                               blog_description := blog_description b;
                               blog_icon := blog_icon b;
                               blog_comments := commented args (blog_comments b);
                               blog_files := blog_files b |}]>
                          directory)
                | _ => exit 1
                end
            | None => exit 1
            end
        end
      else exit 1
  end.

(** The comments that a directory holds for a path. *)
Definition comments_at (directory : gmap string path) (name : string)
  : comment_table :=
  match directory !! name with
  | Some p => path_comments p
  | None => []
  end.

(** ** The command [post] (lines 419-452) *)

Record post_args : Type := {
  po_blog : string;
  po_title : string;
  po_slug : option string;
  po_description : option string;
  po_images : option (list Z);
  po_timestamp : option Z;
}.

(** Line 432: the name of the file of a post. *)
Definition post_name (timestamp : Z) : string :=
  Str.of_Z timestamp +:+ ".json".

(** Lines 442-447; without [--images] the loop is over [None]. *)
Fixpoint known_images (w : world) (images : list Z) : result unit :=
  match images with
  | [] => Ok tt
  | image_id :: rest =>
      match get_image w image_id with
      | None => exit 1
      | Some _ => known_images w rest
      end
  end.

(** The files of a blog directory without the one of a name. *)
Definition without (name : string) (files : list (string * manifest))
  : list (string * manifest) :=
  filter (λ f, f.1 ≠ name) files.

(** Lines 449-450: the file is made, or written over. *)
Definition write_post (name : string) (post : manifest)
    (files : list (string * manifest)) : list (string * manifest) :=
  (name, post) :: without name files.

Definition with_files (b : blog) (files : list (string * manifest)) : blog :=
  {| blog_title := blog_title b; blog_slug := blog_slug b;
     blog_description := blog_description b; blog_icon := blog_icon b;
     blog_comments := blog_comments b; blog_files := files |}.

(** The manifest that [post] writes at a time (lines 429-439). *)
Definition post_data (args : post_args) (timestamp : Z) (images : list Z)
  : manifest :=
  {| m_title := po_title args;
     m_slug := default (Str.of_Z timestamp) (po_slug args);
     m_description := po_description args;
     m_images := images |}.

(** Lines 419-452, [now] being the time of the call. *)
Definition blog_post (w : world) (now : Z) (args : post_args)
    (directory : gmap string path) : result (gmap string path) :=
  let timestamp := default now (po_timestamp args) in
  let name := "blog-" +:+ po_blog args in
  match directory !! name with
  | Some (BlogDirectory b) =>
      match po_images args with
      | None => Raise TypeError
      | Some images =>
          let* _ := known_images w images in
          Ok (<[name :=
                BlogDirectory
                  (with_files b
                     (write_post (post_name timestamp)
                        (post_data args timestamp images) (blog_files b)))]>
                directory)
      end
  | _ => exit 1
  end.

(** What the build shows of a post: its address in the blog and its
    time. *)
Definition shown (e : entry) : string * option datetime :=
  (e_slug e, e_datetime e).

(** ** A small site directory, for the examples of the commands *)

Module Desk.

Definition site : gmap string path :=
  {["blog-garden" := BlogDirectory Sample.garden]}.

Definition readers : list (string * string) :=
  [("reader@example.org", "Reader")].

Definition walks (min_rating : option Z) : create_args :=
  {| ca_title := "Winter Walks"; ca_slug := None; ca_description := None;
     ca_creators := None; ca_min_rating := min_rating; ca_all_tags := None;
     ca_no_tags := None; ca_icon := None |}.

Definition remark (blog section : option string) : comment_args :=
  {| cm_email := "reader@example.org"; cm_blog := blog;
     cm_section := section; cm_slug := "2020-01-01"; cm_comment := "nice" |}.

Definition frost (timestamp : option Z) : post_args :=
  {| po_blog := "garden"; po_title := "Frost"; po_slug := None;
     po_description := None; po_images := Some [1; 2];
     po_timestamp := timestamp |}.

(** A page of a post of one photo, of a given instant. *)
Definition shot (name : string) (i : Z) (t : datetime) : Page :=
  post_page "all"
    {| e_slug := name +:+ ".html"; e_title := name; e_description := None;
       e_date := Sample.utc_ymd t; e_datetime := None;
       e_images :=
         [ {| d_id := i; d_date := Sample.utc_ymd t; d_datetime := t;
              d_title := None; d_alt := None; d_caption := None;
              d_file := Str.of_Z i +:+ ".jpg"; d_tags := [] |} ];
       e_tags := []; e_backward := None; e_forward := None;
       e_comments := [] |}
    (Some t).




(** The store with the date of photo 3 overridden by a text that is the
    date of photo 2, a dash and its identifier. *)
Definition overridden : world := Sample.store {[3 := "2020-01-01-2"]}.

End Desk.

(** ** The tree of the tags (lines 859-864) *)

Definition begins_with_slash (tag : string) : bool :=
  match tag with
  | String c _ => Str.eqb_ascii c Str.slash
  | EmptyString => false
  end.

(** The index holds no empty tag, and with a tag the part of it before
    its last slash, when that is not empty; the empty path has no slug. *)
Definition rooted (st : state) : Prop :=
  tag_paths st !! "" = None ∧
  ∀ tag, is_Some (all_tags st !! tag) →
    tag ≠ "" ∧
    ∀ p, parent tag = Some p → p ≠ "" → is_Some (all_tags st !! p).

(** The node of the tree that the parts of a tag lead to. *)
Fixpoint descend (parts : list string) (tree : list (string * tag_node))
  : option tag_node :=
  match parts with
  | [] => None
  | part :: rest =>
      match get_node part tree with
      | None => None
      | Some (TagNode path children) =>
          match rest with
          | [] => Some (TagNode path children)
          | _ => descend rest children
          end
      end
  end.

(** Every node of a tree carries the slug of the path that leads to it,
    [full] being the path to the tree. *)
Definition labelled (paths : gmap string string) (full : list string)
    (tree : list (string * tag_node)) : Prop :=
  ∀ parts path children,
    descend parts tree = Some (TagNode path children) →
    paths !! Str.join "/" (full ++ parts) = Some path.

(** ** The command [add-user] (lines 454-490) *)

Record user_args : Type := {
  us_email : string;
  us_display : option string;
}.

(** [display in user_data.values()]. *)
Definition taken (user_data : gmap string string) (display : string) : Prop :=
  ∃ email, user_data !! email = Some display.

(** Lines 472-480.  The pairs that [choice] draws from the two lists of
    words are given as the list [draws]; the loop goes on until a name
    is free and accepted, so for draws that run out before there is no
    result, [None]. *)
Fixpoint pick_display (user_data : gmap string string)
    (draws : list (string * string)) (inp out : list string)
  : option (result (string * list string * list string)) :=
  match draws with
  | [] => None
  | (adjective, noun) :: draws' =>
      let display := Str.join " " [adjective; noun] in
      if bool_decide (display ∈ (map_to_list user_data).*2)
      then pick_display user_data draws' inp out
      else
        match inp with
        | [] => Some (Raise EOFError)
        | response :: inp' =>
            let out1 := out ++ ["name: " +:+ display +:+ "? y/n"] in
            if String.eqb response "y" then Some (Ok (display, inp', out1))
            else pick_display user_data draws' inp' out1
        end
  end.

(** Lines 454-490; [users] is the content of [users.json], if there is
    such a file. *)
Definition add_user (users : option (gmap string string)) (args : user_args)
    (draws : list (string * string)) (inp out : list string)
  : option (result (gmap string string * list string * list string)) :=
  let user_data := default ∅ users in
  match user_data !! us_email args with
  | Some _ => Some (exit 1)
  | None =>
      match us_display args with
      | None =>
          match pick_display user_data draws inp out with
          | None => None
          | Some (Raise e) => Some (Raise e)
          | Some (Ok (display, inp', out')) =>
              Some (Ok (<[us_email args := display]> user_data, inp',
                        out' ++ ["user added"]))
          end
      | Some display =>
          if bool_decide (display ∈ (map_to_list user_data).*2)
          then Some (exit 1)
          else Some (Ok (<[us_email args := display]> user_data, inp,
                         out ++ ["user added"]))
      end
  end.

(** No two users have one display name. *)
Definition told_apart (user_data : gmap string string) : Prop :=
  ∀ a b display,
    user_data !! a = Some display → user_data !! b = Some display → a = b.

(** ** The order of the posts of a blog (line 696) *)

(** The times of a list of entries never go down. *)
Definition ascending (times : list (option datetime)) : Prop :=
  ∀ i j a b, times !! i = Some (Some a) → times !! j = Some (Some b) →
             (i < j)%nat → a ≤ b.

(** The files of the posts of a blog are named as [post] names them,
    and their time stamps have one number of digits. *)
Definition evenly_named (n : nat) (b : blog) : Prop :=
  ∀ f, f ∈ blog_files b → Str.isnumeric (Str.stem f.1) = true →
       f.1 = Str.stem f.1 +:+ ".json" ∧ String.length (Str.stem f.1) = n.

(** One name does not come behind another one in the order of the
    strings. *)
Definition name_le (a b : string * manifest) : Prop :=
  String.ltb b.1 a.1 = false.

(** Every image of the cache has its file in the directory [images] of
    the build. *)
Definition copied (st : state) : Prop :=
  ∀ i info, all_images st !! i = Some info → d_file info ∈ assets st.

(** ** What the claims on the links, the feeds and the rendering speak of *)

(** The instants of the images of a list of entries. *)
Definition instants (es : list entry) : list datetime :=
  es ≫= λ e, d_datetime <$> e_images e.





(** * Properties *)

(** ** The error monad *)

Lemma bind_Ok {A B : Type} (m : result A) (k : A → result B) (b : B) :
  bind m k = Ok b ↔ ∃ a, m = Ok a ∧ k a = Ok b.
Proof.
  destruct m as [a|e]; simpl; split.
  - intros H. by exists a.
  - by intros (a' & [= <-] & H).
  - discriminate.
  - by intros (a' & [=] & _).
Qed.

Lemma bind_Raise {A B : Type} (m : result A) (k : A → result B) (e : exn) :
  m = Raise e → bind m k = Raise e.
Proof. by intros ->. Qed.

(** Splits a hypothesis [bind m k = Ok b] into the two runs. *)
Ltac bind_ok H :=
  let a := fresh "r" in
  let H1 := fresh H "a" in
  let H2 := fresh H "b" in
  apply bind_Ok in H as (a & H1 & H2).

(** The same for the check of the time stamp in [blog_loop]: what is
    left is the run after it. *)
Ltac stamp_ok H :=
  let r := fresh "stamp" in
  let H1 := fresh H "s" in
  let H2 := fresh in
  apply bind_Ok in H as (r & H1 & H2); rename H2 into H.

(** ** Tags *)

Lemma rsplit1_length sep s h t :
  Str.rsplit1 sep s = Some (h, t) →
  (String.length h + String.length t + 1 = String.length s)%nat.
Proof.
  revert h t. induction s as [|c r IH]; intros h t; simpl; [done|].
  destruct (Str.rsplit1 sep r) as [[h' t']|] eqn:E.
  - intros [= <- <-]. specialize (IH _ _ eq_refl). simpl. lia.
  - destruct (Str.eqb_ascii c sep); intros [= <- <-]. simpl. lia.
Qed.

Lemma parent_shorter tag p :
  parent tag = Some p → (String.length p < String.length tag)%nat.
Proof.
  unfold parent. destruct (Str.rsplit1 Str.slash tag) as [[h t]|] eqn:E; [|done].
  intros [= <-]. apply rsplit1_length in E. lia.
Qed.

Lemma ancestors_upto_enough n m tag :
  (String.length tag ≤ n)%nat → (String.length tag ≤ m)%nat →
  ancestors_upto n tag = ancestors_upto m tag.
Proof.
  revert m tag. induction n as [|n IH]; intros m tag Hn Hm.
  - destruct tag; [|simpl in Hn; lia]. by destruct m.
  - destruct m as [|m].
    + destruct tag; [done|simpl in Hm; lia].
    + simpl. destruct tag as [|c r]; [done|]. f_equal.
      destruct (parent (String c r)) as [p|] eqn:E; [|done].
      apply parent_shorter in E. simpl in *. apply IH; lia.
Qed.

(** The list [ancestors] is the run of the loop variable: the tag, then
    the run from its parent. *)
Lemma ancestors_unfold tag :
  ancestors tag =
  match tag with
  | EmptyString => []
  | _ => tag :: match parent tag with
                | Some p => ancestors p
                | None => []
                end
  end.
Proof.
  unfold ancestors. destruct tag as [|c r]; [done|].
  cbn [String.length ancestors_upto]. f_equal.
  destruct (parent (String c r)) as [p|] eqn:E; [|done].
  apply parent_shorter in E. simpl in E. apply ancestors_upto_enough; lia.
Qed.

Lemma ancestors_shorter tag q :
  q ∈ ancestors tag → (String.length q ≤ String.length tag)%nat.
Proof.
  remember (String.length tag) as n eqn:Hn. revert tag Hn q.
  induction (lt_wf n) as [n _ IH]. intros tag -> q.
  rewrite ancestors_unfold. destruct tag as [|c r]; [by intros ?%elem_of_nil|].
  intros [->|Hq]%elem_of_cons; [done|].
  destruct (parent (String c r)) as [p|] eqn:E; [|by apply elem_of_nil in Hq].
  apply parent_shorter in E.
  specialize (IH _ E p eq_refl q Hq). lia.
Qed.

Lemma ancestors_NoDup tag : NoDup (ancestors tag).
Proof.
  remember (String.length tag) as n eqn:Hn. revert tag Hn.
  induction (lt_wf n) as [n _ IH]. intros tag ->.
  rewrite ancestors_unfold. destruct tag as [|c r]; [constructor|].
  destruct (parent (String c r)) as [p|] eqn:E.
  - apply parent_shorter in E. constructor; [|by eapply IH].
    intros Hin%ancestors_shorter. lia.
  - apply NoDup_singleton.
Qed.

(** Wherever the walk stands, what is left of the list is the run from
    the tag it stands at: the inner loop of lines 631-652 visits just
    these. *)
Lemma ancestors_suffix tag denied p rest :
  ancestors tag = denied ++ p :: rest → p :: rest = ancestors p.
Proof.
  remember (String.length tag) as n eqn:Hn. revert tag Hn denied.
  induction (lt_wf n) as [n _ IH]. intros tag -> denied.
  rewrite ancestors_unfold. destruct tag as [|c r].
  { by destruct denied. }
  destruct denied as [|d denied]; simpl.
  - intros [= <- <-]. by rewrite (ancestors_unfold (String c r)).
  - intros [= <- H].
    destruct (parent (String c r)) as [q|] eqn:E; [|by destruct denied].
    apply parent_shorter in E. by eapply IH.
Qed.

Lemma ask_answers tag inp out b inp' out' :
  ask tag inp out = Ok (b, inp', out') →
  ∃ skipped, inp = skipped ++ (if b then "y" else "n") :: inp'.
Proof.
  revert out. induction inp as [|r inp IH]; intros out; simpl; [done|].
  destruct (String.eqb r "y") eqn:Ey.
  { apply String.eqb_eq in Ey as ->. intros [= <- <- <-]. by exists []. }
  destruct (String.eqb r "n") eqn:En.
  { apply String.eqb_eq in En as ->. intros [= <- <- <-]. by exists []. }
  intros (skipped & ->)%IH. by exists (r :: skipped).
Qed.

Lemma tag_allowed_inv tag st b st1 :
  tag_allowed tag st = Ok (b, st1) →
  db_tags st1 !! tag = Some b ∧ db_tags st ⊆ db_tags st1 ∧
  all_tags st1 = all_tags st ∧ tag_paths st1 = tag_paths st ∧
  all_images st1 = all_images st ∧ assets st1 = assets st.
Proof.
  unfold tag_allowed. destruct (db_tags st !! tag) as [b'|] eqn:E.
  - by intros [= <- <-].
  - intros H. bind_ok H. destruct r as [[b' inp] out]. injection Hb as <- <-.
    simpl. rewrite lookup_insert_eq. split_and!; try done.
    by apply insert_subseteq.
Qed.

Lemma tag_allowed_persisted tag st b :
  db_tags st !! tag = Some b → tag_allowed tag st = Ok (b, st).
Proof. unfold tag_allowed. by intros ->. Qed.

Lemma register_fields image_id st tag :
  db_tags (register image_id st tag) = db_tags st ∧
  all_images (register image_id st tag) = all_images st ∧
  assets (register image_id st tag) = assets st ∧
  stdin (register image_id st tag) = stdin st ∧
  stdout (register image_id st tag) = stdout st.
Proof. unfold register. by destruct (all_tags st !! tag). Qed.

Lemma register_all_tags image_id st tag q :
  all_tags (register image_id st tag) !! q =
  if decide (q = tag)
  then Some (default [] (all_tags st !! q) ++ [image_id])
  else all_tags st !! q.
Proof.
  unfold register. case_decide as Hq.
  - subst q. destruct (all_tags st !! tag) eqn:E; simpl; by rewrite lookup_insert_eq.
  - destruct (all_tags st !! tag) eqn:E; simpl; by rewrite lookup_insert_ne.
Qed.

Lemma register_fold_fields image_id l st :
  db_tags (foldl (register image_id) st l) = db_tags st ∧
  all_images (foldl (register image_id) st l) = all_images st ∧
  assets (foldl (register image_id) st l) = assets st ∧
  stdin (foldl (register image_id) st l) = stdin st ∧
  stdout (foldl (register image_id) st l) = stdout st.
Proof.
  revert st. induction l as [|t l IH]; intros st; simpl; [done|].
  destruct (IH (register image_id st t)) as (-> & -> & -> & -> & ->).
  apply register_fields.
Qed.

Lemma register_fold_all_tags image_id l st q :
  NoDup l →
  all_tags (foldl (register image_id) st l) !! q =
  if decide (q ∈ l)
  then Some (default [] (all_tags st !! q) ++ [image_id])
  else all_tags st !! q.
Proof.
  intros Hl. revert st. induction Hl as [|t l Ht Hl IH]; intros st; cbn [foldl].
  { destruct (decide (q ∈ [])) as [H|]; [by apply elem_of_nil in H|done]. }
  rewrite IH, register_all_tags.
  destruct (decide (q = t)) as [->|Hne].
  - rewrite (decide_False (P := t ∈ l)) by done.
    by rewrite (decide_True (P := t ∈ t :: l)) by left.
  - destruct (decide (q ∈ l)) as [Hin|Hout].
    + by rewrite (decide_True (P := q ∈ t :: l)) by (by right).
    + rewrite (decide_False (P := q ∈ t :: l)); [done|].
      by intros [?|?]%elem_of_cons.
Qed.

Lemma tag_allowed_others tag st b st1 q :
  tag_allowed tag st = Ok (b, st1) → q ≠ tag →
  db_tags st1 !! q = db_tags st !! q.
Proof.
  unfold tag_allowed. destruct (db_tags st !! tag) as [b'|] eqn:E.
  - by intros [= <- <-].
  - intros H ?. bind_ok H. destruct r as [[b' inp] out]. injection Hb as <- <-.
    simpl. by rewrite lookup_insert_ne.
Qed.

Lemma walk_db_mono image_id l tags st tags' st' :
  walk image_id l tags st = Ok (tags', st') →
  db_tags st ⊆ db_tags st' ∧ all_images st' = all_images st ∧
  assets st' = assets st.
Proof.
  revert st. induction l as [|tag rest IH]; intros st; cbn [walk].
  { by intros [= <- <-]. }
  intros H. bind_ok H. destruct r as [[] st1].
  - injection Hb as <- <-.
    pose proof (register_fold_fields image_id (tag :: rest) st1) as Hf.
    cbn [foldl] in Hf. destruct Hf as (-> & -> & -> & _).
    by destruct (tag_allowed_inv _ _ _ _ Ha) as (_ & ? & _ & _ & -> & ->).
  - destruct (IH _ Hb) as (? & -> & ->).
    destruct (tag_allowed_inv _ _ _ _ Ha) as (_ & ? & _ & _ & -> & ->).
    split_and!; [|done..]. by etrans.
Qed.

(** The walk along any duplicate-free list of candidates. *)
Lemma walk_inv image_id l tags st tags' st' :
  NoDup l →
  walk image_id l tags st = Ok (tags', st') →
  (∃ denied p rest,
      l = denied ++ p :: rest ∧
      (∀ q, q ∈ denied → db_tags st' !! q = Some false) ∧
      db_tags st' !! p = Some true ∧
      (∀ q, q ∉ denied → q ≠ p → db_tags st' !! q = db_tags st !! q) ∧
      tags' = tags ++ [Str.split Str.slash p] ∧
      (∀ q, all_tags st' !! q =
            if decide (q ∈ p :: rest)
            then Some (default [] (all_tags st !! q) ++ [image_id])
            else all_tags st !! q))
  ∨ ((∀ q, q ∈ l → db_tags st' !! q = Some false) ∧
     (∀ q, q ∉ l → db_tags st' !! q = db_tags st !! q) ∧
     tags' = tags ∧ all_tags st' = all_tags st).
Proof.
  intros Hl. revert st. induction Hl as [|tag rest Htag Hrest IH]; intros st.
  { intros [= <- <-]. right. split_and!; try done. by intros q ?%elem_of_nil. }
  cbn [walk]. intros H. bind_ok H. destruct r as [[] st1].
  - injection Hb as <- <-. left. exists [], tag, rest.
    destruct (tag_allowed_inv _ _ _ _ Ha) as (Hdec & _ & Htags & _).
    pose proof (register_fold_fields image_id (tag :: rest) st1) as Hf.
    pose proof (register_fold_all_tags image_id (tag :: rest) st1) as Hg.
    cbn [foldl] in Hf, Hg. destruct Hf as (Hdb & _).
    split_and!; try done.
    + by intros q ?%elem_of_nil.
    + by rewrite Hdb.
    + intros q _ Hq. rewrite Hdb. by eapply tag_allowed_others.
    + intros q. rewrite Hg by (by constructor). by rewrite Htags.
  - destruct (tag_allowed_inv _ _ _ _ Ha) as (Hdec & _ & Htags & _).
    destruct (walk_db_mono _ _ _ _ _ _ Hb) as (Hmono & _).
    assert (db_tags st' !! tag = Some false) as Htag'.
    { by eapply lookup_weaken. }
    destruct (IH _ Hb) as
      [(denied & p & rest' & -> & Hden & Hp & Hoth & -> & Hreg)
      |(Hden & Hoth & -> & Hall)].
    + left. exists (tag :: denied), p, rest'. split_and!; try done.
      * intros q [->|?]%elem_of_cons; auto.
      * intros q Hq Hne. rewrite Hoth; [|set_solver..].
        eapply tag_allowed_others; [done|set_solver].
      * intros q. by rewrite Hreg, Htags.
    + right. split_and!; try done.
      * intros q [->|?]%elem_of_cons; auto.
      * intros q Hq. rewrite Hoth by set_solver.
        eapply tag_allowed_others; [done|set_solver].
      * by rewrite Hall.
Qed.

(** The walk never stops for lack of an answer when every candidate has a
    persisted decision, and then it neither asks nor stores anything. *)
Lemma walk_persisted image_id l tags st :
  (∀ q, q ∈ l → is_Some (db_tags st !! q)) →
  ∃ tags' st', walk image_id l tags st = Ok (tags', st') ∧
    db_tags st' = db_tags st ∧ stdin st' = stdin st ∧ stdout st' = stdout st.
Proof.
  induction l as [|tag rest IH]; intros Hl; simpl.
  { by eexists _, _. }
  destruct (Hl tag) as [b Hb]; [by left|].
  rewrite (tag_allowed_persisted _ _ _ Hb). simpl. destruct b.
  - eexists _, _. split; [done|].
    change (foldl (register image_id) (register image_id st tag) rest)
      with (foldl (register image_id) st (tag :: rest)).
    by destruct (register_fold_fields image_id (tag :: rest) st)
      as (-> & _ & _ & -> & ->).
  - apply IH. intros q ?. apply Hl. by right.
Qed.

(** C5, as the code has it: on the way from the raw tag to the root the
    first allowed prefix is attached to the image; it and every shorter
    prefix are registered for the image in the tag index, the shorter ones
    without their decisions being read or changed; the longer prefixes,
    which the walk found denied, are not registered by it; and when every
    prefix is denied the walk leaves the image's tags and the index as
    they were. *)
Theorem walk_registers_from_first_allowed image_id tag tags st tags' st' :
  walk image_id (ancestors tag) tags st = Ok (tags', st') →
  (∃ denied p,
      ancestors tag = denied ++ ancestors p ∧
      head (ancestors p) = Some p ∧
      (∀ q, q ∈ denied →
            db_tags st' !! q = Some false ∧
            all_tags st' !! q = all_tags st !! q) ∧
      db_tags st' !! p = Some true ∧
      tags' = tags ++ [Str.split Str.slash p] ∧
      (∀ q, q ∈ ancestors p →
            all_tags st' !! q =
            Some (default [] (all_tags st !! q) ++ [image_id])) ∧
      (∀ q, q ∈ ancestors p → q ≠ p →
            db_tags st' !! q = db_tags st !! q) ∧
      (∀ q, q ∉ ancestors p → all_tags st' !! q = all_tags st !! q))
  ∨ ((∀ q, q ∈ ancestors tag → db_tags st' !! q = Some false) ∧
     tags' = tags ∧ all_tags st' = all_tags st).
Proof.
  intros H. pose proof (ancestors_NoDup tag) as Hnd.
  destruct (walk_inv _ _ _ _ _ _ Hnd H) as
    [(denied & p & rest & Hl & Hden & Hp & Hoth & -> & Hreg)
    |(Hden & _ & -> & Hall)]; [left|by right].
  pose proof (ancestors_suffix _ _ _ _ Hl) as Hsuf.
  rewrite Hl in Hnd. apply NoDup_app in Hnd as (_ & Hdisj & _).
  exists denied, p. rewrite <-Hsuf. split_and!; try done.
  - intros q Hq. split; [by apply Hden|].
    rewrite Hreg. by rewrite decide_False by (by apply Hdisj).
  - intros q Hq. by rewrite Hreg, decide_True.
  - intros q Hq Hne. apply Hoth; [|done]. intros Hq'. by eapply Hdisj.
  - intros q Hq. by rewrite Hreg, decide_False.
Qed.

(** ** The chain of links *)

Lemma set_last_forward_snoc slug es e :
  set_last_forward slug (es ++ [e]) = es ++ [set_forward slug e].
Proof.
  induction es as [|x es IH]; [done|].
  cbn [app set_last_forward]. rewrite IH. by destruct es.
Qed.

(** [set_last_forward] leaves every field but [forward] alone. *)
Lemma set_last_forward_fmap {B : Type} (f : entry → B) slug es :
  (∀ e, f (set_forward slug e) = f e) →
  f <$> set_last_forward slug es = f <$> es.
Proof.
  intros Hf. induction es as [|e es IH] using rev_ind; [done|].
  by rewrite set_last_forward_snoc, !fmap_app, (fmap_cons f), Hf.
Qed.












(** A property of the loop variables that every appended post keeps holds
    when the loop ends. *)
Lemma blog_loop_invariant (P : assembly → Prop) w files a st a' st' :
  (∀ name post images tags a, P a → P (blog_entry w name post images tags a)) →
  P a → blog_loop w files a st = Ok (a', st') → P a'.
Proof.
  intros Hstep. revert a st.
  induction files as [|[name post] files IH]; intros a st Ha; cbn [blog_loop].
  { by intros [= <- <-]. }
  destruct (Str.isnumeric (Str.stem name)); [|by apply IH].
  intros H. bind_ok H. destruct r as [[images tags] st1]. stamp_ok Hb.
  eapply IH; [|done]. by apply Hstep.
Qed.

Lemma section_loop_invariant (P : assembly → Prop) w sd images a st a' st' :
  (∀ data a, P a → P (section_entry sd data a)) →
  P a → section_loop w sd images a st = Ok (a', st') → P a'.
Proof.
  intros Hstep. revert a st.
  induction images as [|image images IH]; intros a st Ha; cbn [section_loop].
  { by intros [= <- <-]. }
  destruct (img_full_path image); [|by apply IH].
  intros H. bind_ok H. destruct r as [data st1].
  eapply IH; [|done]. by apply Hstep.
Qed.

Lemma assemble_inv w p st es st' :
  assemble w p st = Ok (es, st') →
  match p with
  | BlogDirectory b =>
      ∃ a st1, blog_loop w (sorted String.ltb fst false (blog_files b))
                 (start (blog_comments b)) st = Ok (a, st1) ∧
               es = entries a ∧ st' = warn_unused (comments a) st1
  | SectionFile sd =>
      sec_min_rating sd = None ∧
      ∃ a st1, section_loop w sd
                 (search_images w (sec_all_tags sd) (sec_no_tags sd))
                 (start (sec_comments sd)) st = Ok (a, st1) ∧
               es = entries a ∧ st' = warn_unused (comments a) st1
  | OtherPath _ => es = [] ∧ st' = st
  end.
Proof.
  destruct p as [b|sd|name]; simpl.
  - unfold assemble_blog. intros H. bind_ok H. destruct r as [a st1].
    injection Hb as <- <-. by exists a, st1.
  - unfold assemble_section. destruct (sec_min_rating sd); [done|].
    intros H. bind_ok H. destruct r as [a st1].
    injection Hb as <- <-. split; [done|]. by exists a, st1.
  - by intros [= <- <-].
Qed.

(** ** Slugs *)

Lemma length_app s t :
  String.length (s +:+ t) = (String.length s + String.length t)%nat.
Proof. induction s as [|c s IH]; simpl; [done|]. by rewrite IH. Qed.

Lemma app_inv_length s1 t1 s2 t2 :
  s1 +:+ t1 = s2 +:+ t2 → String.length s1 = String.length s2 →
  s1 = s2 ∧ t1 = t2.
Proof.
  revert s2. induction s1 as [|c s1 IH]; intros [|c' s2]; simpl; try done.
  intros [= <- H] [= Hlen]. by destruct (IH _ H Hlen) as [-> ->].
Qed.

Lemma app_inv_tail s1 s2 t : s1 +:+ t = s2 +:+ t → s1 = s2.
Proof.
  intros H. apply (app_inv_length _ _ _ _ H).
  apply (f_equal String.length) in H. rewrite !length_app in H. lia.
Qed.

Lemma dated_slug_inj : Inj (=) (=) dated_slug.
Proof. intros d1 d2. apply app_inv_tail. Qed.

Lemma dated_numbered d1 d2 i :
  String.length d1 = String.length d2 → dated_slug d1 ≠ numbered_slug d2 i.
Proof.
  intros Hlen H. apply (f_equal String.length) in H.
  unfold dated_slug, numbered_slug in H. rewrite !length_app in H.
  simpl in H. lia.
Qed.

Lemma numbered_numbered d1 d2 i1 i2 :
  String.length d1 = String.length d2 →
  numbered_slug d1 i1 = numbered_slug d2 i2 → d1 = d2 ∧ i1 = i2.
Proof.
  intros Hlen H. apply app_inv_length in H as [-> H]; [|done].
  split; [done|]. injection H as H.
  change (Str.of_Z i1 +:+ ".html" = Str.of_Z i2 +:+ ".html") in H.
  apply app_inv_tail in H.
  by apply (inj pretty).
Qed.

(** The slugs of a blog are those of its manifests. *)
Lemma blog_loop_slugs w files a st a' st' :
  blog_loop w files a st = Ok (a', st') →
  e_slug <$> entries a' =
  (e_slug <$> entries a) ++
  ((λ f, dated_slug (m_slug f.2)) <$>
     filter (λ f, Str.isnumeric (Str.stem f.1) = true) files).
Proof.
  revert a st. induction files as [|[name post] files IH]; intros a st;
    cbn [blog_loop].
  { intros [= <- <-]. by rewrite filter_nil, app_nil_r. }
  rewrite filter_cons. cbn [fst].
  destruct (Str.isnumeric (Str.stem name)) eqn:E.
  - rewrite decide_True by done. intros H. bind_ok H.
    destruct r as [[images tags] st1]. stamp_ok Hb. rewrite (IH _ _ Hb).
    unfold blog_entry. destruct (pop _ (comments a)) as [found rest].
    cbn [entries]. rewrite fmap_app, set_last_forward_fmap by done.
    by rewrite <-app_assoc.
  - rewrite decide_False by done. apply IH.
Qed.


Lemma apart_snoc ks k : apart (ks ++ [k]) → apart ks.
Proof.
  intros [Hnd Hlen]. split.
  - rewrite bind_app in Hnd. by apply NoDup_app in Hnd as (? & _).
  - intros k1 k2 ??. apply Hlen; apply elem_of_app; by left.
Qed.

Lemma shaped_mono seen seen' k : seen ⊆ seen' → shaped seen k → shaped seen' k.
Proof. intros Hsub [Hd Hk]. split; [by apply Hsub|done]. Qed.

Lemma section_entry_slugged sd data a :
  slugged a → slugged (section_entry sd data a).
Proof.
  intros (Hsh & Hnd & Hlater). unfold section_entry.
  destruct (pop _ (comments a)) as [found rest].
  set (slug := if bool_decide (d_date data ∈ dates a)
               then numbered_slug (d_date data) (d_id data)
               else dated_slug (d_date data)).
  set (seen' := if bool_decide (d_date data ∈ dates a)
                then dates a else {[d_date data]} ∪ dates a).
  assert (dates a ⊆ seen') as Hsub.
  { unfold seen'. case_bool_decide; set_solver. }
  assert (d_date data ∈ seen') as Hin.
  { unfold seen'. case_bool_decide; set_solver. }
  unfold slugged. cbn [entries dates].
  rewrite !fmap_app, !set_last_forward_fmap by done.
  cbn [fmap list_fmap shape e_slug e_date e_images].
  split_and!.
  - apply Forall_app. split.
    + eapply Forall_impl; [done|]. intros k. by apply shaped_mono.
    + apply Forall_singleton. split; [done|]. exists data. split; [done|].
      unfold slug. simpl. case_bool_decide; auto.
  - intros Hap. apply NoDup_app. split_and!.
    + by apply Hnd, (apart_snoc _ _ Hap).
    + intros s (e & -> & He)%list_elem_of_fmap Hs%list_elem_of_singleton.
      rewrite Forall_forall in Hsh.
      destruct (Hsh (shape e)) as (Hdate & d & Himg & Hslug);
        [by apply list_elem_of_fmap_2|].
      simpl in Hdate, Himg, Hslug.
      destruct Hap as [Hids Hlen].
      assert (String.length (e_date e) = String.length (d_date data)) as Hl.
      { apply (Hlen (shape e) (slug, d_date data, [data])).
        - apply elem_of_app. left. by apply list_elem_of_fmap_2.
        - apply elem_of_app. right. by left. }
      assert (d_id d ≠ d_id data) as Hid.
      { rewrite bind_app in Hids. apply NoDup_app in Hids as (_ & Hids & _).
        intros Heq. apply (Hids (d_id d)).
        - apply list_elem_of_bind. exists (shape e). split.
          + simpl. rewrite Himg. by left.
          + by apply list_elem_of_fmap_2.
        - simpl. rewrite Heq. by left. }
      unfold slug in Hs. case_bool_decide as Hseen.
      * destruct Hslug as [Hslug|Hslug]; rewrite Hslug in Hs.
        -- by eapply dated_numbered.
        -- by apply numbered_numbered in Hs as [_ ?].
      * destruct Hslug as [Hslug|Hslug]; rewrite Hslug in Hs.
        -- apply dated_slug_inj in Hs. rewrite Hs in Hdate. exact (Hseen Hdate).
        -- by apply (dated_numbered (d_date data) (e_date e) (d_id d)).
    + apply NoDup_singleton.
  - intros i j k1 k2 Hi Hj Hij Hd.
    apply lookup_snoc_Some in Hj as [[Hjl Hj]|[Hjl <-]].
    + apply lookup_snoc_Some in Hi as [[_ Hi]|[Hil _]]; [|lia].
      exact (Hlater i j k1 k2 Hi Hj Hij Hd).
    + apply lookup_snoc_Some in Hi as [[_ Hi]|[Hil _]]; [|lia].
      exists data. split; [done|]. simpl in *.
      rewrite Forall_forall in Hsh.
      destruct (Hsh k1) as [Hk1 _]; [by eapply list_elem_of_lookup_2|].
      unfold slug. rewrite bool_decide_true; [done|]. by rewrite <-Hd.
Qed.

Lemma slugged_start table : slugged (start table).
Proof.
  split_and!; simpl.
  - constructor.
  - intros _. constructor.
  - by intros i j k1 k2 ?.
Qed.

(** ** [process_image] *)

Lemma walk_tags_fields image_id raw tags st tags' st' :
  walk_tags image_id raw tags st = Ok (tags', st') →
  all_images st' = all_images st ∧ assets st' = assets st ∧
  db_tags st ⊆ db_tags st'.
Proof.
  revert tags st. induction raw as [|tag raw IH]; intros tags st; cbn [walk_tags].
  { by intros [= <- <-]. }
  intros H. bind_ok H. destruct r as [tags1 st1].
  destruct (walk_db_mono _ _ _ _ _ _ Ha) as (? & <- & <-).
  destruct (IH _ _ Hb) as (-> & -> & ?). split_and!; [done..|by etrans].
Qed.

Lemma process_image_hit w x st d :
  all_images st !! given_id x = Some d → process_image w x st = Ok (d, st).
Proof. unfold process_image. fold (given_id x). by intros ->. Qed.

Lemma process_image_miss w x st data st' :
  all_images st !! given_id x = None →
  process_image w x st = Ok (data, st') →
  ∃ image path tags st2,
    resolve w x = Some image ∧ img_full_path image = Some path ∧
    walk_tags (given_id x) (img_tags image) []
      (set_assets
         ({[Str.of_Z (img_id image) +:+ Str.map Str.lower (Str.suffix path)]}
          ∪ assets st) st) = Ok (tags, st2) ∧
    d_id data = img_id image ∧
    d_datetime data = img_creation_date image ∧
    d_tags data = tags ∧
    d_date data =
      match db_images w !! img_id image with
      | Some row => row
      | None =>
          match img_exif image with
          | Some exif =>
              match exif !! "DateTimeOriginal" with
              | Some value => exif_day value
              | None => strftime_ymd w (img_creation_date image)
              end
          | None => strftime_ymd w (img_creation_date image)
          end
      end ∧
    all_images st' = <[img_id image := data]> (all_images st).
Proof.
  unfold process_image. fold (given_id x). fold (resolve w x). intros ->.
  destruct (resolve w x) as [image|]; [|done].
  destruct (img_full_path image) as [path|] eqn:Hpath; [|done].
  intros H. bind_ok H. destruct r as [tags st2]. injection Hb as <- <-.
  exists image, path, tags, st2. split_and!; try done.
  cbn [set_all_images all_images].
  by destruct (walk_tags_fields _ _ _ _ _ _ Ha) as (-> & _).
Qed.


(** A fresh image with a path whose tags are all decided is resolved. *)
Lemma walk_tags_persisted image_id raw tags st :
  (∀ tag q, tag ∈ raw → q ∈ ancestors tag → is_Some (db_tags st !! q)) →
  ∃ tags' st', walk_tags image_id raw tags st = Ok (tags', st').
Proof.
  revert tags st. induction raw as [|tag raw IH]; intros tags st Hdec;
    cbn [walk_tags].
  { by eexists _, _. }
  destruct (walk_persisted image_id (ancestors tag) tags st)
    as (tags1 & st1 & -> & Hdb & _).
  { intros q. apply Hdec. by left. }
  cbn [bind]. apply IH. intros t q ??. rewrite Hdb. apply (Hdec t); [by right|done].
Qed.

Lemma process_image_returns w x st image :
  resolve w x = Some image → is_Some (img_full_path image) →
  (∀ tag q, tag ∈ img_tags image → q ∈ ancestors tag →
            is_Some (db_tags st !! q)) →
  ∃ data st', process_image w x st = Ok (data, st').
Proof.
  intros Hres [path Hpath] Hdec. unfold process_image.
  fold (given_id x). fold (resolve w x).
  destruct (all_images st !! given_id x); [by eexists _, _|].
  rewrite Hres, Hpath.
  edestruct (walk_tags_persisted (given_id x) (img_tags image) [])
    as (tags & st2 & ->); [|by eexists _, _].
  done.
Qed.

(** ** The dates of the pages of an auto-section *)

Lemma section_loop_images w sd images a st a' st' :
  agrees (all_images st) images → one_instant images →
  section_loop w sd images a st = Ok (a', st') →
  ∃ news,
    e_images <$> entries a' = (e_images <$> entries a) ++ news ∧
    Forall2 (λ image ds, ∃ d, ds = [d] ∧ d_datetime d = img_creation_date image)
      (with_path images) news.
Proof.
  revert a st. induction images as [|image images IH]; intros a st Hag Hone;
    cbn [section_loop].
  { intros [= <- <-]. exists []. by rewrite app_nil_r. }
  unfold with_path. rewrite filter_cons. fold (with_path images).
  assert (one_instant images) as Hone'.
  { intros im1 im2 ??. apply Hone; by right. }
  destruct (img_full_path image) as [path|] eqn:Hpath.
  - rewrite decide_True by done. intros H. bind_ok H. destruct r as [data st1].
    assert (d_datetime data = img_creation_date image ∧
            agrees (all_images st1) images) as [Hdt Hag1].
    { destruct (all_images st !! img_id image) as [d|] eqn:Hc.
      - rewrite (process_image_hit w (inr image) st d Hc) in Ha.
        injection Ha as <- <-. split.
        + apply Hag; [by left|done].
        + intros im dd ?. apply Hag. by right.
      - destruct (process_image_miss w (inr image) _ _ _ Hc Ha)
          as (image' & path' & tags' & st2 & [= <-] & _ & _ & _ & Hdt & _ & _
              & Hcache).
        split; [done|]. intros im dd Him. rewrite Hcache.
        destruct (decide (img_id image = img_id im)) as [Heq|Hne].
        + rewrite Heq, lookup_insert_eq. intros [= <-]. rewrite Hdt.
          apply Hone; [by left|by right|done].
        + rewrite lookup_insert_ne by done. apply Hag. by right. }
    destruct (IH _ _ Hag1 Hone' Hb) as (news & Hnews & Hall).
    exists ([data] :: news). split.
    + rewrite Hnews. unfold section_entry.
      destruct (pop _ (comments a)) as [found rest]. cbn [entries].
      rewrite fmap_app, set_last_forward_fmap by done.
      by rewrite <-app_assoc.
    + constructor; [by exists data|done].
  - rewrite decide_False by (by intros [? ?]).
    apply IH; [|done]. intros im dd ?. apply Hag. by right.
Qed.

Lemma section_post_pages_dates sd es (instants : list datetime) :
  Forall2 (λ t ds, ∃ d : image_data, ds = [d] ∧ d_datetime d = t)
    instants (e_images <$> es) →
  ∃ ps, section_post_pages sd es = Ok ps ∧ date <$> ps = Some <$> instants.
Proof.
  revert instants. induction es as [|e es IH]; intros instants H.
  { apply Forall2_nil_inv_r in H as ->. by exists []. }
  rewrite fmap_cons in H.
  apply Forall2_cons_inv_r in H as (t & ts & (d & Hd & Ht) & Hts & ->).
  destruct (IH _ Hts) as (ps & Hps & Hdates).
  cbn [section_post_pages]. rewrite Hd, Hps. cbn [bind].
  eexists. split; [done|]. rewrite !fmap_cons, Hdates. cbn [date post_page].
  by rewrite Ht.
Qed.

(** C10: the pages of the posts of an auto-section carry, as the date the
    feeds sort by, the creation dates of the images of the search, in
    their order, whatever the overrides, the EXIF fields and the effective
    dates are. *)
Theorem section_page_dates_are_creation_dates w sd st es st' :
  agrees (all_images st) (search_images w (sec_all_tags sd) (sec_no_tags sd)) →
  one_instant (search_images w (sec_all_tags sd) (sec_no_tags sd)) →
  assemble_section w sd st = Ok (es, st') →
  ∃ ps, section_post_pages sd es = Ok ps ∧
        date <$> ps =
        (λ image, Some (img_creation_date image)) <$>
          with_path (search_images w (sec_all_tags sd) (sec_no_tags sd)).
Proof.
  intros Hag Hone H. apply (assemble_inv w (SectionFile sd)) in H
    as (_ & a & st1 & Hloop & -> & _).
  destruct (section_loop_images _ _ _ _ _ _ _ Hag Hone Hloop)
    as (news & Hnews & Hall). cbn [start entries fmap list_fmap app] in Hnews.
  destruct (section_post_pages_dates sd (entries a)
              (img_creation_date <$> with_path
                 (search_images w (sec_all_tags sd) (sec_no_tags sd))))
    as (ps & Hps & Hdates).
  { rewrite Hnews. apply Forall2_fmap_l.
    eapply Forall2_impl; [done|]. by intros image ds (d & -> & ?); eexists. }
  exists ps. split; [done|]. by rewrite Hdates, <-list_fmap_compose.
Qed.

(** ** Sorting and the feeds *)

Section SortedFacts.
Context {A K : Type} (lt : K → K → bool) (key : A → K) (reverse : bool).

Lemma insert_Permutation x l : insert lt key reverse x l ≡ₚ x :: l.
Proof.
  induction l as [|y l IH]; [done|]. simpl.
  destruct (goes_first lt key reverse y x); [|done].
  rewrite IH. apply Permutation_swap.
Qed.

Lemma sorted_Permutation l : sorted lt key reverse l ≡ₚ l.
Proof.
  induction l as [|x l IH]; [done|]. unfold sorted in *. simpl.
  by rewrite insert_Permutation, IH.
Qed.

(** The sort is stable: the elements of one key keep their order, as
    long as [<] never holds between equal keys. *)
Lemma insert_stable `{!EqDecision K} x l k :
  (∀ a, lt a a = false) →
  filter (λ y, key y = k) (insert lt key reverse x l) =
  filter (λ y, key y = k) (x :: l).
Proof.
  intros Hirr. induction l as [|y l IH]; [done|]. simpl.
  destruct (goes_first lt key reverse y x) eqn:E; [|done].
  rewrite filter_cons, IH, !filter_cons.
  destruct (decide (key y = k)) as [Hy|Hy], (decide (key x = k)) as [Hx|Hx];
    try done.
  unfold goes_first in E. rewrite Hx, Hy in E.
  destruct reverse; by rewrite Hirr in E.
Qed.

Lemma sorted_stable `{!EqDecision K} l k :
  (∀ a, lt a a = false) →
  filter (λ y, key y = k) (sorted lt key reverse l) =
  filter (λ y, key y = k) l.
Proof.
  intros Hirr. induction l as [|x l IH]; [done|].
  unfold sorted in *. simpl. rewrite insert_stable by done.
  by rewrite !filter_cons, IH.
Qed.
End SortedFacts.

Lemma insert_not_before x l :
  StronglySorted not_before l →
  StronglySorted not_before (insert Z.ltb date_key true x l).
Proof.
  induction 1 as [|y l Hl IH Hy]; simpl.
  { repeat constructor. }
  unfold goes_first. destruct (date_key x <? date_key y) eqn:E.
  - apply Z.ltb_lt in E. constructor; [done|].
    rewrite insert_Permutation. constructor; [|done].
    unfold not_before. lia.
  - apply Z.ltb_ge in E. constructor; [by constructor|].
    constructor; [done|]. eapply Forall_impl; [done|].
    unfold not_before. intros z ?. lia.
Qed.

Lemma feed_order_sorted pages : StronglySorted not_before (feed_order pages).
Proof.
  induction pages as [|p pages IH]; [constructor|].
  by apply insert_not_before.
Qed.

Lemma feed_order_Permutation pages : feed_order pages ≡ₚ pages.
Proof. apply sorted_Permutation. Qed.

Lemma StronglySorted_lookup {A : Type} (R : relation A) l i j a b :
  StronglySorted R l → l !! i = Some a → l !! j = Some b → (i < j)%nat →
  R a b.
Proof.
  intros Hl. revert i j. induction Hl as [|x l Hl IH Hx]; intros i j; [done|].
  destruct i as [|i], j as [|j]; try lia.
  - intros [= <-] Hb _. rewrite Forall_forall in Hx.
    apply Hx. by eapply list_elem_of_lookup_2.
  - intros Ha Hb ?. apply (IH i j); [done..|lia].
Qed.

Lemma render_feed_entries_Ok w environment copied site l es :
  render_feed_entries w environment copied site l = Ok es ↔
  Forall2 (λ p e, render_feed_entry w environment copied site p = Ok e) l es.
Proof.
  revert es. induction l as [|p l IH]; intros es; cbn [render_feed_entries].
  - split; [by intros [= <-]|by intros ->%Forall2_nil_inv_l].
  - split.
    + intros H. bind_ok H. bind_ok Hb. injection Hbb as <-.
      constructor; [done|by apply IH].
    + intros (e & es' & He & Hes & ->)%Forall2_cons_inv_l.
      apply IH in Hes. by rewrite He, Hes.
Qed.

Lemma render_feed_entry_published w environment copied site p e :
  render_feed_entry w environment copied site p = Ok e →
  date p = Some (fe_published e).
Proof.
  unfold render_feed_entry. destruct (date p) as [t|]; [|done].
  intros H. bind_ok H. rename r into content.
  destruct (page_images p) as [[|first images]|]; try done.
  case_bool_decide; [|done]. bind_ok Hb. by injection Hbb as <-.
Qed.

Lemma render_feed_entries_published w environment copied site l es :
  render_feed_entries w environment copied site l = Ok es →
  fe_published <$> es = date_key <$> l ∧ Forall (λ p, has_date p = true) l.
Proof.
  rewrite render_feed_entries_Ok. induction 1 as [|p e l es Hp _ [IH1 IH2]].
  { by split. }
  apply render_feed_entry_published in Hp. split.
  - rewrite !fmap_cons, IH1. unfold date_key. by rewrite Hp.
  - constructor; [|done]. unfold has_date. by rewrite Hp.
Qed.

Lemma render_feed_entries_total w environment copied site l :
  Forall (λ p, ∃ e, render_feed_entry w environment copied site p = Ok e) l →
  ∃ es, render_feed_entries w environment copied site l = Ok es.
Proof.
  induction 1 as [|p l [e He] _ [es Hes]]; cbn [render_feed_entries].
  - by eexists.
  - rewrite He, Hes. by eexists.
Qed.

Lemma render_feeds_inv w environment copied self site pages f :
  render_feeds w environment copied self site pages = Ok f →
  render_feed_entries w environment copied site (feed_order pages)
  = Ok (feed_entries f) ∧
  feed_title f = title self ∧
  ∀ pages' es,
    render_feed_entries w environment copied site (feed_order pages')
    = Ok es →
    render_feeds w environment copied self site pages' =
    Ok {| feed_directory := feed_directory f; feed_atom := feed_atom f;
          feed_rss := feed_rss f; feed_title := feed_title f;
          feed_entries := es |}.
Proof.
  unfold render_feeds. cbv zeta. destruct (_ && negb _); [done|].
  intros H. bind_ok H.
  destruct (writable _ _ && writable _ _) eqn:Hw; [|done].
  injection Hb as <-. cbn [feed_directory feed_atom feed_rss feed_title
                           feed_entries]. split_and!; try done.
  intros pages' es Hes.
  destruct (render_feed_entries_published _ _ _ _ _ _ Hes) as [_ Hdates].
  rewrite feed_order_Permutation in Hdates.
  assert (forallb has_date pages' = true) as ->.
  { apply forallb_forall. intros p Hp%list_elem_of_In.
    rewrite Forall_forall in Hdates. by apply Hdates. }
  rewrite andb_false_r. by rewrite Hes.
Qed.

Lemma date_key_inj_on pages p q :
  Forall (λ p, has_date p = true) pages → NoDup (date <$> pages) →
  p ∈ pages → q ∈ pages → date_key p = date_key q → p = q.
Proof.
  intros Hd Hnd (i & Hi)%list_elem_of_lookup (j & Hj)%list_elem_of_lookup Hk.
  rewrite Forall_forall in Hd.
  assert (date p = date q) as Heq.
  { pose proof (Hd p (list_elem_of_lookup_2 _ _ _ Hi)) as Hp.
    pose proof (Hd q (list_elem_of_lookup_2 _ _ _ Hj)) as Hq.
    unfold has_date, date_key in *.
    destruct (date p), (date q); simpl in *; congruence. }
  assert (i = j) as ->; [|congruence].
  eapply (NoDup_lookup _ i j (date p)); [done| |].
  - by rewrite list_lookup_fmap, Hi.
  - by rewrite list_lookup_fmap, Hj, Heq.
Qed.

(** ** The minimum rating *)

Lemma assemble_section_min_rating w sd r st :
  sec_min_rating sd = Some r →
  assemble_section w sd st = Raise (NotImplementedError "oops").
Proof. unfold assemble_section. by intros ->. Qed.

Lemma build_paths_min_rating w environment domain directory g st sd r :
  SectionFile sd ∈ directory → sec_min_rating sd = Some r →
  ∃ e, build_paths w environment domain directory g st = Raise e.
Proof.
  intros Hin Hr. revert g st.
  induction directory as [|p rest IH]; intros g st.
  { by apply elem_of_nil in Hin. }
  cbn [build_paths]. apply elem_of_cons in Hin as [<-|Hin].
  - cbn [build_path]. rewrite (assemble_section_min_rating _ _ _ _ Hr).
    by eexists.
  - destruct (build_path w environment domain p g st) as [[g1 st1]|e]; [|by eexists].
    by apply IH.
Qed.

(** The sections before the one with the filter are built first, and then
    the build ends with the exception of line 763. *)
Lemma build_paths_not_implemented w environment domain before sd after r g st g1 st1 :
  build_paths w environment domain before g st = Ok (g1, st1) →
  sec_min_rating sd = Some r →
  build_paths w environment domain (before ++ SectionFile sd :: after) g st =
  Raise (NotImplementedError "oops").
Proof.
  intros H Hr. revert g st H.
  induction before as [|p before IH]; intros g st; cbn [build_paths app].
  - intros _. cbn [build_path].
    by rewrite (assemble_section_min_rating _ _ _ _ Hr).
  - destruct (build_path w environment domain p g st) as [[g2 st2]|e]; [|done].
    apply IH.
Qed.

(** C9: a site with an auto-section whose minimum rating is set is not
    built: the section raises [NotImplementedError] from whatever state it
    is reached in, and the build ends with an exception, with no page
    rendered. *)
Theorem min_rating_aborts_build w environment domain name users directory st
    sd r :
  SectionFile sd ∈ directory → sec_min_rating sd = Some r →
  (∀ st1, assemble_section w sd st1 = Raise (NotImplementedError "oops")) ∧
  ∃ e, build w environment domain name users directory st = Raise e.
Proof.
  intros Hin Hr. split.
  { intros st1. by eapply assemble_section_min_rating. }
  unfold build.
  edestruct (build_paths_min_rating w environment domain directory)
    as [e ->]; [done..|].
  by exists e.
Qed.

(** ** The claims on the sample site *)

(** C1, where the code departs from it: the blog with a post of 1999
    (time stamp 915148800) and one of 2020 (time stamp 1577836800) lists
    the post of 2020 first, because line 696 orders the file names as
    strings, and links the post of 1999 behind it. *)
Theorem blog_orders_names_not_timestamps :
  915148800 < 1577836800 ∧
  ∃ es st',
    assemble_blog (Sample.store ∅) Sample.garden Sample.fresh = Ok (es, st') ∧
    e_datetime <$> es = [Some 1577836800; Some 915148800] ∧
    e_forward <$> es = [Some "old.html"; None] ∧
    e_backward <$> es = [None; Some "hello.html"].
Proof.
  split; [done|].
  destruct (assemble_blog (Sample.store ∅) Sample.garden Sample.fresh)
    as [[es st']|e] eqn:E; vm_compute in E; [|discriminate].
  injection E as <- <-. eexists _, _. split; [done|]. by vm_compute.
Qed.

(** C2, where the code departs from it: the comment kept under the slug
    [hello] of a post of the blog is not attached to that post, whose key
    is looked up with [.html] appended (lines 703-705), and is reported as
    unused. *)
Theorem blog_comment_is_left_unused :
  ∃ es st',
    assemble_blog (Sample.store ∅) Sample.garden Sample.fresh = Ok (es, st') ∧
    e_slug <$> es = ["hello.html"; "old.html"] ∧
    e_comments <$> es = [[]; []] ∧
    stdout st' = ["Unused comments: hello"].
Proof.
  destruct (assemble_blog (Sample.store ∅) Sample.garden Sample.fresh)
    as [[es st']|e] eqn:E; vm_compute in E; [|discriminate].
  injection E as <- <-. eexists _, _. split; [done|]. by vm_compute.
Qed.

(** The other kind of section looks its comments up under the slug
    without [.html] (line 803), and there the comment is attached. *)
Lemma section_comment_is_attached :
  ∃ es st',
    assemble_section (Sample.store ∅) (Sample.everything None) Sample.fresh
    = Ok (es, st') ∧
    e_slug <$> es = ["2020-01-01.html"; "2020-01-01-2.html"; "2019-12-31.html"] ∧
    e_comments <$> es = [[("reader@example.org", "nice")]; []; []] ∧
    stdout st' = ["allow #a? y/n"; "allow #a/b? y/n"].
Proof.
  destruct (assemble_section _ _ _) as [[es st']|e] eqn:E; vm_compute in E;
    [|discriminate].
  injection E as <- <-. eexists _, _. split; [done|]. by vm_compute.
Qed.

(** C5 as stated fails where a shorter prefix is denied: the image with
    the tags [a] and [a/b], with [a] denied and [a/b] allowed at the
    console, is registered under [a], whose persisted decision is the
    denial. *)
Lemma denied_prefix_is_registered :
  ∃ data st',
    process_image (Sample.store ∅) (inl 1) Sample.fresh = Ok (data, st') ∧
    "a" ∈ ancestors "a/b" ∧
    db_tags st' !! "a" = Some false ∧
    db_tags st' !! "a/b" = Some true ∧
    d_tags data = [["a"; "b"]] ∧
    all_tags st' !! "a" = Some [1].
Proof.
  destruct (process_image _ _ _) as [[data st']|e] eqn:E; vm_compute in E;
    [|discriminate].
  injection E as <- <-. eexists _, _. split; [done|]. split.
  - apply (bool_decide_unpack _). by vm_compute.
  - by vm_compute.
Qed.

Lemma walk_registers_from_first_allowed_witness :
  ∃ tags' st',
    walk 1 (ancestors "a/b/c") [] (initial {["a" := false]} ∅ ["n"; "y"])
    = Ok (tags', st') ∧
    tags' = [["a"; "b"]] ∧ all_tags st' !! "a" = Some [1] ∧
    all_tags st' !! "a/b/c" = None.
Proof.
  destruct (walk 1 (ancestors "a/b/c") []
              (initial {["a" := false]} ∅ ["n"; "y"]))
    as [[tags' st']|e] eqn:E.
  - exists tags', st'. split; [reflexivity|].
    destruct (walk_registers_from_first_allowed _ _ _ _ _ _ E)
      as [(denied & p & _)|(_ & Htags & _)].
    + vm_compute in E. injection E as <- <-. by vm_compute.
    + vm_compute in E. injection E as <- _. discriminate Htags.
  - vm_compute in E. discriminate E.
Defined.


(** The other two cases of C6 on the sample: the EXIF day without an
    override, and the creation day without either. *)
Lemma effective_date_examples :
  (d_date ∘ fst <$> match process_image (Sample.store ∅) (inl 3) Sample.fresh
                    with Ok r => Some r | Raise _ => None end)
  = Some "2019-12-31" ∧
  (d_date ∘ fst <$> match process_image (Sample.store ∅) (inl 2) Sample.fresh
                    with Ok r => Some r | Raise _ => None end)
  = Some "2020-01-01".
Proof. by vm_compute. Qed.

(** With the other reading of the key, the slug of the entry, it is the
    auto-section that leaves the comment unused. *)
Lemma section_comment_under_entry_slug_unused :
  ∃ es st',
    assemble_section (Sample.store ∅) Sample.everything_html Sample.fresh
    = Ok (es, st') ∧
    e_slug <$> es = ["2020-01-01.html"; "2020-01-01-2.html"; "2019-12-31.html"] ∧
    e_comments <$> es = [[]; []; []] ∧
    last (stdout st') = Some "Unused comments: 2020-01-01.html".
Proof.
  destruct (assemble_section _ _ _) as [[es st']|e] eqn:E; vm_compute in E;
    [|discriminate].
  injection E as <- <-. eexists _, _. split; [done|]. by vm_compute.
Qed.

(** The posts of a blog are made in the order of their file names. *)
Lemma blog_loop_stamps w files a st a' st' :
  blog_loop w files a st = Ok (a', st') →
  e_datetime <$> entries a' =
  (e_datetime <$> entries a) ++
  ((λ f, Some (Str.int (Str.stem f.1))) <$>
     filter (λ f, Str.isnumeric (Str.stem f.1) = true) files).
Proof.
  revert a st. induction files as [|[name post] files IH]; intros a st;
    cbn [blog_loop].
  { intros [= <- <-]. by rewrite filter_nil, app_nil_r. }
  rewrite filter_cons. cbn [fst].
  destruct (Str.isnumeric (Str.stem name)) eqn:E.
  - rewrite decide_True by done. intros H. bind_ok H.
    destruct r as [[images tags] st1]. stamp_ok Hb. rewrite (IH _ _ Hb).
    unfold blog_entry. destruct (pop _ (comments a)) as [found rest].
    cbn [entries]. rewrite fmap_app, set_last_forward_fmap by done.
    by rewrite <-app_assoc.
  - rewrite decide_False by done. apply IH.
Qed.

Lemma blog_entries_follow_file_names w b st es st' :
  assemble_blog w b st = Ok (es, st') →
  e_datetime <$> es = (λ f, Some (Str.int (Str.stem f.1))) <$> blog_posts b.
Proof.
  intros H. apply (assemble_inv w (BlogDirectory b)) in H
    as (a & st1 & Hloop & -> & _).
  by apply blog_loop_stamps in Hloop.
Qed.

Lemma min_rating_aborts_build_witness :
  ∃ e,
    build (Sample.store ∅) Sample.jinja "example.org" "Site" true
      [BlogDirectory Sample.garden; SectionFile (Sample.everything (Some 3))]
      Sample.fresh = Raise e.
Proof.
  refine (proj2 (min_rating_aborts_build (Sample.store ∅) Sample.jinja
                   "example.org" "Site" true
                   [BlogDirectory Sample.garden;
                    SectionFile (Sample.everything (Some 3))]
                   Sample.fresh (Sample.everything (Some 3)) 3 _ _)).
  - apply elem_of_cons. right. apply elem_of_cons. by left.
  - reflexivity.
Defined.

(** On the sample the build gets as far as the section and ends with the
    exception of line 763. *)
Lemma min_rating_is_not_implemented :
  build (Sample.store ∅) Sample.jinja "example.org" "Site" true
    [BlogDirectory Sample.garden; SectionFile (Sample.everything (Some 3))]
    Sample.fresh = Raise (NotImplementedError "oops").
Proof. by vm_compute. Qed.

Lemma agrees_empty images : agrees ∅ images.
Proof. intros image d _. by rewrite lookup_empty. Qed.

Lemma one_instant_photos : one_instant Sample.photos.
Proof.
  intros a b Ha Hb. unfold Sample.photos in Ha, Hb.
  repeat (apply elem_of_cons in Ha as [->|Ha]); [..|by apply elem_of_nil in Ha];
    (repeat (apply elem_of_cons in Hb as [->|Hb]);
     [..|by apply elem_of_nil in Hb]).
  all: cbn [img_id img_creation_date Sample.image]; intros;
    first [reflexivity|discriminate].
Qed.

Lemma section_page_dates_are_creation_dates_witness :
  ∃ es st' ps,
    assemble_section (Sample.store {[1 := "2021-05-04"]})
      (Sample.everything None) Sample.fresh = Ok (es, st') ∧
    section_post_pages (Sample.everything None) es = Ok ps ∧
    e_date <$> es = ["2021-05-04"; "2020-01-01"; "2019-12-31"] ∧
    date <$> ps = [Some 1577836800; Some 1577836900; Some 1577923200].
Proof.
  destruct (assemble_section (Sample.store {[1 := "2021-05-04"]})
              (Sample.everything None) Sample.fresh) as [[es st']|e] eqn:E.
  - destruct (section_page_dates_are_creation_dates
                (Sample.store {[1 := "2021-05-04"]}) (Sample.everything None)
                Sample.fresh es st' (agrees_empty _) one_instant_photos E)
      as (ps & Hps & Hdates).
    exists es, st', ps. split; [reflexivity|]. split; [exact Hps|]. split.
    + vm_compute in E. injection E as <- _. by vm_compute.
    + rewrite Hdates. by vm_compute.
  - vm_compute in E. discriminate E.
Defined.

(** * More properties of the code *)

(** ** The prompt *)

Lemma ask_skips tag skipped inp out :
  Forall (λ r, is_answer r = false) skipped →
  ask tag (skipped ++ inp) out = ask tag inp (out ++ asked_again tag skipped).
Proof.
  intros H. revert out. induction H as [|r skipped Hr _ IH]; intros out.
  { unfold asked_again. simpl. by rewrite app_nil_r. }
  cbn [app ask]. unfold is_answer in Hr. apply orb_false_iff in Hr as [-> ->].
  rewrite IH. f_equal. unfold asked_again. cbn [mbind list_bind].
  by rewrite <-!app_assoc.
Qed.

Lemma ask_Ok_inv tag inp out b inp' out' :
  ask tag inp out = Ok (b, inp', out') →
  ∃ skipped,
    inp = skipped ++ (if b then "y" else "n") :: inp' ∧
    Forall (λ r, is_answer r = false) skipped ∧
    out' = out ++ asked_again tag skipped ++ ["allow #" +:+ tag +:+ "? y/n"].
Proof.
  revert out. induction inp as [|r inp IH]; intros out; cbn [ask]; [done|].
  destruct (String.eqb r "y") eqn:Ey.
  { apply String.eqb_eq in Ey as ->. intros [= <- <- <-]. by exists []. }
  destruct (String.eqb r "n") eqn:En.
  { apply String.eqb_eq in En as ->. intros [= <- <- <-]. by exists []. }
  intros (skipped & -> & Hsk & ->)%IH. exists (r :: skipped). split_and!.
  - done.
  - constructor; [|done]. unfold is_answer. by rewrite Ey, En.
  - unfold asked_again. cbn [mbind list_bind]. by rewrite <-!app_assoc.
Qed.

(** X1: the prompt loop takes the first line that is [y] or [n] as the
    answer and asks again after every other line; when no such line is
    left, [input] ends the build with [EOFError]. *)
Theorem ask_takes_first_answer tag inp out :
  match ask tag inp out with
  | Ok (b, inp', out') =>
      ∃ skipped,
        inp = skipped ++ (if b then "y" else "n") :: inp' ∧
        Forall (λ r, is_answer r = false) skipped ∧
        out' = out ++ asked_again tag skipped ++ ["allow #" +:+ tag +:+ "? y/n"]
  | Raise e => e = EOFError ∧ Forall (λ r, is_answer r = false) inp
  end.
Proof.
  destruct (ask tag inp out) as [[[b inp'] out']|e] eqn:E.
  { by apply ask_Ok_inv. }
  revert out E. induction inp as [|r inp IH]; intros out; cbn [ask].
  { by intros [= <-]. }
  destruct (String.eqb r "y") eqn:Ey; [done|].
  destruct (String.eqb r "n") eqn:En; [done|].
  intros [-> ?]%IH. split; [done|]. constructor; [|done].
  unfold is_answer. by rewrite Ey, En.
Qed.

(** ** Decisions that are persisted *)












(** ** What holds of the state all through a build *)

Lemma process_image_db_mono w x st data st' :
  process_image w x st = Ok (data, st') → db_tags st ⊆ db_tags st'.
Proof.
  intros H. destruct (all_images st !! given_id x) as [d|] eqn:Hc.
  - rewrite (process_image_hit _ _ _ _ Hc) in H. by injection H as _ <-.
  - destruct (process_image_miss _ _ _ _ _ Hc H)
      as (image & path & tags & st2 & _ & _ & Hwalk & _).
    revert H. unfold process_image. fold (given_id x). rewrite Hc.
    destruct (match x with inl i => get_image w i | inr image => Some image end)
      as [image'|]; [|done].
    destruct (img_full_path image') as [path'|]; [|done].
    intros H. bind_ok H. destruct r as [tags' st3]. injection Hb as _ <-.
    by destruct (walk_tags_fields _ _ _ _ _ _ Ha) as (_ & _ & ?).
Qed.

Section StateInvariant.
Context (w : world) (P : state → Prop).
Context (Himage : ∀ x st data st',
           P st → process_image w x st = Ok (data, st') → P st').
Context (Hprint : ∀ line st, P st → P (print line st)).

Lemma post_images_state ids images tags st images' tags' st' :
  P st → post_images w ids images tags st = Ok (images', tags', st') → P st'.
Proof.
  revert images tags st. induction ids as [|i ids IH]; intros images tags st HP;
    cbn [post_images].
  { by intros [= _ _ <-]. }
  intros H. bind_ok H. destruct r as [data st1]. eapply IH; [|done].
  by eapply Himage.
Qed.

Lemma blog_loop_state files a st a' st' :
  P st → blog_loop w files a st = Ok (a', st') → P st'.
Proof.
  revert a st. induction files as [|[name post] files IH]; intros a st HP;
    cbn [blog_loop].
  { by intros [= _ <-]. }
  destruct (Str.isnumeric (Str.stem name)); [|by apply IH].
  intros H. bind_ok H. destruct r as [[images tags] st1]. stamp_ok Hb.
  eapply IH; [|done]. by eapply post_images_state.
Qed.

Lemma section_loop_state sd images a st a' st' :
  P st → section_loop w sd images a st = Ok (a', st') → P st'.
Proof.
  revert a st. induction images as [|image images IH]; intros a st HP;
    cbn [section_loop].
  { by intros [= _ <-]. }
  destruct (img_full_path image); [|by apply IH].
  intros H. bind_ok H. destruct r as [data st1].
  eapply IH; [|done]. by eapply Himage.
Qed.

Lemma warn_unused_state table st : P st → P (warn_unused table st).
Proof. destruct table; [done|]. apply Hprint. Qed.

Lemma assemble_state p st es st' :
  P st → assemble w p st = Ok (es, st') → P st'.
Proof.
  intros HP H. apply assemble_inv in H. destruct p as [b|sd|name].
  - destruct H as (a & st1 & Hloop & _ & ->). apply warn_unused_state.
    by eapply blog_loop_state.
  - destruct H as (_ & a & st1 & Hloop & _ & ->). apply warn_unused_state.
    by eapply section_loop_state.
  - by destruct H as [_ ->].
Qed.

Lemma build_path_state environment domain p g st g' st' :
  P st → build_path w environment domain p g st = Ok (g', st') → P st'.
Proof.
  intros HP. destruct p as [b|sd|name]; cbn [build_path].
  - intros H. bind_ok H. destruct r as [es st1]. bind_ok Hb.
    injection Hbb as _ <-. by apply (assemble_state (BlogDirectory b) st es).
  - intros H. bind_ok H. destruct r as [es st1]. bind_ok Hb. bind_ok Hbb.
    injection Hbbb as _ <-. by apply (assemble_state (SectionFile sd) st es).
  - by intros [= _ <-].
Qed.

Lemma build_paths_state environment domain directory g st g' st' :
  P st → build_paths w environment domain directory g st = Ok (g', st') → P st'.
Proof.
  revert g st. induction directory as [|p rest IH]; intros g st HP;
    cbn [build_paths].
  { by intros [= _ <-]. }
  intros H. bind_ok H. destruct r as [g1 st1]. eapply IH; [|done].
  by eapply build_path_state.
Qed.
End StateInvariant.

(** X4: a build never changes or forgets a decision: every decision of
    the table [tags] at the start is in the table when the loop over the
    sections has ended. *)
Theorem build_keeps_decisions w environment domain directory g st g' st' :
  build_paths w environment domain directory g st = Ok (g', st') →
  db_tags st ⊆ db_tags st'.
Proof.
  apply (build_paths_state w (λ s, db_tags st ⊆ db_tags s)); [| |done].
  - intros x s data s' Hs H. etrans; [done|]. by eapply process_image_db_mono.
  - done.
Qed.

(** ** The cache of images *)

Lemma process_image_keyed w x st data st' :
  keyed st → process_image w x st = Ok (data, st') → keyed st'.
Proof.
  intros Hk H. destruct (all_images st !! given_id x) as [d|] eqn:Hc.
  - rewrite (process_image_hit _ _ _ _ Hc) in H. by injection H as _ <-.
  - destruct (process_image_miss _ _ _ _ _ Hc H)
      as (image & path & tags & st2 & _ & _ & _ & Hid & _ & _ & _ & Hcache).
    intros i d. rewrite Hcache.
    destruct (decide (img_id image = i)) as [<-|Hne].
    + rewrite lookup_insert_eq. by intros [= <-].
    + rewrite lookup_insert_ne by done. apply Hk.
Qed.

(** X5: [process_image] is memoised: with a faithful store, a second call
    for the same identifier, by the identifier or by the image, returns
    the record of the first call and leaves the state, and so the copied
    files and the console, as they are. *)
Theorem process_image_memoised w x st data st' y :
  faithful w →
  process_image w x st = Ok (data, st') →
  given_id y = given_id x →
  process_image w y st' = Ok (data, st').
Proof.
  intros Hw H Hy. apply process_image_hit. rewrite Hy.
  destruct (all_images st !! given_id x) as [d|] eqn:Hc.
  - rewrite (process_image_hit _ _ _ _ Hc) in H. by injection H as <- <-.
  - destruct (process_image_miss _ _ _ _ _ Hc H)
      as (image & path & tags & st2 & Hres & _ & _ & _ & _ & _ & _ & ->).
    assert (img_id image = given_id x) as ->.
    { destruct x as [i|image']; simpl in *; [by apply Hw|congruence]. }
    by rewrite lookup_insert_eq.
Qed.

Lemma image_page_relative_inj d1 d2 :
  relative (image_page d1) = relative (image_page d2) → d_id d1 = d_id d2.
Proof.
  cbn [relative image_page]. intros H.
  apply (inj (String.app "images/")) in H. apply app_inv_tail in H.
  by apply (inj pretty).
Qed.

(** X6: the records of the cache stay under their own identifiers all
    through a build, so that no two of the permanent pages of the images
    (lines 877-891) have the same path. *)
Theorem image_pages_have_distinct_paths w environment domain directory g st g' st' :
  keyed st →
  build_paths w environment domain directory g st = Ok (g', st') →
  keyed st' ∧
  NoDup (relative <$> (image_page <$> (map_to_list (all_images st')).*2)).
Proof.
  intros Hk H.
  assert (keyed st') as Hk'.
  { apply (build_paths_state w keyed) in H; [done| |done|done].
    intros x s data s'. apply process_image_keyed. }
  split; [done|].
  rewrite <-!list_fmap_compose.
  apply NoDup_fmap_2_strong; [|apply NoDup_map_to_list].
  intros [i1 d1] [i2 d2] H1%elem_of_map_to_list H2%elem_of_map_to_list Heq.
  simpl in Heq. apply image_page_relative_inj in Heq.
  rewrite (Hk' _ _ H1), (Hk' _ _ H2) in Heq. subst i2.
  f_equal. congruence.
Qed.

(** ** The tag index *)

Lemma register_sluggish image_id st tag :
  sluggish st → sluggish (register image_id st tag).
Proof.
  intros Hs t ids. unfold register.
  destruct (all_tags st !! tag) as [old|] eqn:E; cbn [all_tags tag_paths].
  - destruct (decide (tag = t)) as [<-|Hne].
    + intros _. by eapply Hs.
    + rewrite lookup_insert_ne by done. apply Hs.
  - destruct (decide (tag = t)) as [<-|Hne].
    + intros _. by rewrite lookup_insert_eq.
    + rewrite !lookup_insert_ne by done. apply Hs.
Qed.

Lemma register_cached_but image_id st tag :
  cached_but image_id st → cached_but image_id (register image_id st tag).
Proof.
  intros Hc t ids i.
  destruct (register_fields image_id st tag) as (_ & -> & _).
  rewrite register_all_tags. destruct (decide (t = tag)) as [->|Hne].
  - intros [= <-] [Hi|Hi]%elem_of_app;
      [|apply list_elem_of_singleton in Hi as ->; by left].
    destruct (all_tags st !! tag) as [old|] eqn:E; simpl in Hi.
    + by eapply Hc.
    + by apply elem_of_nil in Hi.
  - apply Hc.
Qed.

Lemma register_fold_index image_id l st :
  sluggish st → cached_but image_id st →
  sluggish (foldl (register image_id) st l) ∧
  cached_but image_id (foldl (register image_id) st l).
Proof.
  revert st. induction l as [|tag l IH]; intros st Hs Hc; [done|].
  cbn [foldl]. apply IH; [by apply register_sluggish|by apply register_cached_but].
Qed.

Lemma walk_index image_id l tags st tags' st' :
  sluggish st → cached_but image_id st →
  walk image_id l tags st = Ok (tags', st') →
  sluggish st' ∧ cached_but image_id st'.
Proof.
  revert st. induction l as [|tag rest IH]; intros st Hs Hc; cbn [walk].
  { by intros [= _ <-]. }
  intros H. bind_ok H. destruct r as [b st1].
  destruct (tag_allowed_inv _ _ _ _ Ha) as (_ & _ & Htags & Hpaths & Himages & _).
  assert (sluggish st1 ∧ cached_but image_id st1) as [Hs1 Hc1].
  { split.
    - intros t ids. rewrite Htags, Hpaths. apply Hs.
    - intros t ids i. rewrite Htags, Himages. apply Hc. }
  destruct b.
  - injection Hb as _ <-. by apply (register_fold_index image_id (tag :: rest)).
  - by eapply IH.
Qed.

Lemma walk_tags_index image_id raw tags st tags' st' :
  sluggish st → cached_but image_id st →
  walk_tags image_id raw tags st = Ok (tags', st') →
  sluggish st' ∧ cached_but image_id st'.
Proof.
  revert tags st. induction raw as [|tag raw IH]; intros tags st Hs Hc;
    cbn [walk_tags].
  { by intros [= _ <-]. }
  intros H. bind_ok H. destruct r as [tags1 st1].
  destruct (walk_index _ _ _ _ _ _ Hs Hc Ha) as [Hs1 Hc1]. by eapply IH.
Qed.

Lemma process_image_indexed w x st data st' :
  faithful w → indexed st → process_image w x st = Ok (data, st') →
  indexed st'.
Proof.
  intros Hw [Hs Hc] H. destruct (all_images st !! given_id x) as [d|] eqn:Hhit.
  { rewrite (process_image_hit _ _ _ _ Hhit) in H. by injection H as _ <-. }
  destruct (process_image_miss _ _ _ _ _ Hhit H)
    as (image & path & tags & st2 & Hres & Hpath & Hwalk & _ & _ & _ & _
        & Hcache).
  assert (img_id image = given_id x) as Hid.
  { destruct x as [i|image']; simpl in *; [by apply Hw|congruence]. }
  edestruct (walk_tags_index (given_id x)) as [Hs2 Hc2]; [| |exact Hwalk|].
  { exact Hs. }
  { intros t ids i Ht Hi. right. exact (Hc t ids i Ht Hi). }
  assert (all_tags st' = all_tags st2 ∧ tag_paths st' = tag_paths st2)
    as [Htags Hpaths].
  { revert H. unfold process_image. fold (given_id x). fold (resolve w x).
    rewrite Hhit, Hres, Hpath, Hwalk. cbn [bind]. by intros [= _ <-]. }
  destruct (walk_tags_fields _ _ _ _ _ _ Hwalk) as (Himages & _).
  split.
  - intros t ids. rewrite Htags, Hpaths. apply Hs2.
  - intros t ids i. rewrite Htags, Hcache, Hid. intros Ht Hi.
    destruct (Hc2 t ids i Ht Hi) as [->|Hsome].
    + by rewrite lookup_insert_eq.
    + apply lookup_insert_is_Some'. right. rewrite Himages in Hsome.
      exact Hsome.
Qed.

Lemma tagged_images_cached cache ids :
  (∀ i, i ∈ ids → is_Some (cache !! i)) →
  ∃ infos, tagged_images cache ids = Ok infos.
Proof.
  induction ids as [|i ids IH]; intros Hc; cbn [tagged_images].
  { by eexists. }
  destruct (Hc i) as [info ->]; [by left|].
  destruct IH as [infos ->]; [|by eexists].
  intros j ?. apply Hc. by right.
Qed.

Lemma tag_pages_indexed st l :
  indexed st →
  (∀ tag ids, (tag, ids) ∈ l → all_tags st !! tag = Some ids) →
  ∃ ps, tag_pages st l = Ok ps ∧
        title <$> ps = l.*1 ∧
        relative <$> ps = (λ t, "tags/" +:+ tag_slug t +:+ ".html") <$> l.*1.
Proof.
  intros [Hs Hc]. induction l as [|[tag ids] l IH]; intros Hl; cbn [tag_pages].
  { by eexists. }
  assert (all_tags st !! tag = Some ids) as Htag by (apply Hl; by left).
  destruct (tagged_images_cached (all_images st) ids) as [infos ->].
  { intros i ?. by eapply Hc. }
  cbn [bind]. rewrite (Hs _ _ Htag).
  destruct IH as (ps & -> & Ht & Hr).
  { intros t i ?. apply Hl. by right. }
  cbn [bind]. eexists. split; [done|]. rewrite !fmap_cons, Ht, Hr. done.
Qed.

(** X7: with a faithful store, the pages of the tags are always built
    (lines 836-857 raise no [KeyError]): after the loop over the sections
    every tag of the index has its slug in [tag_paths] and every image of
    the index is in the cache, and a tag's page is [tags/], its slug and
    [.html]. *)
Theorem tag_pages_are_built w environment domain directory g st g' st' :
  faithful w → indexed st →
  build_paths w environment domain directory g st = Ok (g', st') →
  ∃ ps, tag_pages st' (map_to_list (all_tags st')) = Ok ps ∧
        title <$> ps = (map_to_list (all_tags st')).*1 ∧
        relative <$> ps =
        (λ t, "tags/" +:+ tag_slug t +:+ ".html")
          <$> (map_to_list (all_tags st')).*1.
Proof.
  intros Hw Hi H. apply tag_pages_indexed.
  - apply (build_paths_state w indexed) in H; [done| | |done].
    + intros x s data s'. by apply process_image_indexed.
    + done.
  - intros tag ids. apply elem_of_map_to_list.
Qed.

Lemma indexed_initial decisions copied typed :
  indexed (initial decisions copied typed).
Proof. split; intros tag ids; cbn; by rewrite lookup_empty. Qed.

(** ** The tags of an image *)

Lemma join_cons sep c x xs :
  Str.join sep (String c x :: xs) = String c (Str.join sep (x :: xs)).
Proof. by destruct xs. Qed.

(** Joining the segments of a path gives the path back. *)
Lemma join_split s : Str.join "/" (Str.split Str.slash s) = s.
Proof.
  induction s as [|c r IH]; [done|]. cbn [Str.split].
  destruct (Str.eqb_ascii c Str.slash) eqn:E.
  - apply bool_decide_eq_true in E as ->.
    destruct (Str.split Str.slash r) as [|x xs] eqn:Hr.
    + by destruct r; simpl in Hr; repeat case_match.
    + change (Str.join "/" ("" :: x :: xs))
        with ("" +:+ "/" +:+ Str.join "/" (x :: xs)).
      by rewrite IH.
  - destruct (Str.split Str.slash r) as [|x xs] eqn:Hr.
    + by destruct r; simpl in Hr; repeat case_match.
    + by rewrite join_cons, IH.
Qed.

Lemma walk_listed image_id tag tags st tags' st' i p :
  walk image_id (ancestors tag) tags st = Ok (tags', st') →
  listed i p st → listed i p st'.
Proof.
  intros H (ids & Hp & Hi).
  destruct (walk_inv _ _ _ _ _ _ (ancestors_NoDup tag) H) as
    [(denied & q & rest & _ & _ & _ & _ & _ & Hreg)|(_ & _ & _ & Hall)].
  - unfold listed. rewrite Hreg.
    destruct (decide (p ∈ q :: rest)).
    + eexists. split; [done|]. rewrite Hp. apply elem_of_app. by left.
    + by exists ids.
  - exists ids. by rewrite Hall.
Qed.

Lemma walk_tags_listed image_id raw tags st tags' st' i p :
  walk_tags image_id raw tags st = Ok (tags', st') →
  listed i p st → listed i p st'.
Proof.
  revert tags st. induction raw as [|tag raw IH]; intros tags st;
    cbn [walk_tags].
  { by intros [= _ <-]. }
  intros H Hl. bind_ok H. destruct r as [tags1 st1].
  eapply IH; [done|]. by eapply walk_listed.
Qed.

Lemma walk_tags_attached image_id raw tags st tags' st' :
  walk_tags image_id raw tags st = Ok (tags', st') →
  ∃ news,
    tags' = tags ++ news ∧ (length news ≤ length raw)%nat ∧
    ∀ t, t ∈ news →
      ∃ tag p, tag ∈ raw ∧ p ∈ ancestors tag ∧
               t = Str.split Str.slash p ∧
               db_tags st' !! p = Some true ∧ listed image_id p st'.
Proof.
  revert tags st. induction raw as [|tag raw IH]; intros tags st;
    cbn [walk_tags].
  { intros [= <- <-]. exists []. rewrite app_nil_r. split_and!; [done..|].
    by intros t ?%elem_of_nil. }
  intros H. bind_ok H. destruct r as [tags1 st1].
  destruct (IH _ _ Hb) as (news & -> & Hlen & Hnews).
  destruct (walk_tags_fields _ _ _ _ _ _ Hb) as (_ & _ & Hmono).
  destruct (walk_inv _ _ _ _ _ _ (ancestors_NoDup tag) Ha) as
    [(denied & p & rest & Hl & _ & Hp & _ & -> & Hreg)|(_ & _ & -> & _)].
  - exists (Str.split Str.slash p :: news). split_and!.
    + by rewrite <-app_assoc.
    + simpl. lia.
    + intros t [->|Ht]%elem_of_cons.
      * exists tag, p. split_and!; [by left| |done| |].
        -- rewrite Hl. apply elem_of_app. right. by left.
        -- by eapply lookup_weaken.
        -- eapply walk_tags_listed; [done|]. eexists. rewrite Hreg.
           rewrite decide_True by left. split; [done|].
           apply elem_of_app. right. by left.
      * destruct (Hnews t Ht) as (tag' & q & ? & ?). exists tag', q.
        split; [by right|done].
  - exists news. split_and!; [done|simpl; lia|].
    intros t Ht. destruct (Hnews t Ht) as (tag' & q & ? & ?). exists tag', q.
    split; [by right|done].
Qed.

(** X8: every tag that [process_image] attaches to an image is an allowed
    prefix of one of its raw tags: its decision in the table is [True],
    the index lists the image under it, and its segments joined with
    slashes are the prefix again; and an image has at most as many tags as
    raw tags.  No denied path is ever attached. *)
Theorem attached_tags_are_allowed w x st data st' :
  all_images st !! given_id x = None →
  process_image w x st = Ok (data, st') →
  ∃ image,
    resolve w x = Some image ∧
    (length (d_tags data) ≤ length (img_tags image))%nat ∧
    ∀ t, t ∈ d_tags data →
      ∃ tag p, tag ∈ img_tags image ∧ p ∈ ancestors tag ∧
               t = Str.split Str.slash p ∧ Str.join "/" t = p ∧
               db_tags st' !! p = Some true ∧ listed (given_id x) p st'.
Proof.
  intros Hmiss H.
  destruct (process_image_miss _ _ _ _ _ Hmiss H)
    as (image & path & tags & st2 & Hres & Hpath & Hwalk & _ & _ & Htags & _ & _).
  assert (db_tags st' = db_tags st2 ∧ all_tags st' = all_tags st2) as [Hdb Hall].
  { revert H. unfold process_image. fold (given_id x). fold (resolve w x).
    rewrite Hmiss, Hres, Hpath, Hwalk. cbn [bind]. by intros [= _ <-]. }
  destruct (walk_tags_attached _ _ _ _ _ _ Hwalk) as (news & Hnews & Hlen & Hatt).
  exists image. rewrite Htags, Hnews. split_and!; [done..|].
  intros t Ht. destruct (Hatt t Ht) as (tag & p & ? & ? & -> & ? & Hlisted).
  exists tag, p. split_and!; try done.
  - apply join_split.
  - by rewrite Hdb.
  - unfold listed. by rewrite Hall.
Qed.

(** ** The further properties on the sample site *)

Lemma faithful_sample overrides : faithful (Sample.store overrides).
Proof.
  intros i image. cbn [get_image Sample.store].
  destruct (list_find (λ im, img_id im = i) Sample.photos) as [[n im]|] eqn:E;
    [|done].
  intros [= <-]. by apply list_find_Some in E as (_ & ? & _).
Qed.




Lemma build_keeps_decisions_witness :
  ∃ g' st',
    build_paths (Sample.store ∅) Sample.jinja "example.org"
      [BlogDirectory Sample.garden; SectionFile (Sample.everything None)]
      {| pages := []; all_blog_pages := []; feeds := []; sections := [] |}
      (initial {["z" := true]} ∅ ["n"; "y"]) = Ok (g', st') ∧
    db_tags st' !! "z" = Some true.
Proof.
  destruct (build_paths (Sample.store ∅) Sample.jinja "example.org"
      [BlogDirectory Sample.garden; SectionFile (Sample.everything None)]
      {| pages := []; all_blog_pages := []; feeds := []; sections := [] |}
      (initial {["z" := true]} ∅ ["n"; "y"])) as [[g' st']|e] eqn:E.
  - exists g', st'. split; [reflexivity|].
    eapply lookup_weaken; [|exact (build_keeps_decisions _ _ _ _ _ _ _ _ E)].
    reflexivity.
  - vm_compute in E. discriminate E.
Defined.

Lemma process_image_memoised_witness :
  ∃ data st',
    process_image (Sample.store ∅) (inl 2) Sample.fresh = Ok (data, st') ∧
    process_image (Sample.store ∅)
      (inr (Sample.image 2 1577836900 None [])) st' = Ok (data, st').
Proof.
  destruct (process_image (Sample.store ∅) (inl 2) Sample.fresh)
    as [[data st']|e] eqn:E.
  - exists data, st'. split; [reflexivity|].
    exact (process_image_memoised _ _ _ _ _
             (inr (Sample.image 2 1577836900 None []))
             (faithful_sample ∅) E eq_refl).
  - vm_compute in E. discriminate E.
Defined.

Lemma keyed_initial decisions copied typed :
  keyed (initial decisions copied typed).
Proof. intros i d. cbn. by rewrite lookup_empty. Qed.

Lemma image_pages_have_distinct_paths_witness :
  ∃ g' st',
    build_paths (Sample.store ∅) Sample.jinja "example.org"
      [BlogDirectory Sample.garden; SectionFile (Sample.everything None)]
      {| pages := []; all_blog_pages := []; feeds := []; sections := [] |}
      Sample.fresh = Ok (g', st') ∧
    NoDup (relative <$> (image_page <$> (map_to_list (all_images st')).*2)).
Proof.
  destruct (build_paths (Sample.store ∅) Sample.jinja "example.org"
      [BlogDirectory Sample.garden; SectionFile (Sample.everything None)]
      {| pages := []; all_blog_pages := []; feeds := []; sections := [] |}
      Sample.fresh) as [[g' st']|e] eqn:E.
  - exists g', st'. split; [reflexivity|].
    exact (proj2 (image_pages_have_distinct_paths _ _ _ _ _ _ _ _
                    (keyed_initial _ _ _) E)).
  - vm_compute in E. discriminate E.
Defined.

Lemma tag_pages_are_built_witness :
  ∃ g' st' ps,
    build_paths (Sample.store ∅) Sample.jinja "example.org"
      [BlogDirectory Sample.garden; SectionFile (Sample.everything None)]
      {| pages := []; all_blog_pages := []; feeds := []; sections := [] |}
      Sample.fresh = Ok (g', st') ∧
    tag_pages st' (map_to_list (all_tags st')) = Ok ps.
Proof.
  destruct (build_paths (Sample.store ∅) Sample.jinja "example.org"
      [BlogDirectory Sample.garden; SectionFile (Sample.everything None)]
      {| pages := []; all_blog_pages := []; feeds := []; sections := [] |}
      Sample.fresh) as [[g' st']|e] eqn:E.
  - destruct (tag_pages_are_built _ _ _ _ _ _ _ _ (faithful_sample ∅)
                (indexed_initial _ _ _) E) as (ps & Hps & _).
    exists g', st', ps. split; [reflexivity|exact Hps].
  - vm_compute in E. discriminate E.
Defined.

Lemma attached_tags_are_allowed_witness :
  ∃ data st',
    process_image (Sample.store ∅) (inl 1) Sample.fresh = Ok (data, st') ∧
    d_tags data = [["a"; "b"]] ∧ db_tags st' !! "a/b" = Some true.
Proof.
  destruct (process_image (Sample.store ∅) (inl 1) Sample.fresh)
    as [[data st']|e] eqn:E.
  - destruct (attached_tags_are_allowed (Sample.store ∅) (inl 1) Sample.fresh
                data st' eq_refl E)
      as (image & _ & _ & _).
    exists data, st'. split; [reflexivity|].
    vm_compute in E. injection E as <- <-. by vm_compute.
  - vm_compute in E. discriminate E.
Defined.

(** ** Comments *)

Lemma pop_find key table :
  (pop key table).1 = default [] (find key table).
Proof.
  induction table as [|[k v] table IH]; [done|]. cbn [pop find].
  destruct (String.eqb k key); [done|].
  by destruct (pop key table).
Qed.

Lemma pop_find_ne key key' table :
  key' ≠ key → find key' (pop key table).2 = find key' table.
Proof.
  intros Hne. induction table as [|[k v] table IH]; [done|]. cbn [pop find].
  destruct (String.eqb k key) eqn:E.
  - apply String.eqb_eq in E as ->. simpl.
    destruct (String.eqb key key') eqn:E'; [|done].
    apply String.eqb_eq in E'. congruence.
  - destruct (pop key table) as [found rest]. simpl in *. by rewrite IH.
Qed.

Lemma pop_conserves key table :
  sublist (pop key table).2 table ∧
  (pop key table).1 ++ table_comments (pop key table).2
  ≡ₚ table_comments table.
Proof.
  induction table as [|[k v] table [IH1 IH2]]; [done|]. cbn [pop].
  destruct (String.eqb k key).
  - split; [by apply sublist_cons|done].
  - destruct (pop key table) as [found rest]. simpl in *. split.
    + by apply sublist_skip.
    + unfold table_comments in *. simpl.
      rewrite <-IH2. by rewrite !app_assoc, (Permutation_app_comm found v).
Qed.

Lemma entry_comments_snoc slug es e :
  entry_comments (set_last_forward slug es ++ [e])
  = entry_comments es ++ e_comments e.
Proof.
  unfold entry_comments.
  rewrite fmap_app, set_last_forward_fmap by done.
  rewrite concat_app. simpl. by rewrite app_nil_r.
Qed.

Lemma conserved_append all a e found rest d :
  conserved all a → pop (e_slug e) (comments a) = (found, rest) ∨
                    (∃ k, pop k (comments a) = (found, rest)) →
  e_comments e = found →
  conserved all
    {| entries := set_last_forward (e_slug e) (entries a) ++ [e];
       previous := Some (e_slug e); comments := rest; dates := d |}.
Proof.
  intros [Hsub Hperm] Hpop Hfound.
  assert (∃ k, pop k (comments a) = (found, rest)) as [k Hk].
  { destruct Hpop as [?|?]; eauto. }
  destruct (pop_conserves k (comments a)) as [Hs Hp]. rewrite Hk in Hs, Hp.
  simpl in Hs, Hp. split; cbn [entries comments].
  - by etrans.
  - rewrite entry_comments_snoc, Hfound, <-Hperm, <-Hp. by rewrite app_assoc.
Qed.

Lemma blog_entry_conserved all w name post images tags a :
  conserved all a → conserved all (blog_entry w name post images tags a).
Proof.
  intros Ha. unfold blog_entry.
  destruct (pop (m_slug post +:+ ".html") (comments a)) as [found rest] eqn:E.
  apply (conserved_append all a (Build_entry _ _ _ _ _ _ _ _ _ _) found rest);
    [done| |done].
  right. by eexists.
Qed.

Lemma section_entry_conserved all sd data a :
  conserved all a → conserved all (section_entry sd data a).
Proof.
  intros Ha. unfold section_entry.
  destruct (pop _ (comments a)) as [found rest] eqn:E.
  apply (conserved_append all a (Build_entry _ _ _ _ _ _ _ _ _ _) found rest);
    [done| |done].
  right. by eexists.
Qed.

Lemma conserved_start all : conserved all (start all).
Proof. split; [done|]. by unfold entry_comments. Qed.

(** X9: no comment of a section is lost or made twice: when the section
    is assembled, the comments on its entries together with those of the
    keys that are left, which are the ones the warning names, are the
    comments the section had. *)
Theorem comments_are_conserved w p st es st' :
  assemble w p st = Ok (es, st') →
  ∃ unused st1,
    st' = warn_unused unused st1 ∧
    sublist unused (path_comments p) ∧
    entry_comments es ++ table_comments unused
    ≡ₚ table_comments (path_comments p).
Proof.
  intros H. apply assemble_inv in H. destruct p as [b|sd|name].
  - destruct H as (a & st1 & Hloop & -> & ->).
    assert (conserved (blog_comments b) a) as [? ?].
    { eapply (blog_loop_invariant (conserved (blog_comments b)));
        eauto using blog_entry_conserved, conserved_start. }
    by exists (comments a), st1.
  - destruct H as (_ & a & st1 & Hloop & -> & ->).
    assert (conserved (sec_comments sd) a) as [? ?].
    { eapply (section_loop_invariant (conserved (sec_comments sd)));
        eauto using section_entry_conserved, conserved_start. }
    by exists (comments a), st1.
  - destruct H as [-> ->]. by exists [], st.
Qed.

Lemma keyed_comments_append key all a e d :
  keyed_comments key all a →
  (∀ slug x, key (set_forward slug x) = key x) →
  e_comments e = (pop (key e) (comments a)).1 →
  keyed_comments key all
    {| entries := set_last_forward (e_slug e) (entries a) ++ [e];
       previous := Some (e_slug e);
       comments := (pop (key e) (comments a)).2; dates := d |}.
Proof.
  intros [Hfind Hatt] Hkey He. unfold keyed_comments. cbn [entries comments].
  assert (key <$> set_last_forward (e_slug e) (entries a) ++ [e]
          = (key <$> entries a) ++ [key e]) as Hkeys.
  { by rewrite fmap_app, set_last_forward_fmap. }
  rewrite Hkeys. split.
  - intros k Hk. rewrite pop_find_ne.
    + apply Hfind. intros ?. apply Hk. apply elem_of_app. by left.
    + intros ->. apply Hk. apply elem_of_app. right. by left.
  - intros Hnd x Hx. apply NoDup_app in Hnd as (Hnd & Hdisj & _).
    assert ((key x, e_comments x)
            ∈ ((λ y, (key y, e_comments y)) <$> entries a)
              ++ [(key e, e_comments e)]) as Hx'.
    { rewrite <-(set_last_forward_fmap (λ y, (key y, e_comments y))
                  (e_slug e) (entries a)) by (intros; by rewrite Hkey).
      change [(key e, e_comments e)]
        with ((λ y, (key y, e_comments y)) <$> [e]).
      rewrite <-fmap_app. by apply (list_elem_of_fmap_2 (λ y, (key y, e_comments y))). }
    apply elem_of_app in Hx' as [(y & [= Hk Hc] & Hy)%list_elem_of_fmap|Hx'].
    + rewrite Hk, Hc. by apply Hatt.
    + apply list_elem_of_singleton in Hx' as [= Hk Hc].
      rewrite Hk, Hc, He, pop_find. f_equal. apply Hfind.
      intros Hin. by apply (Hdisj (key e)); [|left].
Qed.

Lemma rsplit1_html x :
  Str.rsplit1 Str.dot (x +:+ ".html") = Some (x, "html").
Proof.
  induction x as [|c x IH]; [done|].
  change (String c x +:+ ".html") with (String c (x +:+ ".html")).
  cbn [Str.rsplit1]. by rewrite IH.
Qed.

Lemma blog_entry_keyed all w name post images tags a :
  keyed_comments e_slug all a →
  keyed_comments e_slug all (blog_entry w name post images tags a).
Proof.
  intros Ha. unfold blog_entry.
  pose proof (keyed_comments_append e_slug all a
    {| e_slug := m_slug post +:+ ".html"; e_title := m_title post;
       e_description := m_description post;
       e_date := strftime_ymd w (Str.int (Str.stem name));
       e_datetime := Some (Str.int (Str.stem name)); e_images := images;
       e_tags := tags; e_backward := previous a; e_forward := None;
       e_comments := (pop (m_slug post +:+ ".html") (comments a)).1 |}
    (dates a) Ha) as H. cbn [e_slug e_comments] in H.
  destruct (pop (m_slug post +:+ ".html") (comments a)) as [found rest].
  by apply H.
Qed.

Lemma section_entry_keyed all sd data a :
  keyed_comments (λ e, Str.rsplit_head Str.dot (e_slug e)) all a →
  keyed_comments (λ e, Str.rsplit_head Str.dot (e_slug e)) all
    (section_entry sd data a).
Proof.
  intros Ha. unfold section_entry.
  set (slug := if bool_decide (d_date data ∈ dates a)
               then numbered_slug (d_date data) (d_id data)
               else dated_slug (d_date data)).
  pose proof (keyed_comments_append
    (λ e, Str.rsplit_head Str.dot (e_slug e)) all a
    {| e_slug := slug; e_title := title_or (d_title data) (sec_title sd);
       e_description := None; e_date := d_date data; e_datetime := None;
       e_images := [data]; e_tags := d_tags data;
       e_backward := previous a; e_forward := None;
       e_comments := (pop (Str.rsplit_head Str.dot slug) (comments a)).1 |}
    (if bool_decide (d_date data ∈ dates a) then dates a
     else {[d_date data]} ∪ dates a) Ha) as H.
  cbn [e_slug e_comments] in H.
  destruct (pop (Str.rsplit_head Str.dot slug) (comments a)) as [found rest].
  by apply H.
Qed.

Lemma keyed_comments_start key all : keyed_comments key all (start all).
Proof. split; [done|]. by intros _ e ?%elem_of_nil. Qed.

Lemma append_assoc s t u : s +:+ t +:+ u = (s +:+ t) +:+ u.
Proof.
  induction s as [|c s IH]; [done|].
  change (String c (s +:+ t +:+ u) = String c ((s +:+ t) +:+ u)).
  by rewrite IH.
Qed.

Lemma numbered_slug_html d i :
  numbered_slug d i = (d +:+ "-" +:+ Str.of_Z i) +:+ ".html".
Proof. unfold numbered_slug. by rewrite !append_assoc. Qed.

Lemma slugged_html a e :
  slugged a → e ∈ entries a →
  e_slug e = Str.rsplit_head Str.dot (e_slug e) +:+ ".html".
Proof.
  intros (Hsh & _) He. rewrite Forall_forall in Hsh.
  destruct (Hsh (shape e)) as (_ & d & _ & Hslug);
    [by apply list_elem_of_fmap_2|].
  simpl in Hslug. unfold Str.rsplit_head.
  destruct Hslug as [->| ->].
  - unfold dated_slug. by rewrite rsplit1_html.
  - rewrite numbered_slug_html. by rewrite rsplit1_html.
Qed.

(** X10: as long as no two entries of a section have the same key, the
    comments of an entry are those the section's table has under the
    entry's key, and none when it has no such key; the key of a blog entry
    is its slug, [.html] included, and the key of an entry of an
    auto-section is its slug without [.html]. *)
Theorem comments_are_attached_by_key w p st es st' :
  assemble w p st = Ok (es, st') →
  NoDup (comment_key p <$> es) →
  (∀ e, e ∈ es →
        e_comments e = default [] (find (comment_key p e) (path_comments p))) ∧
  (∀ sd e, p = SectionFile sd → e ∈ es →
           e_slug e = comment_key p e +:+ ".html").
Proof.
  intros H Hnd. apply assemble_inv in H. destruct p as [b|sd|name].
  - destruct H as (a & st1 & Hloop & -> & _). split; [|done].
    assert (keyed_comments e_slug (blog_comments b) a) as [_ Hatt].
    { eapply (blog_loop_invariant (keyed_comments e_slug (blog_comments b)));
        eauto using blog_entry_keyed, keyed_comments_start. }
    by apply Hatt.
  - destruct H as (_ & a & st1 & Hloop & -> & _). split.
    + assert (keyed_comments (λ e, Str.rsplit_head Str.dot (e_slug e))
                (sec_comments sd) a) as [_ Hatt].
      { eapply (section_loop_invariant
                  (keyed_comments (λ e, Str.rsplit_head Str.dot (e_slug e))
                     (sec_comments sd)));
          eauto using section_entry_keyed, keyed_comments_start. }
      by apply Hatt.
    + intros sd' e _ He. simpl. apply (slugged_html a); [|done].
      eapply (section_loop_invariant slugged);
        eauto using section_entry_slugged, slugged_start.
  - destruct H as [-> _]. split; by intros; exfalso; eapply elem_of_nil.
Qed.

Lemma comments_are_conserved_witness :
  ∃ es st',
    assemble (Sample.store ∅) (BlogDirectory Sample.garden) Sample.fresh
    = Ok (es, st') ∧
    ∃ unused, entry_comments es ++ table_comments unused
              ≡ₚ [("reader@example.org", "nice")].
Proof.
  destruct (assemble (Sample.store ∅) (BlogDirectory Sample.garden)
              Sample.fresh) as [[es st']|e] eqn:E.
  - exists es, st'. split; [reflexivity|].
    destruct (comments_are_conserved _ _ _ _ _ E)
      as (unused & st1 & _ & _ & Hperm).
    exists unused. exact Hperm.
  - vm_compute in E. discriminate E.
Defined.

Lemma comments_are_attached_by_key_witness :
  ∃ es st',
    assemble (Sample.store ∅) (SectionFile (Sample.everything None))
      Sample.fresh = Ok (es, st') ∧
    ∀ e, e ∈ es →
      e_comments e =
      default [] (find (comment_key (SectionFile (Sample.everything None)) e)
                    (sec_comments (Sample.everything None))).
Proof.
  destruct (assemble (Sample.store ∅) (SectionFile (Sample.everything None))
              Sample.fresh) as [[es st']|e] eqn:E.
  - exists es, st'. split; [reflexivity|].
    refine (proj1 (comments_are_attached_by_key _ _ _ _ _ E _)).
    vm_compute in E. injection E as <- _.
    apply (bool_decide_unpack _). by vm_compute.
  - vm_compute in E. discriminate E.
Defined.

(** ** More on the feeds *)

Lemma render_feed_entry_fields w environment copied site p e :
  render_feed_entry w environment copied site p = Ok e →
  fe_id e = post_url site p ∧ fe_title e = title p ∧
  fe_published e = date_key p.
Proof.
  unfold render_feed_entry, date_key. destruct (date p) as [t|]; [|done].
  intros H. bind_ok H. rename r into content.
  destruct (page_images p) as [[|first images]|]; try done.
  case_bool_decide; [|done]. bind_ok Hb. by injection Hbb as <-.
Qed.

(** X11: a feed has exactly one entry for every post it is given, with
    the post's address, title and date: no post is left out and none
    comes twice. *)
Theorem feed_has_one_entry_per_post w environment copied self site pages f :
  render_feeds w environment copied self site pages = Ok f →
  (λ e, (fe_id e, fe_title e, fe_published e)) <$> feed_entries f
  ≡ₚ (λ p, (post_url site p, title p, date_key p)) <$> pages.
Proof.
  intros H. destruct (render_feeds_inv _ _ _ _ _ _ _ H) as (Hes & _).
  etrans; [|apply fmap_Permutation, feed_order_Permutation].
  apply render_feed_entries_Ok in Hes.
  assert ((λ e, (fe_id e, fe_title e, fe_published e)) <$> feed_entries f
          = (λ p, (post_url site p, title p, date_key p)) <$> feed_order pages)
    as ->; [|done].
  induction Hes as [|p e l es Hp _ IH]; [done|].
  destruct (render_feed_entry_fields _ _ _ _ _ _ Hp) as (Hid & Ht & Hpub).
  by rewrite !fmap_cons, IH, Hid, Ht, Hpub.
Qed.

Lemma feed_order_stable pages t :
  filter (λ p, date_key p = t) (feed_order pages)
  = filter (λ p, date_key p = t) pages.
Proof. apply sorted_stable. intros a. apply Z.ltb_irrefl. Qed.

(** X12: the sort of the feeds is stable: the posts of one date are
    emitted in the order in which they were given. *)
Theorem feed_keeps_order_of_equal_dates w environment copied self site pages
    f t :
  render_feeds w environment copied self site pages = Ok f →
  fe_id <$> filter (λ e, fe_published e = t) (feed_entries f)
  = post_url site <$> filter (λ p, date_key p = t) pages.
Proof.
  intros H. destruct (render_feeds_inv _ _ _ _ _ _ _ H) as (Hes & _).
  rewrite <-feed_order_stable. apply render_feed_entries_Ok in Hes.
  induction Hes as [|p e l es Hp _ IH]; [done|].
  destruct (render_feed_entry_fields _ _ _ _ _ _ Hp) as (Hid & _ & Hpub).
  rewrite !filter_cons, Hpub.
  destruct (decide (date_key p = t)); [|done].
  by rewrite !fmap_cons, IH, Hid.
Qed.

Lemma feed_has_one_entry_per_post_witness :
  ∃ f,
    render_feeds (Sample.store ∅) Sample.jinja Sample.copies Sample.front
      "example.org"
      [Sample.snapshot "first" 1; Sample.snapshot "second" 2] = Ok f ∧
    length (feed_entries f) = 2%nat.
Proof.
  destruct (render_feeds (Sample.store ∅) Sample.jinja Sample.copies Sample.front
      "example.org"
              [Sample.snapshot "first" 1; Sample.snapshot "second" 2])
    as [f|e] eqn:E.
  - exists f. split; [reflexivity|].
    pose proof (feed_has_one_entry_per_post _ _ _ _ _ _ _ E) as Hp.
    apply Permutation_length in Hp. rewrite !length_fmap in Hp. exact Hp.
  - vm_compute in E. discriminate E.
Defined.

Lemma feed_keeps_order_of_equal_dates_witness :
  ∃ f,
    render_feeds (Sample.store ∅) Sample.jinja Sample.copies Sample.front
      "example.org"
      [Sample.snapshot "second" 2; Sample.snapshot "first" 1] = Ok f ∧
    fe_id <$> filter (λ e, fe_published e = 1577836800) (feed_entries f)
    = ["https://example.org/all/second.html";
       "https://example.org/all/first.html"].
Proof.
  destruct (render_feeds (Sample.store ∅) Sample.jinja Sample.copies Sample.front
      "example.org"
              [Sample.snapshot "second" 2; Sample.snapshot "first" 1])
    as [f|e] eqn:E.
  - exists f. split; [reflexivity|].
    rewrite (feed_keeps_order_of_equal_dates _ _ _ _ _ _ _ 1577836800 E).
    by vm_compute.
  - vm_compute in E. discriminate E.
Defined.

(** ** Slugs of tags and of titles *)

Lemma tag_slug_char_safe c : slug_char (tag_slug_char c) = true.
Proof. by destruct c as [[] [] [] [] [] [] [] []]. Qed.

Lemma tag_slug_char_lower c : tag_slug_char (Str.lower c) = tag_slug_char c.
Proof. by destruct c as [[] [] [] [] [] [] [] []]. Qed.

(** X13: the slug of a tag has the length of the tag and consists of
    lower-case letters, digits and the characters [_ . -] only, so it has
    no slash; and it does not tell upper case from lower case. *)
Theorem tag_slug_is_a_path_segment tag :
  String.length (tag_slug tag) = String.length tag ∧
  Str.forallb slug_char (tag_slug tag) = true ∧
  Str.rsplit1 Str.slash (tag_slug tag) = None ∧
  tag_slug (Str.map Str.lower tag) = tag_slug tag.
Proof.
  unfold tag_slug. induction tag as [|c tag (IH1 & IH2 & IH3 & IH4)]; [done|].
  cbn [Str.map String.length Str.forallb Str.rsplit1].
  rewrite IH1, IH2, IH3, IH4, tag_slug_char_safe, tag_slug_char_lower.
  split_and!; try done.
  pose proof (tag_slug_char_safe c) as Hc.
  destruct (Str.eqb_ascii (tag_slug_char c) Str.slash) eqn:E; [|done].
  apply bool_decide_eq_true in E. rewrite E in Hc. done.
Qed.

Lemma well_dashed_snoc_letter l c :
  well_dashed l → Str.is_lower c = true → well_dashed (l ++ [c]).
Proof.
  intros (Hh & Hd & Hf) Hc. split_and!.
  - destruct l as [|a l]; [|done]. simpl. intros [= ->]. done.
  - clear Hh Hf. induction l as [|a [|b l] IH]; simpl in *; try done.
    + destruct (Str.eqb_ascii c "-"%char) eqn:E; [|by rewrite andb_false_r].
      apply bool_decide_eq_true in E as ->. done.
    + apply andb_true_iff in Hd as [-> Hd]. by rewrite IH.
  - apply Forall_app. split; [done|]. apply Forall_singleton. by left.
Qed.

Lemma well_dashed_snoc_dash l c :
  well_dashed l → last l = Some c → Str.eqb_ascii c "-"%char = false →
  well_dashed (l ++ ["-"%char]).
Proof.
  intros (Hh & Hd & Hf) Hl Hc. split_and!.
  - destruct l as [|a l]; [done|]. done.
  - clear Hh Hf. induction l as [|a [|b l] IH]; simpl in *; try done.
    + injection Hl as ->. by rewrite Hc.
    + apply andb_true_iff in Hd as [-> Hd]. by rewrite IH.
  - apply Forall_app. split; [done|]. apply Forall_singleton. by right.
Qed.

Lemma lower_is_lower c : is_ascii_alpha c = true → Str.is_lower (Str.lower c) = true.
Proof. by destruct c as [[] [] [] [] [] [] [] []]. Qed.

Lemma title_parts_well_dashed title parts :
  well_dashed parts → well_dashed (title_parts title parts).
Proof.
  revert parts. induction title as [|symbol rest IH]; intros parts Hp; [done|].
  cbn [title_parts]. destruct (is_ascii_alpha symbol) eqn:Ha.
  - apply IH, well_dashed_snoc_letter; [done|]. by apply lower_is_lower.
  - destruct (last parts) as [c|] eqn:Hl; [|by apply IH].
    destruct (Str.eqb_ascii c "-"%char) eqn:Hc; [by apply IH|].
    by eapply IH, well_dashed_snoc_dash.
Qed.

(** X14: the slug that [create-auto] and [create-blog] make from a title
    consists of lower-case letters and dashes, does not begin with a dash
    and has no two dashes in a row. *)
Theorem title_slug_is_well_dashed name :
  well_dashed (list_ascii_of_string (title_slug name)).
Proof.
  unfold title_slug. rewrite list_ascii_of_string_of_list_ascii.
  apply title_parts_well_dashed. split_and!; [done|done|constructor].
Qed.

(** ** Adding comments *)

Lemma find_Some key table v :
  NoDup table.*1 → find key table = Some v ↔ (key, v) ∈ table.
Proof.
  induction table as [|[k w] table IH]; simpl.
  { intros _. split; [done|by intros ?%elem_of_nil]. }
  intros [Hk Hnd]%NoDup_cons. destruct (String.eqb k key) eqn:E.
  - apply String.eqb_eq in E as ->. split.
    + intros [= ->]. by left.
    + intros [[= ->]|Hin]%elem_of_cons; [done|].
      destruct Hk. apply list_elem_of_fmap. by exists (key, v).
  - apply String.eqb_neq in E. rewrite (IH Hnd). split.
    + by right.
    + intros [[= ? ?]|?]%elem_of_cons; [congruence|done].
Qed.

Lemma find_Permutation key table table' :
  NoDup table.*1 → table ≡ₚ table' → find key table = find key table'.
Proof.
  intros Hnd Hp.
  assert (NoDup table'.*1) as Hnd' by (by rewrite <-Hp).
  destruct (find key table) as [v|] eqn:E.
  - symmetry. apply find_Some; [done|]. rewrite <-Hp. by apply find_Some.
  - destruct (find key table') as [v|] eqn:E'; [|done].
    apply find_Some in E'; [|done]. rewrite <-Hp in E'.
    apply find_Some in E'; [|done]. congruence.
Qed.

Lemma append_comment_keys slug c table :
  (append_comment slug c table).*1
  = match find slug table with
    | Some _ => table.*1
    | None => table.*1 ++ [slug]
    end.
Proof.
  induction table as [|[k v] table IH]; [done|]. cbn [append_comment find].
  destruct (String.eqb k slug); [done|]. rewrite fmap_cons, IH.
  by destruct (find slug table).
Qed.

Lemma append_comment_find slug c table key :
  find key (append_comment slug c table)
  = if String.eqb slug key
    then Some (default [] (find slug table) ++ [c])
    else find key table.
Proof.
  induction table as [|[k v] table IH]; simpl.
  { by destruct (String.eqb slug key). }
  destruct (String.eqb k slug) eqn:E; simpl.
  - apply String.eqb_eq in E as ->. by destruct (String.eqb slug key).
  - rewrite IH. destruct (String.eqb k key) eqn:E'; [|done].
    apply String.eqb_eq in E' as ->. apply String.eqb_neq in E.
    destruct (String.eqb slug key) eqn:E''; [|done].
    apply String.eqb_eq in E''. congruence.
Qed.

Lemma append_comment_NoDup slug c table :
  NoDup table.*1 → NoDup (append_comment slug c table).*1.
Proof.
  intros Hnd. rewrite append_comment_keys.
  destruct (find slug table) eqn:E; [done|].
  apply NoDup_app. split_and!; [done| |apply NoDup_singleton].
  intros k Hk Hs. apply list_elem_of_singleton in Hs. subst k.
  apply list_elem_of_fmap in Hk as ([k v] & Hkv & Hin). simpl in Hkv.
  subst k. apply find_Some in Hin; [|done]. congruence.
Qed.

(** X15: [add-comment] puts the comment behind the earlier comments of
    its slug and leaves the comments of every other slug as they are,
    also after the keys have been sorted for the file; and the keys stay
    unique. *)
Theorem add_comment_appends slug c table key :
  NoDup table.*1 →
  NoDup (dump_sorted (append_comment slug c table)).*1 ∧
  find key (dump_sorted (append_comment slug c table))
  = if String.eqb slug key
    then Some (default [] (find slug table) ++ [c])
    else find key table.
Proof.
  intros Hnd. pose proof (append_comment_NoDup slug c _ Hnd) as Hnd'.
  pose proof (sorted_Permutation String.ltb fst false
                (append_comment slug c table)) as Hp.
  split.
  - unfold dump_sorted. by rewrite Hp.
  - rewrite <-append_comment_find. symmetry. by apply find_Permutation.
Qed.

Lemma add_comment_appends_witness :
  find "hello"
    (dump_sorted (append_comment "hello" ("a@example.org", "again")
                    (blog_comments Sample.garden)))
  = Some [("reader@example.org", "nice"); ("a@example.org", "again")].
Proof.
  refine (eq_trans (proj2 (add_comment_appends "hello"
            ("a@example.org", "again") (blog_comments Sample.garden) "hello"
            _)) _).
  - apply (bool_decide_unpack _). by vm_compute.
  - reflexivity.
Defined.

(** ** Making sections and commenting on them *)

Lemma truthy_Some s : s ≠ "" → truthy (Some s) = Some s.
Proof. by destruct s. Qed.

Lemma file_name_inv s : file_name s = true → s ≠ "".
Proof. by destruct s. Qed.

Lemma commented_find args :
  find (cm_slug args) (commented args [])
  = Some [(cm_email args, cm_comment args)].
Proof.
  unfold commented, dump_sorted, sorted. simpl. by rewrite String.eqb_refl.
Qed.

(** X16: after [create-auto] has made a section, a known user's
    [add-comment --section] with the section's slug finds the section
    file and leaves the comment, as the only one, under the given post
    slug; no other path of the site's directory is touched by the two
    commands. *)
Theorem create_auto_then_comment args directory directory' slug users cargs :
  section_slug (ca_slug args) (ca_title args) = Ok slug →
  file_name slug = true →
  create_auto args directory = Ok directory' →
  cm_email cargs ∈ users.*1 →
  cm_section cargs = Some slug →
  ∃ directory'',
    add_comment (Some users) cargs directory' = Ok directory'' ∧
    find (cm_slug cargs)
      (comments_at directory'' ("section-" +:+ slug +:+ ".json"))
    = Some [(cm_email cargs, cm_comment cargs)] ∧
    ∀ name, name ≠ "section-" +:+ slug +:+ ".json" →
            directory'' !! name = directory !! name.
Proof.
  intros Hslug Hname%file_name_inv H Hu Hs. unfold create_auto in H.
  rewrite Hslug in H. cbn [bind] in H.
  destruct (directory !! _) eqn:E; [done|]. injection H as <-.
  unfold add_comment.
  rewrite bool_decide_true by done. rewrite Hs, truthy_Some by done.
  rewrite lookup_insert_eq. eexists. split_and!; [done|..].
  - unfold comments_at. rewrite lookup_insert_eq.
    cbn [path_comments sec_comments new_section]. apply commented_find.
  - intros name Hne. by rewrite !lookup_insert_ne.
Qed.

Lemma blog_name_differs slug : "blog-" +:+ slug ≠ slug.
Proof.
  intros H. apply (f_equal String.length) in H. rewrite length_app in H.
  simpl in H. lia.
Qed.

(** X17: [create-blog] makes the directory [blog-] and the slug, and
    [add-comment --blog] looks for a directory of the given name as it
    is.  So with the slug of the blog the command ends with [exit(1)]
    and writes nothing, unless the site's directory has a blog directory
    of just that name; with [blog-] and the slug it leaves the comment
    under the given post slug. *)
Theorem create_blog_then_comment args directory directory' slug users cargs :
  section_slug (ca_slug args) (ca_title args) = Ok slug →
  file_name slug = true →
  create_blog args directory = Ok directory' →
  cm_email cargs ∈ users.*1 →
  truthy (cm_section cargs) = None →
  (cm_blog cargs = Some slug →
   (∀ b, directory !! slug ≠ Some (BlogDirectory b)) →
   add_comment (Some users) cargs directory' = Raise (SystemExit 1)) ∧
  (cm_blog cargs = Some ("blog-" +:+ slug) →
   ∃ directory'',
     add_comment (Some users) cargs directory' = Ok directory'' ∧
     find (cm_slug cargs) (comments_at directory'' ("blog-" +:+ slug))
     = Some [(cm_email cargs, cm_comment cargs)] ∧
     ∀ name, name ≠ "blog-" +:+ slug →
             directory'' !! name = directory !! name).
Proof.
  intros Hslug Hname%file_name_inv H Hu Hs. unfold create_blog in H.
  rewrite Hslug in H. cbn [bind] in H.
  destruct (directory !! _) eqn:E; [done|]. injection H as <-.
  unfold add_comment.
  rewrite bool_decide_true by done. rewrite Hs. split.
  - intros -> Hno. rewrite truthy_Some by done.
    rewrite lookup_insert_ne by apply blog_name_differs.
    destruct (directory !! slug) as [[b| |]|] eqn:Ed; try done.
    by destruct (Hno b).
  - intros ->. rewrite truthy_Some by done.
    rewrite lookup_insert_eq. eexists. split_and!; [done|..].
    + unfold comments_at. rewrite lookup_insert_eq.
      cbn [path_comments blog_comments new_blog]. apply commented_find.
    + intros name Hne. by rewrite !lookup_insert_ne.
Qed.

(** X18: [create-auto] takes a minimum rating and writes it to the
    section file, and from then on no build of the site succeeds: every
    build ends with an exception. *)
Theorem create_auto_min_rating_blocks_build args directory directory' slug r
    w environment domain name users st :
  section_slug (ca_slug args) (ca_title args) = Ok slug →
  file_name slug = true →
  create_auto args directory = Ok directory' →
  ca_min_rating args = Some r →
  ∃ e, build w environment domain name users (map_to_list directory').*2 st
       = Raise e.
Proof.
  intros Hslug _ H Hr. unfold create_auto in H.
  rewrite Hslug in H. cbn [bind] in H.
  destruct (directory !! _) eqn:E; [done|]. injection H as <-.
  unfold build.
  edestruct (build_paths_min_rating w environment domain
               (map_to_list
                  (<["section-" +:+ slug +:+ ".json" :=
                     SectionFile (new_section args slug)]> directory)).*2)
    as [e ->]; [| |by exists e].
  - apply list_elem_of_fmap.
    exists ("section-" +:+ slug +:+ ".json", SectionFile (new_section args slug)).
    split; [done|]. apply elem_of_map_to_list. by rewrite lookup_insert_eq.
  - exact Hr.
Qed.

(** ** Posts *)

Lemma pretty_N_char_digit d :
  (d < 10)%N →
  Str.is_digit (pretty_N_char d) = true ∧
  Z.of_nat (nat_of_ascii (pretty_N_char d)) - 48 = Z.of_N d.
Proof.
  intros Hd.
  assert (d = 0 ∨ d = 1 ∨ d = 2 ∨ d = 3 ∨ d = 4 ∨ d = 5 ∨ d = 6 ∨ d = 7
          ∨ d = 8 ∨ d = 9)%N as Hc by lia.
  repeat destruct Hc as [->|Hc]; try subst d; by vm_compute.
Qed.

Lemma pretty_N_go_digits x s :
  Str.forallb Str.is_digit s = true →
  Str.forallb Str.is_digit (pretty_N_go x s) = true.
Proof.
  revert s. induction (N.lt_wf_0 x) as [x _ IH]; intros s Hs.
  assert (x = 0 ∨ 0 < x)%N as [->|Hx] by lia; [by rewrite pretty_N_go_0|].
  rewrite pretty_N_go_step by done. apply IH; [by apply N.div_lt|].
  cbn [Str.forallb]. rewrite Hs, andb_true_r.
  apply pretty_N_char_digit, N.mod_lt. lia.
Qed.

Lemma pretty_N_go_int x s :
  Str.int (pretty_N_go x s) = Str.int_go (Z.of_N x) s.
Proof.
  revert s. induction (N.lt_wf_0 x) as [x _ IH]; intros s.
  assert (x = 0 ∨ 0 < x)%N as [->|Hx] by lia; [by rewrite pretty_N_go_0|].
  rewrite pretty_N_go_step by done. rewrite IH by (by apply N.div_lt).
  cbn [Str.int_go].
  destruct (pretty_N_char_digit (x `mod` 10)) as [_ ->].
  { apply N.mod_lt. lia. }
  f_equal. rewrite (N.div_mod x 10) at 3 by done. lia.
Qed.

Lemma pretty_N_go_length x s :
  (String.length s ≤ String.length (pretty_N_go x s))%nat.
Proof.
  revert s. induction (N.lt_wf_0 x) as [x _ IH]; intros s.
  assert (x = 0 ∨ 0 < x)%N as [->|Hx] by lia; [by rewrite pretty_N_go_0|].
  rewrite pretty_N_go_step by done.
  etrans; [|by eapply IH, N.div_lt]. simpl. lia.
Qed.

Lemma of_Z_digits n :
  0 ≤ n → Str.isnumeric (Str.of_Z n) = true ∧ Str.int (Str.of_Z n) = n.
Proof.
  intros Hn. destruct n as [|p|p]; [done| |lia].
  unfold Str.of_Z, pretty, pretty_Z, pretty, pretty_positive, pretty, pretty_N.
  rewrite decide_False by done. split.
  - pose proof (pretty_N_go_digits (N.pos p) "" eq_refl) as Hd.
    pose proof (pretty_N_go_step (N.pos p) "" ltac:(lia)) as Hs.
    pose proof (pretty_N_go_length (N.pos p `div` 10)
                  (String (pretty_N_char (N.pos p `mod` 10)) "")) as Hl.
    rewrite <-Hs in Hl. unfold Str.isnumeric.
    destruct (pretty_N_go (N.pos p) ""); [simpl in Hl; lia|done].
  - by rewrite pretty_N_go_int.
Qed.

Lemma of_Z_negative n : n < 0 → ∃ s, Str.of_Z n = String "-" s.
Proof. destruct n as [|p|p]; try lia. intros _. by eexists. Qed.

Lemma of_Z_no_dot n :
  Str.forallb (λ c, negb (Str.eqb_ascii c Str.dot)) (Str.of_Z n) = true.
Proof.
  assert (∀ s, Str.forallb Str.is_digit s = true →
               Str.forallb (λ c, negb (Str.eqb_ascii c Str.dot)) s = true)
    as Hd.
  { induction s as [|c s IH]; [done|]. cbn [Str.forallb].
    intros [Hc Hs]%andb_true_iff. rewrite (IH Hs), andb_true_r.
    unfold Str.eqb_ascii. apply negb_true_iff, bool_decide_eq_false.
    by intros ->. }
  destruct n as [|p|p]; [done|..];
    unfold Str.of_Z, pretty, pretty_Z, pretty, pretty_positive, pretty,
      pretty_N; rewrite decide_False by done.
  - by apply Hd, pretty_N_go_digits.
  - change ("-" +:+ ?s) with (String "-" s). cbn [Str.forallb].
    by rewrite Hd by (by apply pretty_N_go_digits).
Qed.

Lemma rsplit1_no_sep sep s :
  Str.forallb (λ c, negb (Str.eqb_ascii c sep)) s = true →
  Str.rsplit1 sep s = None.
Proof.
  induction s as [|c s IH]; [done|]. cbn [Str.forallb Str.rsplit1].
  intros [Hc Hs]%andb_true_iff. rewrite (IH Hs).
  by apply negb_true_iff in Hc as ->.
Qed.

Lemma rsplit1_json s :
  Str.forallb (λ c, negb (Str.eqb_ascii c Str.dot)) s = true →
  Str.rsplit1 Str.dot (s +:+ ".json") = Some (s, "json").
Proof.
  induction s as [|c s IH]; [done|].
  change (String c s +:+ ".json") with (String c (s +:+ ".json")).
  cbn [Str.forallb Str.rsplit1]. intros [_ Hs]%andb_true_iff.
  by rewrite (IH Hs).
Qed.

Lemma post_name_stem n :
  Str.stem (post_name n) = Str.of_Z n.
Proof.
  unfold Str.stem, post_name. rewrite rsplit1_json by apply of_Z_no_dot.
  destruct (Str.of_Z n) eqn:E; [|done].
  destruct n as [|p|p]; [done| |done].
  pose proof (proj2 (of_Z_digits (Z.pos p) ltac:(lia))) as Hi.
  rewrite E in Hi. done.
Qed.

Lemma known_images_Ok w images :
  known_images w images = Ok tt → ∀ i, i ∈ images → is_Some (get_image w i).
Proof.
  induction images as [|j images IH]; cbn [known_images].
  { by intros _ i ?%elem_of_nil. }
  destruct (get_image w j) eqn:E; [|done].
  intros H k [->|Hk]%elem_of_cons; [by eexists|by apply IH].
Qed.

Lemma post_inv w now args directory directory' :
  blog_post w now args directory = Ok directory' →
  ∃ b images,
    directory !! ("blog-" +:+ po_blog args) = Some (BlogDirectory b) ∧
    po_images args = Some images ∧
    known_images w images = Ok tt ∧
    directory' =
    <["blog-" +:+ po_blog args :=
      BlogDirectory
        (with_files b
           (write_post (post_name (default now (po_timestamp args)))
              (post_data args (default now (po_timestamp args)) images)
              (blog_files b)))]> directory.
Proof.
  unfold blog_post. destruct (directory !! _) as [[b| |]|] eqn:E; try done.
  destruct (po_images args) as [images|]; [|done].
  intros H. bind_ok H. destruct r. injection Hb as <-. by exists b, images.
Qed.

Lemma blog_loop_shown w files a st a' st' :
  blog_loop w files a st = Ok (a', st') →
  shown <$> entries a' =
  (shown <$> entries a) ++
  ((λ f, (dated_slug (m_slug f.2), Some (Str.int (Str.stem f.1)))) <$>
     filter (λ f, Str.isnumeric (Str.stem f.1) = true) files).
Proof.
  revert a st. induction files as [|[name post] files IH]; intros a st;
    cbn [blog_loop].
  { intros [= <- <-]. by rewrite filter_nil, app_nil_r. }
  rewrite filter_cons. cbn [fst].
  destruct (Str.isnumeric (Str.stem name)) eqn:E.
  - rewrite decide_True by done. intros H. bind_ok H.
    destruct r as [[images tags] st1]. stamp_ok Hb. rewrite (IH _ _ Hb).
    unfold blog_entry. destruct (pop _ (comments a)) as [found rest].
    cbn [entries]. rewrite fmap_app, set_last_forward_fmap by done.
    by rewrite <-app_assoc.
  - rewrite decide_False by done. apply IH.
Qed.

(** X19: [post] writes a post only when every image is known to the
    store, and a post written at a time that is not negative is shown by
    every build of its blog that succeeds, at its slug with [.html], with
    the time it was written at: the time goes through the name of the
    file and comes back unchanged. *)
Theorem post_is_shown_at_its_time w now args directory directory' :
  blog_post w now args directory = Ok directory' →
  0 ≤ default now (po_timestamp args) →
  ∃ b' images,
    directory' !! ("blog-" +:+ po_blog args) = Some (BlogDirectory b') ∧
    po_images args = Some images ∧
    (∀ i, i ∈ images → is_Some (get_image w i)) ∧
    ∀ st es st',
      assemble_blog w b' st = Ok (es, st') →
      (default (Str.of_Z (default now (po_timestamp args))) (po_slug args)
         +:+ ".html",
       Some (default now (po_timestamp args))) ∈ shown <$> es.
Proof.
  intros (b & images & Hb & Hi & Hk & ->)%post_inv Ht.
  set (t := default now (po_timestamp args)) in *.
  eexists _, images. split_and!; [by rewrite lookup_insert_eq|done|
                                   by apply known_images_Ok|].
  intros st es st' H.
  apply (assemble_inv w (BlogDirectory _)) in H as (a & st1 & Hloop & -> & _).
  apply blog_loop_shown in Hloop. rewrite Hloop. apply elem_of_app. right.
  apply list_elem_of_fmap. exists (post_name t, post_data args t images).
  cbn [fst snd]. rewrite post_name_stem.
  destruct (of_Z_digits t Ht) as [Hn Hint]. split.
  { by rewrite Hint. }
  apply list_elem_of_filter. cbn [fst]. rewrite post_name_stem. split; [done|].
  rewrite sorted_Permutation. cbn [blog_files with_files write_post].
  by left.
Qed.

Lemma blog_loop_insert_skipped w x files a st :
  Str.isnumeric (Str.stem x.1) = false →
  blog_loop w (insert String.ltb fst false x files) a st
  = blog_loop w files a st.
Proof.
  intros Hx. revert a st. induction files as [|[name m] files IH];
    intros a st.
  { destruct x as [n m]. simpl in *. by rewrite Hx. }
  cbn [insert].
  destruct (goes_first String.ltb fst false (name, m) x).
  - cbn [blog_loop]. destruct (Str.isnumeric (Str.stem name)); [|apply IH].
    destruct (post_images w (m_images m) [] [] st) as [[[images tags] st1]|e];
      [|done].
    cbn [bind]. destruct (fromtimestamp w _); [|done]. cbn [bind]. apply IH.
  - destruct x as [n m']. cbn [blog_loop]. simpl in Hx. by rewrite Hx.
Qed.

(** X20: a post written at a negative time, as [--date] gives for a day
    before 1970, is written to the blog's directory but never shown: the
    build gives what it gives without the file, as the name of the file
    begins with a minus sign and the loop over the posts skips it. *)
Theorem post_before_1970_is_not_shown w now args directory directory' :
  blog_post w now args directory = Ok directory' →
  default now (po_timestamp args) < 0 →
  ∃ b images,
    directory !! ("blog-" +:+ po_blog args) = Some (BlogDirectory b) ∧
    po_images args = Some images ∧
    directory' !! ("blog-" +:+ po_blog args)
    = Some (BlogDirectory
              (with_files b
                 (write_post (post_name (default now (po_timestamp args)))
                    (post_data args (default now (po_timestamp args)) images)
                    (blog_files b)))) ∧
    ∀ st,
      assemble_blog w
        (with_files b
           (write_post (post_name (default now (po_timestamp args)))
              (post_data args (default now (po_timestamp args)) images)
              (blog_files b))) st
      = assemble_blog w
          (with_files b
             (without (post_name (default now (po_timestamp args)))
                (blog_files b))) st.
Proof.
  intros (b & images & Hb & Hi & Hk & ->)%post_inv Ht.
  set (t := default now (po_timestamp args)) in *.
  exists b, images. split_and!; [done|done|by rewrite lookup_insert_eq|].
  intros st. unfold assemble_blog.
  cbn [blog_files blog_comments with_files]. unfold write_post.
  change (sorted String.ltb fst false (?x :: ?l))
    with (insert String.ltb fst false x (sorted String.ltb fst false l)).
  rewrite blog_loop_insert_skipped; [done|].
  cbn [fst]. rewrite post_name_stem.
  by destruct (of_Z_negative t Ht) as [s ->].
Qed.

Lemma create_auto_then_comment_witness :
  ∃ directory' directory'',
    create_auto (Desk.walks None) Desk.site = Ok directory' ∧
    add_comment (Some Desk.readers) (Desk.remark None (Some "winter-walks"))
      directory' = Ok directory'' ∧
    find "2020-01-01" (comments_at directory'' "section-winter-walks.json")
    = Some [("reader@example.org", "nice")].
Proof.
  destruct (create_auto (Desk.walks None) Desk.site) as [d'|e] eqn:E.
  - destruct (create_auto_then_comment (Desk.walks None) Desk.site d'
                "winter-walks" Desk.readers
                (Desk.remark None (Some "winter-walks")))
      as (d'' & H1 & H2 & _);
      [reflexivity|reflexivity|exact E| |reflexivity|].
    + apply (bool_decide_unpack _). by vm_compute.
    + exists d', d''. split; [reflexivity|]. split; [exact H1|exact H2].
  - vm_compute in E. discriminate E.
Defined.

Lemma create_blog_then_comment_witness :
  ∃ directory',
    create_blog (Desk.walks None) Desk.site = Ok directory' ∧
    add_comment (Some Desk.readers) (Desk.remark (Some "winter-walks") None)
      directory' = Raise (SystemExit 1).
Proof.
  destruct (create_blog (Desk.walks None) Desk.site) as [d'|e] eqn:E.
  - exists d'. split; [reflexivity|].
    refine (proj1 (create_blog_then_comment (Desk.walks None) Desk.site d'
                     "winter-walks" Desk.readers
                     (Desk.remark (Some "winter-walks") None)
                     eq_refl eq_refl E _ eq_refl) eq_refl _).
    + apply (bool_decide_unpack _). by vm_compute.
    + intros b Hb. vm_compute in Hb. discriminate Hb.
  - vm_compute in E. discriminate E.
Defined.

Lemma create_auto_min_rating_blocks_build_witness :
  ∃ directory' e,
    create_auto (Desk.walks (Some 3)) Desk.site = Ok directory' ∧
    build (Sample.store ∅) Sample.jinja "example.org" "Photos" false
      (map_to_list directory').*2 Sample.fresh = Raise e.
Proof.
  destruct (create_auto (Desk.walks (Some 3)) Desk.site) as [d'|e] eqn:E.
  - destruct (create_auto_min_rating_blocks_build (Desk.walks (Some 3))
                Desk.site d' "winter-walks" 3 (Sample.store ∅) Sample.jinja
                "example.org" "Photos" false Sample.fresh
                eq_refl eq_refl E eq_refl) as [e He].
    exists d', e. split; [reflexivity|exact He].
  - vm_compute in E. discriminate E.
Defined.

Lemma post_is_shown_at_its_time_witness :
  ∃ directory' b',
    blog_post (Sample.store ∅) 1600000000 (Desk.frost None) Desk.site
    = Ok directory' ∧
    directory' !! "blog-garden" = Some (BlogDirectory b') ∧
    ∀ st es st',
      assemble_blog (Sample.store ∅) b' st = Ok (es, st') →
      (Str.of_Z 1600000000 +:+ ".html", Some 1600000000) ∈ shown <$> es.
Proof.
  destruct (blog_post (Sample.store ∅) 1600000000 (Desk.frost None) Desk.site)
    as [d'|e] eqn:E.
  - destruct (post_is_shown_at_its_time _ _ _ _ _ E)
      as (b' & images & Hb & _ & _ & H).
    + cbn. lia.
    + exists d', b'. split; [reflexivity|]. split; [exact Hb|exact H].
  - vm_compute in E. discriminate E.
Defined.

Lemma post_before_1970_is_not_shown_witness :
  ∃ directory' b images,
    blog_post (Sample.store ∅) 1600000000 (Desk.frost (Some (-86400))) Desk.site
    = Ok directory' ∧
    Desk.site !! "blog-garden" = Some (BlogDirectory b) ∧
    ∀ st,
      assemble_blog (Sample.store ∅)
        (with_files b
           (write_post (post_name (-86400))
              (post_data (Desk.frost (Some (-86400))) (-86400) images)
              (blog_files b))) st
      = assemble_blog (Sample.store ∅)
          (with_files b (without (post_name (-86400)) (blog_files b))) st.
Proof.
  destruct (blog_post (Sample.store ∅) 1600000000 (Desk.frost (Some (-86400)))
              Desk.site) as [d'|e] eqn:E.
  - destruct (post_before_1970_is_not_shown _ _ _ _ _ E)
      as (b & images & Hb & _ & _ & H).
    + cbn. lia.
    + exists d', b, images. split; [reflexivity|]. split; [exact Hb|exact H].
  - vm_compute in E. discriminate E.
Defined.

(** ** The tree of the tags *)

Lemma rsplit1_app sep s h t :
  Str.rsplit1 sep s = Some (h, t) → s = h +:+ String sep t.
Proof.
  revert h t. induction s as [|c r IH]; intros h t; [done|].
  cbn [Str.rsplit1].
  destruct (Str.rsplit1 sep r) as [[h' t']|] eqn:E.
  - intros [= <- <-].
    change (String c h' +:+ String sep t')
      with (String c (h' +:+ String sep t')).
    f_equal. by apply IH.
  - destruct (Str.eqb_ascii c sep) eqn:Ec; [|done].
    apply bool_decide_eq_true in Ec as ->. by intros [= <- <-].
Qed.

Lemma split_not_nil sep s : Str.split sep s ≠ [].
Proof.
  destruct s as [|c r]; [done|]. cbn [Str.split].
  destruct (Str.eqb_ascii c sep); [done|]. by destruct (Str.split sep r).
Qed.

Lemma split_rsplit sep s :
  Str.split sep s =
  match Str.rsplit1 sep s with
  | Some (h, t) => Str.split sep h ++ [t]
  | None => [s]
  end.
Proof.
  induction s as [|c r IH]; [done|]. cbn [Str.split Str.rsplit1].
  destruct (Str.rsplit1 sep r) as [[h t]|] eqn:E.
  - rewrite IH. cbn [Str.split].
    destruct (Str.eqb_ascii c sep); [done|].
    pose proof (split_not_nil sep h) as Hh.
    by destruct (Str.split sep h).
  - rewrite IH. by destruct (Str.eqb_ascii c sep).
Qed.

Lemma ancestors_closed t q :
  q ∈ ancestors t →
  q ≠ "" ∧ ∀ p, parent q = Some p → p ≠ "" → p ∈ ancestors t.
Proof.
  remember (String.length t) as n eqn:Hn. revert t Hn q.
  induction (lt_wf n) as [n _ IH]. intros t -> q.
  rewrite ancestors_unfold. destruct t as [|c r]; [by intros ?%elem_of_nil|].
  intros [->|Hq]%elem_of_cons.
  - split; [done|]. intros p Hp Hne. rewrite Hp. right.
    rewrite ancestors_unfold. destruct p; [done|by left].
  - destruct (parent (String c r)) as [p0|] eqn:E;
      [|by apply elem_of_nil in Hq].
    pose proof (parent_shorter _ _ E) as Hlt.
    destruct (IH _ Hlt p0 eq_refl q Hq) as [Hne Hcl]. split; [done|].
    intros p Hp Hp'. right. by apply Hcl.
Qed.

Lemma register_paths_empty image_id st tag :
  tag ≠ "" → tag_paths st !! "" = None →
  tag_paths (register image_id st tag) !! "" = None.
Proof.
  intros Hne He. unfold register.
  destruct (all_tags st !! tag); cbn [tag_paths]; [done|].
  by rewrite lookup_insert_ne.
Qed.

Lemma register_fold_paths_empty image_id l st :
  "" ∉ l → tag_paths st !! "" = None →
  tag_paths (foldl (register image_id) st l) !! "" = None.
Proof.
  revert st. induction l as [|t l IH]; intros st Hl He; [done|].
  cbn [foldl]. apply not_elem_of_cons in Hl as [Ht Hl].
  apply IH; [done|]. by apply register_paths_empty.
Qed.

Lemma register_fold_sluggish image_id l st :
  sluggish st → sluggish (foldl (register image_id) st l).
Proof.
  revert st. induction l as [|t l IH]; intros st Hs; [done|].
  cbn [foldl]. by apply IH, register_sluggish.
Qed.

Lemma register_fold_rooted image_id t st :
  rooted st → rooted (foldl (register image_id) st (ancestors t)).
Proof.
  intros [He Hr]. split.
  - apply register_fold_paths_empty; [|done].
    intros Hin. by apply ancestors_closed in Hin as [? _].
  - intros tag. rewrite !register_fold_all_tags by apply ancestors_NoDup.
    destruct (decide (tag ∈ ancestors t)) as [Hin|Hout].
    + intros _. destruct (ancestors_closed _ _ Hin) as [Hne Hcl].
      split; [done|]. intros p Hp Hp'.
      rewrite register_fold_all_tags by apply ancestors_NoDup.
      by rewrite decide_True by (by apply Hcl).
    + intros Hs. destruct (Hr _ Hs) as [Hne Hcl]. split; [done|].
      intros p Hp Hp'.
      rewrite register_fold_all_tags by apply ancestors_NoDup.
      destruct (decide (p ∈ ancestors t)); [done|]. by apply Hcl.
Qed.

Lemma walk_rooted image_id denied l t tags st tags' st' :
  ancestors t = denied ++ l →
  sluggish st → rooted st →
  walk image_id l tags st = Ok (tags', st') →
  sluggish st' ∧ rooted st'.
Proof.
  revert denied st. induction l as [|tag rest IH]; intros denied st Hl Hs Hr;
    cbn [walk].
  { by intros [= _ <-]. }
  intros H. bind_ok H. destruct r as [b st1].
  destruct (tag_allowed_inv _ _ _ _ Ha) as (_ & _ & Htags & Hpaths & _).
  assert (sluggish st1 ∧ rooted st1) as [Hs1 Hr1].
  { split.
    - intros q ids. rewrite Htags, Hpaths. apply Hs.
    - destruct Hr as [He Hr]. split; [by rewrite Hpaths|].
      intros q. rewrite Htags. apply Hr. }
  destruct b.
  - rewrite (ancestors_suffix _ _ _ _ Hl) in Hb. injection Hb as _ <-. split.
    + by apply register_fold_sluggish.
    + by apply register_fold_rooted.
  - eapply (IH (denied ++ [tag])); [|done..]. by rewrite <-app_assoc.
Qed.

Lemma walk_tags_rooted image_id raw tags st tags' st' :
  sluggish st → rooted st →
  walk_tags image_id raw tags st = Ok (tags', st') →
  sluggish st' ∧ rooted st'.
Proof.
  revert tags st. induction raw as [|tag raw IH]; intros tags st Hs Hr;
    cbn [walk_tags].
  { by intros [= _ <-]. }
  intros H. bind_ok H. destruct r as [tags1 st1].
  destruct (walk_rooted image_id [] _ tag _ _ _ _ eq_refl Hs Hr Ha)
    as [Hs1 Hr1].
  by eapply IH.
Qed.

Lemma process_image_rooted w x st data st' :
  sluggish st ∧ rooted st → process_image w x st = Ok (data, st') →
  sluggish st' ∧ rooted st'.
Proof.
  intros [Hs Hr] H. destruct (all_images st !! given_id x) as [d|] eqn:Hhit.
  { rewrite (process_image_hit _ _ _ _ Hhit) in H. by injection H as _ <-. }
  destruct (process_image_miss _ _ _ _ _ Hhit H)
    as (image & path & tags & st2 & Hres & Hpath & Hwalk & _).
  edestruct (walk_tags_rooted (given_id x)) as [Hs2 Hr2]; [| |exact Hwalk|].
  { exact Hs. }
  { exact Hr. }
  assert (all_tags st' = all_tags st2 ∧ tag_paths st' = tag_paths st2)
    as [Htags Hpaths].
  { revert H. unfold process_image. fold (given_id x). fold (resolve w x).
    rewrite Hhit, Hres, Hpath, Hwalk. cbn [bind]. by intros [= _ <-]. }
  split.
  - intros t ids. rewrite Htags, Hpaths. apply Hs2.
  - destruct Hr2 as [He2 Hr2]. split; [by rewrite Hpaths|].
    intros t. rewrite Htags. apply Hr2.
Qed.

Lemma begins_with_slash_app h t :
  h ≠ "" → begins_with_slash (h +:+ t) = begins_with_slash h.
Proof. by destruct h. Qed.

(** Every front part of a tag of the index has a slug, as long as the
    tag does not begin with a slash. *)
Lemma rooted_prefixes st tag k :
  sluggish st → rooted st → is_Some (all_tags st !! tag) →
  begins_with_slash tag = false →
  (0 < k ≤ length (Str.split Str.slash tag))%nat →
  is_Some (tag_paths st !! Str.join "/" (take k (Str.split Str.slash tag))).
Proof.
  intros Hs [He Hr]. remember (String.length tag) as n eqn:Hn.
  revert tag Hn k. induction (lt_wf n) as [n _ IH]. intros tag -> k Hin Hb.
  assert (is_Some (tag_paths st !! tag)) as Hslug.
  { destruct Hin as [ids Hin]. rewrite (Hs _ _ Hin). by eexists. }
  destruct (Hr _ Hin) as [Hne Hcl]. unfold parent in Hcl.
  rewrite (split_rsplit Str.slash tag).
  pose proof (join_split tag) as Hj. rewrite (split_rsplit Str.slash tag) in Hj.
  destruct (Str.rsplit1 Str.slash tag) as [[h t]|] eqn:E.
  - rewrite List.length_app. simpl. intros Hk.
    destruct (decide (k = S (length (Str.split Str.slash h)))) as [->|Hk'].
    { rewrite firstn_all2 by (rewrite List.length_app; simpl; lia).
      by rewrite Hj. }
    rewrite take_app_le by lia.
    pose proof (rsplit1_app _ _ _ _ E) as Htag.
    assert (h ≠ "") as Hh.
    { intros ->. subst tag. simpl in Hb.
      unfold Str.eqb_ascii in Hb. by rewrite bool_decide_true in Hb. }
    apply (IH (String.length h)); [|done|by apply Hcl| |lia].
    + apply rsplit1_length in E. lia.
    + rewrite <-Hb, Htag. symmetry. by apply begins_with_slash_app.
  - simpl. intros Hk. assert (k = 1%nat) as -> by lia. done.
Qed.

Lemma grow_Ok paths full parts current :
  (∀ k, (0 < k ≤ length parts)%nat →
        is_Some (paths !! Str.join "/" (full ++ take k parts))) →
  ∃ t, grow paths full parts current = Ok t.
Proof.
  revert full current. induction parts as [|part rest IH];
    intros full current Hp; cbn [grow]; [by eexists|].
  assert (∀ k, (0 < k ≤ length rest)%nat →
               is_Some (paths !! Str.join "/" ((full ++ [part]) ++ take k rest)))
    as Hrest.
  { intros k Hk. rewrite <-app_assoc. apply (Hp (S k)). simpl. lia. }
  destruct (get_node part current) as [[path children]|].
  - destruct (IH _ children Hrest) as [t ->]. by eexists.
  - destruct (Hp 1%nat) as [path Hpath]; [simpl; lia|].
    change (take 1 (part :: rest)) with [part] in Hpath. rewrite Hpath.
    destruct (IH _ [] Hrest) as [t ->]. by eexists.
Qed.

Lemma grow_error paths full parts current e :
  grow paths full parts current = Raise e → e = KeyError.
Proof.
  revert full current. induction parts as [|part rest IH];
    intros full current; cbn [grow]; [done|].
  destruct (get_node part current) as [[path children]|].
  - destruct (grow paths (full ++ [part]) rest children) eqn:E; [done|].
    intros [= <-]. by eapply IH.
  - destruct (paths !! _); [|by intros [= <-]].
    destruct (grow paths (full ++ [part]) rest []) eqn:E; [done|].
    intros [= <-]. by eapply IH.
Qed.

Lemma get_node_set_node k part n current :
  get_node k current = None → get_node k (set_node part n current) = None.
Proof.
  induction current as [|[q m] current IH]; [done|]. cbn [get_node set_node].
  destruct (String.eqb q k) eqn:Ek; [done|]. intros Hc.
  destruct (String.eqb q part); cbn [get_node]; rewrite Ek; [done|].
  by apply IH.
Qed.

Lemma get_node_app k part n current :
  part ≠ k → get_node k current = None →
  get_node k (current ++ [(part, n)]) = None.
Proof.
  intros Hne. induction current as [|[q m] current IH]; simpl.
  { intros _. by apply String.eqb_neq in Hne as ->. }
  destruct (String.eqb q k); [done|]. apply IH.
Qed.

Lemma grow_no_empty paths parts current t :
  paths !! "" = None → get_node "" current = None →
  grow paths [] parts current = Ok t → get_node "" t = None.
Proof.
  intros He Hc. destruct parts as [|part rest]; cbn [grow].
  { by intros [= <-]. }
  destruct (get_node part current) as [[path children]|].
  - intros H. bind_ok H. injection Hb as <-. by apply get_node_set_node.
  - change (Str.join "/" ([] ++ [part])) with part.
    destruct (paths !! part) as [path|] eqn:Ep; [|done].
    intros H. bind_ok H. injection Hb as <-. apply get_node_app; [|done].
    intros ->. congruence.
Qed.

Lemma tag_tree_Ok paths tags tree :
  (∀ tag k, tag ∈ tags →
     (0 < k ≤ length (Str.split Str.slash tag))%nat →
     is_Some (paths !! Str.join "/" (take k (Str.split Str.slash tag)))) →
  ∃ t, tag_tree paths tags tree = Ok t.
Proof.
  revert tree. induction tags as [|tag tags IH]; intros tree Hp;
    cbn [tag_tree]; [by eexists|].
  destruct (grow_Ok paths [] (Str.split Str.slash tag) tree) as [t ->].
  { intros k Hk. apply Hp; [by left|done]. }
  cbn [bind]. apply IH. intros q k Hq. apply Hp. by right.
Qed.

Lemma tag_tree_error paths tags tree :
  paths !! "" = None → get_node "" tree = None →
  Exists (λ tag, begins_with_slash tag = true) tags →
  tag_tree paths tags tree = Raise KeyError.
Proof.
  intros He. revert tree. induction tags as [|tag tags IH]; intros tree Hc Hex.
  { by apply Exists_nil in Hex. }
  cbn [tag_tree].
  destruct (grow paths [] (Str.split Str.slash tag) tree) as [t|e] eqn:E.
  - cbn [bind]. apply Exists_cons in Hex as [Hb|Hex].
    + destruct tag as [|c r]; [done|]. simpl in Hb. cbn [Str.split] in E.
      rewrite Hb in E. cbn [grow] in E. rewrite Hc in E.
      change (Str.join "/" ([] ++ [""])) with "" in E. by rewrite He in E.
    + apply IH; [|done]. by eapply grow_no_empty.
  - cbn [bind]. by rewrite (grow_error _ _ _ _ _ E).
Qed.

(** X21: the tree of the tags for the page [tags/index.html] is built
    from the index that the loop over the sections leaves exactly when
    no tag of the index begins with a slash, in whatever order the tags
    are taken: then every front part of every tag has its slug; a tag
    that begins with a slash has the empty front part, which never has a
    slug, and the build ends with [KeyError]. *)
Theorem tag_tree_is_built w environment domain directory g st g' st' tags :
  sluggish st → rooted st →
  build_paths w environment domain directory g st = Ok (g', st') →
  tags ≡ₚ (map_to_list (all_tags st')).*1 →
  (Forall (λ tag, begins_with_slash tag = false) tags →
   ∃ tree, tag_tree (tag_paths st') tags [] = Ok tree) ∧
  (Exists (λ tag, begins_with_slash tag = true) tags →
   tag_tree (tag_paths st') tags [] = Raise KeyError).
Proof.
  intros Hs Hr H Htags.
  apply (build_paths_state w (λ st, sluggish st ∧ rooted st)) in H
    as [Hs' Hr']; [| |by intros line st0 [? ?]|done].
  2:{ intros x s data s'. apply process_image_rooted. }
  split.
  - intros Hall. apply tag_tree_Ok. intros tag k Hin Hk.
    apply rooted_prefixes; [done|done| | |done].
    + rewrite Htags in Hin.
      apply list_elem_of_fmap in Hin as ([q ids] & -> & Hin).
      apply elem_of_map_to_list in Hin. by eexists.
    + by eapply Forall_forall in Hall.
  - intros Hex. apply tag_tree_error; [by destruct Hr'|done|done].
Qed.

Lemma rooted_initial decisions copied typed :
  rooted (initial decisions copied typed).
Proof.
  split; [done|]. intros tag [ids Hin]. cbn in Hin.
  by rewrite lookup_empty in Hin.
Qed.

Lemma sluggish_initial decisions copied typed :
  sluggish (initial decisions copied typed).
Proof. intros tag ids. cbn. by rewrite lookup_empty. Qed.

Lemma tag_tree_is_built_witness :
  ∃ g' st' tree,
    build_paths (Sample.store ∅) Sample.jinja "example.org"
      [BlogDirectory Sample.garden; SectionFile (Sample.everything None)]
      {| pages := []; all_blog_pages := []; feeds := []; sections := [] |}
      Sample.fresh = Ok (g', st') ∧
    tag_tree (tag_paths st') (map_to_list (all_tags st')).*1 [] = Ok tree.
Proof.
  destruct (build_paths (Sample.store ∅) Sample.jinja "example.org"
      [BlogDirectory Sample.garden; SectionFile (Sample.everything None)]
      {| pages := []; all_blog_pages := []; feeds := []; sections := [] |}
      Sample.fresh) as [[g' st']|e] eqn:E.
  - destruct (proj1 (tag_tree_is_built _ _ _ _ _ _ _ _ _
                       (sluggish_initial _ _ _) (rooted_initial _ _ _) E
                       (reflexivity _))) as [tree Ht].
    + vm_compute in E. injection E as _ <-.
      apply (bool_decide_unpack _). by vm_compute.
    + exists g', st', tree. split; [reflexivity|exact Ht].
  - vm_compute in E. discriminate E.
Defined.

Lemma get_node_set_node_eq part n current :
  is_Some (get_node part current) →
  get_node part (set_node part n current) = Some n.
Proof.
  induction current as [|[q m] current IH]; cbn [get_node set_node].
  { by intros [? ?]. }
  destruct (String.eqb q part) eqn:E; cbn [get_node]; rewrite E; [done|].
  apply IH.
Qed.

Lemma get_node_set_node_ne k part n current :
  k ≠ part → get_node k (set_node part n current) = get_node k current.
Proof.
  intros Hne. induction current as [|[q m] current IH]; [done|].
  cbn [get_node set_node]. destruct (String.eqb q part) eqn:E; cbn [get_node].
  - apply String.eqb_eq in E as ->.
    by apply not_eq_sym, String.eqb_neq in Hne as ->.
  - by rewrite IH.
Qed.

Lemma get_node_snoc k part n current :
  get_node k (current ++ [(part, n)]) =
  match get_node k current with
  | Some m => Some m
  | None => if String.eqb part k then Some n else None
  end.
Proof.
  induction current as [|[q m] current IH]; [done|]. simpl.
  by destruct (String.eqb q k).
Qed.

Lemma descend_cons part rest tree :
  descend (part :: rest) tree =
  match get_node part tree with
  | None => None
  | Some (TagNode path children) =>
      match rest with
      | [] => Some (TagNode path children)
      | _ => descend rest children
      end
  end.
Proof. done. Qed.

Lemma labelled_children paths full part path children current :
  labelled paths full current →
  get_node part current = Some (TagNode path children) →
  labelled paths (full ++ [part]) children.
Proof.
  intros Hl Hg parts p c Hd. rewrite <-app_assoc. apply (Hl _ _ c).
  simpl. rewrite Hg. destruct parts; [done|exact Hd].
Qed.

(** One tag more: the nodes keep their slugs, the nodes that were there
    are still there, and the parts of the tag lead to a node. *)
Lemma grow_descend paths parts full current t :
  grow paths full parts current = Ok t →
  labelled paths full current →
  labelled paths full t ∧
  (parts ≠ [] → is_Some (descend parts t)) ∧
  (∀ q, is_Some (descend q current) → is_Some (descend q t)).
Proof.
  revert full current t. induction parts as [|part rest IH];
    intros full current t; cbn [grow].
  { by intros [= <-] Hl. }
  destruct (get_node part current) as [[path children]|] eqn:Hg.
  - intros H Hl. bind_ok H. rename r into children'. injection Hb as <-.
    destruct (IH _ _ _ Ha (labelled_children _ _ _ _ _ _ Hl Hg))
      as (Hl' & Hin' & Hmono').
    assert (get_node part (set_node part (TagNode path children') current)
            = Some (TagNode path children')) as Hset.
    { apply get_node_set_node_eq. by rewrite Hg. }
    split_and!.
    + intros [|k q] p c; [done|]. rewrite descend_cons.
      destruct (decide (k = part)) as [->|Hne].
      * rewrite Hset. destruct q as [|k' q].
        -- intros [= <- <-]. apply (Hl [part] path children). simpl.
           by rewrite Hg.
        -- intros Hd. apply Hl' in Hd. by rewrite <-app_assoc in Hd.
      * rewrite get_node_set_node_ne by done. intros Hd.
        apply (Hl (k :: q) p c). by rewrite descend_cons.
    + intros _. rewrite descend_cons, Hset. destruct rest; [done|].
      by apply Hin'.
    + intros [|k q]; [by intros [? ?]|]. rewrite !descend_cons.
      destruct (decide (k = part)) as [->|Hne].
      * rewrite Hset, Hg. destruct q; [done|]. apply Hmono'.
      * by rewrite get_node_set_node_ne by done.
  - destruct (paths !! Str.join "/" (full ++ [part])) as [path|] eqn:Hp;
      [|done].
    intros H Hl. bind_ok H. rename r into children'. injection Hb as <-.
    destruct (IH _ _ _ Ha) as (Hl' & Hin' & _).
    { by intros [|? ?] ? ?. }
    split_and!.
    + intros [|k q] p c; [done|]. rewrite descend_cons, get_node_snoc.
      destruct (get_node k current) as [[p0 c0]|] eqn:Hk.
      * intros Hd. apply (Hl (k :: q) p c). by rewrite descend_cons, Hk.
      * destruct (String.eqb part k) eqn:E; [|done].
        apply String.eqb_eq in E as <-. destruct q as [|k' q].
        -- by intros [= <- <-].
        -- intros Hd. apply Hl' in Hd. by rewrite <-app_assoc in Hd.
    + intros _. rewrite descend_cons, get_node_snoc, Hg, String.eqb_refl.
      destruct rest; [done|]. by apply Hin'.
    + intros [|k q]; [by intros [? ?]|]. rewrite !descend_cons, get_node_snoc.
      destruct (get_node k current) as [[p0 c0]|]; [done|]. by intros [? ?].
Qed.

Lemma tag_tree_descend paths tags tree t :
  tag_tree paths tags tree = Ok t →
  labelled paths [] tree →
  labelled paths [] t ∧
  (∀ tag, tag ∈ tags → is_Some (descend (Str.split Str.slash tag) t)) ∧
  (∀ q, is_Some (descend q tree) → is_Some (descend q t)).
Proof.
  revert tree. induction tags as [|tag tags IH]; intros tree; cbn [tag_tree].
  { intros [= <-] Hl. split_and!; [done| |done]. by intros tag ?%elem_of_nil. }
  intros H Hl. bind_ok H. rename r into tree1.
  destruct (grow_descend _ _ _ _ _ Ha Hl) as (Hl1 & Hin1 & Hmono1).
  destruct (IH _ Hb Hl1) as (Hl2 & Hin2 & Hmono2).
  split_and!; [done| |by auto].
  intros q [->|Hq]%elem_of_cons; [|by apply Hin2].
  apply Hmono2, Hin1, split_not_nil.
Qed.

(** X22: in the tree of the tags every tag of the index has its node,
    at the end of the path of its parts, and the node carries the slug of
    the tag: the entry of the tag on [tags/index.html] leads to the page
    of the tag.  The order in which the tags are taken does not matter. *)
Theorem tag_tree_leads_to_tag_pages w environment domain directory g st g' st' tags tree :
  sluggish st → rooted st →
  build_paths w environment domain directory g st = Ok (g', st') →
  tags ≡ₚ (map_to_list (all_tags st')).*1 →
  tag_tree (tag_paths st') tags [] = Ok tree →
  ∀ tag, is_Some (all_tags st' !! tag) →
    ∃ children,
      descend (Str.split Str.slash tag) tree
      = Some (TagNode (tag_slug tag) children).
Proof.
  intros Hs Hr H Htags Ht tag [ids Hin].
  apply (build_paths_state w (λ st, sluggish st ∧ rooted st)) in H
    as [Hs' Hr']; [| |by intros line st0 [? ?]|done].
  2:{ intros x s data s'. apply process_image_rooted. }
  destruct (tag_tree_descend _ _ _ _ Ht) as (Hl & Hd & _).
  { by intros [|? ?] ? ?. }
  destruct (Hd tag) as [[path children] Hnode].
  { rewrite Htags. apply list_elem_of_fmap. exists (tag, ids).
    split; [done|]. by apply elem_of_map_to_list. }
  pose proof (Hl _ _ _ Hnode) as Hp. simpl in Hp.
  rewrite join_split, (Hs' _ _ Hin) in Hp. injection Hp as <-.
  by exists children.
Qed.

Lemma tag_tree_leads_to_tag_pages_witness :
  ∃ g' st' tree,
    build_paths (Sample.store ∅) Sample.jinja "example.org"
      [BlogDirectory Sample.garden; SectionFile (Sample.everything None)]
      {| pages := []; all_blog_pages := []; feeds := []; sections := [] |}
      Sample.fresh = Ok (g', st') ∧
    tag_tree (tag_paths st') (map_to_list (all_tags st')).*1 [] = Ok tree ∧
    ∀ tag, is_Some (all_tags st' !! tag) →
      ∃ children,
        descend (Str.split Str.slash tag) tree
        = Some (TagNode (tag_slug tag) children).
Proof.
  destruct (build_paths (Sample.store ∅) Sample.jinja "example.org"
      [BlogDirectory Sample.garden; SectionFile (Sample.everything None)]
      {| pages := []; all_blog_pages := []; feeds := []; sections := [] |}
      Sample.fresh) as [[g' st']|e] eqn:E.
  - destruct (tag_tree (tag_paths st') (map_to_list (all_tags st')).*1 [])
      as [tree|e] eqn:Et.
    + exists g', st', tree. split; [reflexivity|]. split; [exact Et|].
      exact (tag_tree_leads_to_tag_pages _ _ _ _ _ _ _ _ _ _
               (sluggish_initial _ _ _) (rooted_initial _ _ _) E
               (reflexivity _) Et).
    + vm_compute in E. injection E as _ <-. vm_compute in Et. discriminate Et.
  - vm_compute in E. discriminate E.
Defined.

(** ** Users *)

Lemma taken_values (user_data : gmap string string) display :
  display ∈ (map_to_list user_data).*2 ↔ taken user_data display.
Proof.
  split.
  - intros ([email d] & -> & Hin)%list_elem_of_fmap.
    apply elem_of_map_to_list in Hin. by exists email.
  - intros [email Hin]. apply list_elem_of_fmap. exists (email, display).
    split; [done|]. by apply elem_of_map_to_list.
Qed.

Lemma pick_display_free user_data draws inp out display inp' out' :
  pick_display user_data draws inp out = Some (Ok (display, inp', out')) →
  ¬ taken user_data display.
Proof.
  revert inp out. induction draws as [|[adjective noun] draws IH];
    intros inp out; cbn [pick_display]; [done|].
  case_bool_decide as Hfree; [by apply IH|].
  destruct inp as [|response inp1]; [done|].
  destruct (String.eqb response "y"); [|by apply IH].
  intros [= <- _ _]. by rewrite <-taken_values.
Qed.

Lemma told_apart_insert user_data email display :
  told_apart user_data → ¬ taken user_data display →
  told_apart (<[email := display]> user_data).
Proof.
  intros Ha Hfree a b d.
  destruct (decide (a = email)) as [->|Hna];
    destruct (decide (b = email)) as [->|Hnb];
    rewrite ?lookup_insert_eq, ?lookup_insert_ne by done; try done.
  - intros [= <-] Hb. destruct Hfree. by exists b.
  - intros Hb [= <-]. destruct Hfree. by exists a.
  - apply Ha.
Qed.

(** X23: [add-user] never changes a user and never gives a display name
    to two users: when it adds a user, the email was unknown, the name
    was free, whether given or drawn, and the users that were there stay
    as they were.  With a free name given it adds the user at once. *)
Theorem add_user_keeps_users_apart users args draws inp out :
  told_apart (default ∅ users) →
  (∀ user_data inp' out',
     add_user users args draws inp out = Some (Ok (user_data, inp', out')) →
     default ∅ users !! us_email args = None ∧
     (∃ display,
        user_data = <[us_email args := display]> (default ∅ users) ∧
        ¬ taken (default ∅ users) display) ∧
     default ∅ users ⊆ user_data ∧
     told_apart user_data) ∧
  (∀ display,
     us_display args = Some display →
     default ∅ users !! us_email args = None →
     ¬ taken (default ∅ users) display →
     add_user users args draws inp out
     = Some (Ok (<[us_email args := display]> (default ∅ users), inp,
                 out ++ ["user added"]))).
Proof.
  intros Ha. unfold add_user. split.
  - intros user_data inp' out'.
    destruct (default ∅ users !! us_email args) eqn:Ee; [done|].
    assert (∀ display, ¬ taken (default ∅ users) display →
      user_data = <[us_email args := display]> (default ∅ users) →
      @None string = None ∧
      (∃ display,
         user_data = <[us_email args := display]> (default ∅ users) ∧
         ¬ taken (default ∅ users) display) ∧
      default ∅ users ⊆ user_data ∧ told_apart user_data) as Hadd.
    { intros display Hfree ->. split_and!; [done|by exists display| |].
      - by apply insert_subseteq.
      - by apply told_apart_insert. }
    destruct (us_display args) as [display|].
    + case_bool_decide as Hfree; [done|]. intros [= <- _ _].
      apply (Hadd display); [|done]. by rewrite <-taken_values.
    + destruct (pick_display _ draws inp out) as [[[[display i] o]|e]|] eqn:Ep;
        [|done..].
      intros [= <- _ _]. apply (Hadd display); [|done].
      by eapply pick_display_free.
  - intros display -> -> Hfree.
    by rewrite bool_decide_false by (by rewrite taken_values).
Qed.

Lemma add_user_keeps_users_apart_witness :
  ∃ user_data inp' out',
    add_user (Some {["reader@example.org" := "Quiet Wren"]})
      {| us_email := "a@example.org"; us_display := None |}
      [("Quiet", "Wren"); ("Bold", "Heron"); ("Merry", "Finch")]
      ["n"; "y"] [] = Some (Ok (user_data, inp', out')) ∧
    told_apart user_data.
Proof.
  destruct (add_user (Some {["reader@example.org" := "Quiet Wren"]})
      {| us_email := "a@example.org"; us_display := None |}
      [("Quiet", "Wren"); ("Bold", "Heron"); ("Merry", "Finch")]
      ["n"; "y"] []) as [[[[user_data inp'] out']|e]|] eqn:E.
  - exists user_data, inp', out'. split; [reflexivity|].
    refine (proj2 (proj2 (proj2 (proj1 (add_user_keeps_users_apart _ _ _ _ _ _)
                                   user_data inp' out' E)))).
    intros a b display. cbn [from_option]. unfold id.
    intros [<- <-]%lookup_singleton_Some [<- _]%lookup_singleton_Some.
    reflexivity.
  - vm_compute in E. discriminate E.
  - vm_compute in E. discriminate E.
Defined.

(** ** The order of the posts of a blog *)

Section InsertionSort.
Context {A K : Type} (lt : K → K → bool) (key : A → K).
Context (Hasym : ∀ x y, lt x y = true → lt y x = false).
Context (Htrans : ∀ x y z, lt y x = false → lt z y = false → lt z x = false).

Lemma insert_sorted x l :
  StronglySorted (λ a b, lt (key b) (key a) = false) l →
  StronglySorted (λ a b, lt (key b) (key a) = false)
    (insert lt key false x l).
Proof.
  induction 1 as [|y l Hl IH Hy]; simpl.
  { repeat constructor. }
  unfold goes_first. destruct (lt (key y) (key x)) eqn:E.
  - constructor; [done|]. rewrite insert_Permutation.
    constructor; [by apply Hasym|done].
  - constructor; [by constructor|]. constructor; [done|].
    eapply Forall_impl; [done|]. intros z Hz. simpl in Hz.
    by eapply Htrans.
Qed.

Lemma sorted_sorted l :
  StronglySorted (λ a b, lt (key b) (key a) = false) (sorted lt key false l).
Proof.
  induction l as [|x l IH]; [constructor|]. by apply insert_sorted.
Qed.
End InsertionSort.

Lemma ascii_compare_N a b :
  Ascii.compare a b = (N_of_ascii a ?= N_of_ascii b)%N.
Proof. done. Qed.

Lemma string_compare_trans a b c :
  String.compare a b ≠ Gt → String.compare b c ≠ Gt →
  String.compare a c ≠ Gt.
Proof.
  revert b c. induction a as [|x a IH]; intros [|y b] [|z c]; simpl;
    try done.
  rewrite !ascii_compare_N.
  destruct (N.compare_spec (N_of_ascii x) (N_of_ascii y)) as [Hxy|Hxy|Hxy];
    destruct (N.compare_spec (N_of_ascii y) (N_of_ascii z)) as [Hyz|Hyz|Hyz];
    destruct (N.compare_spec (N_of_ascii x) (N_of_ascii z)) as [Hxz|Hxz|Hxz];
    try done; try (intros; lia).
  apply IH.
Qed.

Lemma ltb_false a b : String.ltb b a = false ↔ String.compare a b ≠ Gt.
Proof.
  unfold String.ltb. rewrite (String.compare_antisym b a).
  destruct (String.compare a b); simpl; split; congruence.
Qed.

Lemma ltb_asym x y : String.ltb x y = true → String.ltb y x = false.
Proof.
  unfold String.ltb. rewrite (String.compare_antisym y x).
  by destruct (String.compare x y).
Qed.

Lemma ltb_trans x y z :
  String.ltb y x = false → String.ltb z y = false → String.ltb z x = false.
Proof. rewrite !ltb_false. apply string_compare_trans. Qed.

Lemma int_go_acc acc s :
  Str.int_go acc s = acc * 10 ^ Z.of_nat (String.length s) + Str.int_go 0 s.
Proof.
  revert acc. induction s as [|c s IH]; intros acc.
  { simpl. lia. }
  cbn [Str.int_go String.length]. rewrite IH.
  rewrite (IH (10 * 0 + _)). rewrite Nat2Z.inj_succ, Z.pow_succ_r by lia.
  lia.
Qed.

Lemma int_bound s :
  Str.forallb Str.is_digit s = true →
  0 ≤ Str.int_go 0 s < 10 ^ Z.of_nat (String.length s).
Proof.
  induction s as [|c s IH]; [simpl; lia|].
  cbn [Str.forallb Str.int_go String.length].
  intros [Hc Hs]%andb_true_iff. specialize (IH Hs).
  rewrite int_go_acc, Nat2Z.inj_succ, Z.pow_succ_r by lia.
  unfold Str.is_digit in Hc. apply andb_true_iff in Hc as [H1 H2].
  apply Nat.leb_le in H1, H2. nia.
Qed.

(** Time stamps of one number of digits follow each other as their
    names do. *)
Lemma digits_order s t x :
  Str.forallb Str.is_digit s = true → Str.forallb Str.is_digit t = true →
  String.length s = String.length t →
  String.compare (s +:+ x) (t +:+ x) ≠ Gt →
  Str.int s ≤ Str.int t.
Proof.
  unfold Str.int. revert t. induction s as [|c s IH]; intros [|d t]; try done.
  cbn [Str.forallb String.length].
  intros [Hc Hs]%andb_true_iff [Hd Ht]%andb_true_iff [= Hlen].
  change (String c s +:+ x) with (String c (s +:+ x)).
  change (String d t +:+ x) with (String d (t +:+ x)).
  cbn [String.compare]. rewrite ascii_compare_N. cbn [Str.int_go].
  rewrite (int_go_acc (10 * 0 + _) s), (int_go_acc (10 * 0 + _) t), Hlen.
  pose proof (int_bound s Hs) as Bs. pose proof (int_bound t Ht) as Bt.
  rewrite Hlen in Bs. unfold nat_of_ascii.
  destruct (N.compare_spec (N_of_ascii c) (N_of_ascii d)) as [Hcd|Hcd|Hcd];
    [| |done].
  - intros Hcmp. specialize (IH t Hs Ht Hlen Hcmp). rewrite Hcd. lia.
  - intros _. nia.
Qed.

Lemma StronglySorted_filter_list {A : Type} (R : relation A)
    (P : A → Prop) `{!∀ x, Decision (P x)} l :
  StronglySorted R l → StronglySorted R (filter P l).
Proof.
  induction 1 as [|x l Hl IH Hx]; [constructor|]. rewrite filter_cons.
  destruct (decide (P x)); [|done]. constructor; [done|].
  apply Forall_forall. intros y [_ Hy]%list_elem_of_filter.
  by eapply Forall_forall in Hx.
Qed.

Lemma isnumeric_digits s :
  Str.isnumeric s = true → Str.forallb Str.is_digit s = true.
Proof. by destruct s. Qed.

Lemma blog_posts_ascending n b :
  evenly_named n b →
  ascending ((λ f, Some (Str.int (Str.stem f.1))) <$> blog_posts b).
Proof.
  intros Hn. unfold blog_posts.
  assert (StronglySorted name_le
            (filter (λ f, Str.isnumeric (Str.stem f.1) = true)
               (sorted String.ltb fst false (blog_files b)))) as Hsorted.
  { apply StronglySorted_filter_list.
    apply (sorted_sorted String.ltb fst ltb_asym ltb_trans). }
  assert (∀ f, f ∈ filter (λ f, Str.isnumeric (Str.stem f.1) = true)
                     (sorted String.ltb fst false (blog_files b)) →
               Str.isnumeric (Str.stem f.1) = true ∧
               f.1 = Str.stem f.1 +:+ ".json" ∧
               String.length (Str.stem f.1) = n) as Hnames.
  { intros f [Hnum Hin]%list_elem_of_filter.
    rewrite sorted_Permutation in Hin. split; [done|]. by apply Hn. }
  intros i j x y Hi Hj Hij.
  apply list_lookup_fmap_Some in Hi as (f & Hfx & Hf).
  apply list_lookup_fmap_Some in Hj as (f' & Hfy & Hf').
  injection Hfx as ->. injection Hfy as ->.
  pose proof (StronglySorted_lookup _ _ _ _ _ _ Hsorted Hf Hf' Hij) as Hle.
  destruct (Hnames f) as (Hd & Hname & Hlen);
    [by eapply list_elem_of_lookup_2|].
  destruct (Hnames f') as (Hd' & Hname' & Hlen');
    [by eapply list_elem_of_lookup_2|].
  apply (digits_order _ _ ".json");
    [by apply isnumeric_digits|by apply isnumeric_digits|congruence|].
  rewrite <-Hname, <-Hname'. by apply ltb_false.
Qed.

(** X24: when the files of the posts of a blog are named as [post]
    names them and their time stamps have one number of digits, as all
    the times from September 2001 to the year 2286 have, the entries of
    the blog come in their order in time. *)
Theorem blog_is_chronological w b n st es st' :
  evenly_named n b →
  assemble_blog w b st = Ok (es, st') →
  ascending (e_datetime <$> es).
Proof.
  intros Hn H. rewrite (blog_entries_follow_file_names _ _ _ _ _ H).
  by apply (blog_posts_ascending n).
Qed.

Lemma evenly_named_twins : evenly_named 3 Sample.twins.
Proof.
  intros f Hf _. cbn [Sample.twins blog_files] in Hf.
  repeat (apply elem_of_cons in Hf as [->|Hf]); [by vm_compute..|].
  by apply elem_of_nil in Hf.
Qed.

Lemma blog_is_chronological_witness :
  ∃ es st',
    assemble_blog (Sample.store ∅) Sample.twins Sample.fresh = Ok (es, st') ∧
    ascending (e_datetime <$> es).
Proof.
  destruct (assemble_blog (Sample.store ∅) Sample.twins Sample.fresh)
    as [[es st']|e] eqn:E.
  - exists es, st'. split; [reflexivity|].
    exact (blog_is_chronological _ _ _ _ _ _ evenly_named_twins E).
  - vm_compute in E. discriminate E.
Defined.

(** ** The files of the images *)

Lemma process_image_copied w x st data st' :
  copied st → process_image w x st = Ok (data, st') → copied st'.
Proof.
  intros Hc H.
  destruct (all_images st !! given_id x) as [d|] eqn:Hhit.
  { rewrite (process_image_hit _ _ _ _ Hhit) in H. by injection H as _ <-. }
  revert H. unfold process_image. fold (given_id x). fold (resolve w x).
  rewrite Hhit. destruct (resolve w x) as [image|]; [|done].
  destruct (img_full_path image) as [path|]; [|done].
  intros H. bind_ok H. destruct r as [tags st2]. injection Hb as <- <-.
  destruct (walk_tags_fields _ _ _ _ _ _ Ha) as (Himages & Hassets & _).
  cbn [assets set_assets all_images] in Himages, Hassets.
  intros i info. cbn [all_images set_all_images assets].
  destruct (decide (i = img_id image)) as [->|Hne].
  - rewrite lookup_insert_eq. intros [= <-]. cbn [d_file].
    rewrite Hassets. apply elem_of_union. left. by apply elem_of_singleton.
  - rewrite lookup_insert_ne, Himages by done. intros Hi.
    rewrite Hassets. apply elem_of_union. right. by eapply Hc.
Qed.

(** X25: whatever image is in the cache when the loop over the sections
    has ended, its file is in the directory [images] of the build: the
    permanent pages of the images, which are made from the cache, never
    show a file that was not copied. *)
Theorem cached_images_are_copied w environment domain directory g st g' st' :
  copied st →
  build_paths w environment domain directory g st = Ok (g', st') →
  ∀ p, p ∈ image_page <$> (map_to_list (all_images st')).*2 →
    ∃ info, page_images p = Some [info] ∧ d_file info ∈ assets st'.
Proof.
  intros Hc H.
  apply (build_paths_state w copied) in H; [| |done|done].
  2:{ intros x s data s'. apply process_image_copied. }
  intros p (info & -> & Hin)%list_elem_of_fmap. exists info. split; [done|].
  apply list_elem_of_fmap in Hin as ([i d] & -> & Hin).
  apply elem_of_map_to_list in Hin. by eapply H.
Qed.

Lemma copied_initial decisions files typed :
  copied (initial decisions files typed).
Proof. intros i info. cbn. by rewrite lookup_empty. Qed.

Lemma cached_images_are_copied_witness :
  ∃ g' st',
    build_paths (Sample.store ∅) Sample.jinja "example.org"
      [BlogDirectory Sample.garden; SectionFile (Sample.everything None)]
      {| pages := []; all_blog_pages := []; feeds := []; sections := [] |}
      Sample.fresh = Ok (g', st') ∧
    ∀ p, p ∈ image_page <$> (map_to_list (all_images st')).*2 →
      ∃ info, page_images p = Some [info] ∧ d_file info ∈ assets st'.
Proof.
  destruct (build_paths (Sample.store ∅) Sample.jinja "example.org"
      [BlogDirectory Sample.garden; SectionFile (Sample.everything None)]
      {| pages := []; all_blog_pages := []; feeds := []; sections := [] |}
      Sample.fresh) as [[g' st']|e] eqn:E.
  - exists g', st'. split; [reflexivity|].
    exact (cached_images_are_copied _ _ _ _ _ _ _ _ (copied_initial _ _ _) E).
  - vm_compute in E. discriminate E.
Defined.

(** ** Two sections of one slug *)

Lemma section_name_differs slug :
  "section-" +:+ slug +:+ ".json" ≠ "blog-" +:+ slug.
Proof. done. Qed.

(** X26: the slug of a section is taken once among the auto-sections,
    as a second [create-auto] with it ends with [exit(1)], but not among
    all the sections: [create-blog] with the same slug makes a blog
    beside the auto-section, and the index pages of the two have one
    path. *)
Theorem blog_and_section_share_a_slug args directory slug :
  section_slug (ca_slug args) (ca_title args) = Ok slug →
  file_name slug = true →
  directory !! ("section-" +:+ slug +:+ ".json") = None →
  directory !! ("blog-" +:+ slug) = None →
  ∃ directory1 directory2,
    create_auto args directory = Ok directory1 ∧
    create_auto args directory1 = Raise (SystemExit 1) ∧
    create_blog args directory1 = Ok directory2 ∧
    directory2 !! ("section-" +:+ slug +:+ ".json")
    = Some (SectionFile (new_section args slug)) ∧
    directory2 !! ("blog-" +:+ slug)
    = Some (BlogDirectory (new_blog args slug)) ∧
    ∀ es es',
      relative (index_page (sec_slug (new_section args slug))
                  (sec_title (new_section args slug))
                  (sec_description (new_section args slug))
                  (sec_icon (new_section args slug)) es)
      = relative (index_page (blog_slug (new_blog args slug))
                    (blog_title (new_blog args slug))
                    (blog_description (new_blog args slug))
                    (blog_icon (new_blog args slug)) es').
Proof.
  intros Hslug _ Hs Hb. unfold create_auto, create_blog. rewrite Hslug.
  cbn [bind]. rewrite Hs. eexists _, _. split; [done|].
  rewrite lookup_insert_eq.
  rewrite lookup_insert_ne, Hb by apply section_name_differs.
  split_and!; try done.
  - rewrite lookup_insert_ne by (apply not_eq_sym, section_name_differs).
    by rewrite lookup_insert_eq.
  - by rewrite lookup_insert_eq.
Qed.

Lemma blog_and_section_share_a_slug_witness :
  ∃ directory1 directory2,
    create_auto (Desk.walks None) Desk.site = Ok directory1 ∧
    create_auto (Desk.walks None) directory1 = Raise (SystemExit 1) ∧
    create_blog (Desk.walks None) directory1 = Ok directory2.
Proof.
  destruct (blog_and_section_share_a_slug (Desk.walks None) Desk.site
              "winter-walks" eq_refl eq_refl eq_refl eq_refl)
    as (d1 & d2 & H1 & H2 & H3 & _).
  exists d1, d2. split; [exact H1|]. split; [exact H2|exact H3].
Defined.

(** * The claims on the links, the slugs, the feeds and the rendering *)

(** ** The chain of links and the order of the entries *)






(** ** Slugs *)

(** C4, as the code has it: of two entries of an auto-section with one
    effective date the later one has the date, a dash and the identifier
    of its image as its slug, which the earlier one has not when the two
    images have different identifiers; an auto-section has no two
    entries with one slug when the identifiers of its images do not
    repeat and its dates have one length; and a blog has no two entries
    with one slug exactly when no two of its manifests have one slug. *)
Theorem slugs_distinct w p st es st' :
  assemble w p st = Ok (es, st') →
  match p with
  | BlogDirectory b =>
      NoDup (e_slug <$> es) ↔ NoDup ((λ f, m_slug f.2) <$> blog_posts b)
  | SectionFile sd =>
      (∀ i j e1 e2,
         es !! i = Some e1 → es !! j = Some e2 → (i < j)%nat →
         e_date e1 = e_date e2 →
         ∃ d1 d2,
           e_images e1 = [d1] ∧ e_images e2 = [d2] ∧
           e_slug e2 = numbered_slug (e_date e2) (d_id d2) ∧
           (d_id d1 ≠ d_id d2 → e_slug e1 ≠ e_slug e2)) ∧
      (NoDup (entry_ids es) →
       (∀ e1 e2, e1 ∈ es → e2 ∈ es →
                 String.length (e_date e1) = String.length (e_date e2)) →
       NoDup (e_slug <$> es))
  | OtherPath _ => es = []
  end.
Proof.
  intros H. apply assemble_inv in H. destruct p as [b|sd|name].
  - destruct H as (a & st1 & Hloop & -> & _).
    apply blog_loop_slugs in Hloop. rewrite Hloop.
    fold (blog_posts b). cbn [start entries fmap list_fmap app].
    assert ((λ f : string * manifest, dated_slug (m_slug f.2)) <$> blog_posts b
            = dated_slug <$> ((λ f, m_slug f.2) <$> blog_posts b)) as ->.
    { by rewrite <-list_fmap_compose. }
    split.
    + apply NoDup_fmap_1.
    + by apply (@NoDup_fmap_2 _ _ dated_slug dated_slug_inj).
  - destruct H as (_ & a & st1 & Hloop & -> & _).
    eapply (section_loop_invariant slugged) in Hloop
      as (Hshaped & Hnd & Hlater);
      eauto using section_entry_slugged, slugged_start.
    split.
    + intros i j e1 e2 Hi Hj Hij Hd.
      destruct (Hlater i j (shape e1) (shape e2)) as (d2 & Hd2 & Hs2);
        [by rewrite list_lookup_fmap, Hi|by rewrite list_lookup_fmap, Hj|
         done|by simpl|].
      cbn [shape fst snd] in Hd2, Hs2.
      rewrite Forall_forall in Hshaped.
      destruct (Hshaped (shape e1)) as (_ & d1 & Hd1 & Hs1).
      { apply list_elem_of_fmap. exists e1. split; [done|].
        by eapply list_elem_of_lookup_2. }
      cbn [shape fst snd] in Hd1, Hs1.
      exists d1, d2. split_and!; [done..|]. intros Hne Heq.
      rewrite Hs2, <-Hd in Heq. destruct Hs1 as [Hs1|Hs1]; rewrite Hs1 in Heq.
      * by eapply dated_numbered.
      * apply numbered_numbered in Heq as [_ ?]; done.
    + intros Hids Hlen. apply Hnd. split.
      * by rewrite list_fmap_bind.
      * intros k1 k2 (e1 & -> & ?)%list_elem_of_fmap
          (e2 & -> & ?)%list_elem_of_fmap. by apply Hlen.
  - by destruct H as [-> _].
Qed.

(** C4 as stated fails on a blog, where two manifests with one slug give
    two entries with one slug, and on an auto-section with a date that
    is no date: the override of the date of photo 3 is the date of photo
    2, a dash and the identifier of photo 2. *)
Lemma entries_share_a_slug :
  (∃ es st',
     assemble (Sample.store ∅) (BlogDirectory Sample.twins) Sample.fresh
     = Ok (es, st') ∧
     e_slug <$> es = ["trip.html"; "trip.html"]) ∧
  (∃ es st',
     assemble Desk.overridden (SectionFile (Sample.everything None))
       Sample.fresh = Ok (es, st') ∧
     entry_ids es = [1; 2; 3] ∧
     e_slug <$> es
     = ["2020-01-01.html"; "2020-01-01-2.html"; "2020-01-01-2.html"]).
Proof.
  split.
  - destruct (assemble _ _ _) as [[es st']|e] eqn:E; vm_compute in E;
      [|discriminate].
    injection E as <- <-. eexists _, _. split; [done|]. by vm_compute.
  - destruct (assemble _ _ _) as [[es st']|e] eqn:E; vm_compute in E;
      [|discriminate].
    injection E as <- <-. eexists _, _. split; [done|]. by vm_compute.
Qed.

Lemma slugs_distinct_witness :
  ∃ es st',
    assemble (Sample.store ∅) (SectionFile (Sample.everything None)) Sample.fresh
    = Ok (es, st') ∧
    e_slug <$> es
    = ["2020-01-01.html"; "2020-01-01-2.html"; "2019-12-31.html"] ∧
    NoDup (e_slug <$> es).
Proof.
  destruct (assemble (Sample.store ∅) (SectionFile (Sample.everything None))
              Sample.fresh) as [[es st']|e] eqn:E.
  - exists es, st'. split; [reflexivity|].
    pose proof (proj2 (slugs_distinct _ _ _ _ _ E)) as Hnd.
    vm_compute in E. injection E as <- _. split; [reflexivity|].
    apply Hnd.
    + apply (bool_decide_unpack _). vm_compute. exact I.
    + intros e1 e2 H1 H2.
      repeat (apply elem_of_cons in H1 as [->|H1]);
        repeat (apply elem_of_cons in H2 as [->|H2]);
        try reflexivity; by apply elem_of_nil in H1 || by apply elem_of_nil in H2.
  - vm_compute in E. discriminate E.
Defined.

(** ** The order of the feeds *)

(** C7, as the code has it: the entries of the feeds of a section run from
    the latest publish date to the earliest, the posts of one date in the
    order in which they were given; any other order of the same posts
    gives the same sequence of dates; and it gives the same feed when no
    two posts have the same date. *)
Theorem feed_entries_descend w environment copied self site pages1 pages2 f1 :
  pages1 ≡ₚ pages2 →
  render_feeds w environment copied self site pages1 = Ok f1 →
  descending (feed_entries f1) ∧
  (∀ t, fe_id <$> filter (λ e, fe_published e = t) (feed_entries f1)
        = post_url site <$> filter (λ p, date_key p = t) pages1) ∧
  ∃ f2, render_feeds w environment copied self site pages2 = Ok f2 ∧
        fe_published <$> feed_entries f2 = fe_published <$> feed_entries f1 ∧
        (NoDup (date <$> pages1) → f2 = f1).
Proof.
  intros Hperm H.
  destruct (render_feeds_inv _ _ _ _ _ _ _ H) as (Hes1 & _ & Hother).
  destruct (render_feed_entries_published _ _ _ _ _ _ Hes1)
    as [Hpub1 Hdates1].
  assert (feed_order pages2 ≡ₚ feed_order pages1) as Hperm'.
  { by rewrite !feed_order_Permutation. }
  split.
  { intros i j a b Hi Hj Hij.
    apply (StronglySorted_lookup not_earlier (fe_published <$> feed_entries f1)
             i j); [|by rewrite list_lookup_fmap, ?Hi, ?Hj..|done].
    rewrite Hpub1. eapply StronglySorted_fmap; [|apply feed_order_sorted]. done. }
  split.
  { intros t. rewrite <-feed_order_stable.
    pose proof Hes1 as Hall. apply render_feed_entries_Ok in Hall.
    clear -Hall. induction Hall as [|p e l es Hp _ IH]; [done|].
    destruct (render_feed_entry_fields _ _ _ _ _ _ Hp) as (Hid & _ & Hpub).
    rewrite !filter_cons, Hpub.
    destruct (decide (date_key p = t)); [|done].
    by rewrite !fmap_cons, IH, Hid. }
  destruct (render_feed_entries_total w environment copied site
              (feed_order pages2)) as [es2 Hes2].
  { rewrite Hperm'. apply render_feed_entries_Ok in Hes1.
    clear -Hes1. induction Hes1; constructor; eauto. }
  destruct (render_feed_entries_published _ _ _ _ _ _ Hes2) as [Hpub2 _].
  eexists. split; [by apply Hother|]. cbn [feed_entries]. split.
  - rewrite Hpub1, Hpub2.
    apply (StronglySorted_unique_strong not_earlier).
    + unfold not_earlier. intros. lia.
    + eapply StronglySorted_fmap; [|apply feed_order_sorted]. done.
    + eapply StronglySorted_fmap; [|apply feed_order_sorted]. done.
    + by rewrite Hperm'.
  - intros Hnd.
    assert (feed_order pages2 = feed_order pages1) as Heq.
    { apply (StronglySorted_unique_strong not_before);
        [|apply feed_order_sorted..|done].
      intros p q Hp Hq Hpq Hqp.
      rewrite feed_order_Permutation in Hdates1.
      apply (date_key_inj_on pages1); try done.
      - by rewrite Hperm, <-(feed_order_Permutation pages2).
      - by rewrite <-(feed_order_Permutation pages1).
      - unfold not_before in *. lia. }
    rewrite Heq, Hes1 in Hes2. injection Hes2 as <-. by destruct f1.
Qed.

(** C7 as stated fails on two posts of one date: they are emitted in the
    order in which they were given. *)
Lemma feed_order_follows_input_on_ties :
  [Sample.snapshot "first" 1; Sample.snapshot "second" 2]
  ≡ₚ [Sample.snapshot "second" 2; Sample.snapshot "first" 1] ∧
  ∃ f1 f2,
    render_feeds (Sample.store ∅) Sample.jinja Sample.copies Sample.front
      "example.org"
      [Sample.snapshot "first" 1; Sample.snapshot "second" 2] = Ok f1 ∧
    render_feeds (Sample.store ∅) Sample.jinja Sample.copies Sample.front
      "example.org"
      [Sample.snapshot "second" 2; Sample.snapshot "first" 1] = Ok f2 ∧
    fe_title <$> feed_entries f1 = ["first"; "second"] ∧
    fe_title <$> feed_entries f2 = ["second"; "first"].
Proof.
  split; [apply Permutation_swap|].
  eexists _, _. split_and!; [by vm_compute..|done|done].
Qed.

(** Two posts of different dates, given from the earlier to the later
    and the other way round. *)
Lemma feed_entries_descend_witness :
  ∃ f1,
    render_feeds (Sample.store ∅) Sample.jinja Sample.copies Sample.front
      "example.org" [Desk.shot "old" 1 100; Desk.shot "new" 2 200] = Ok f1 ∧
    render_feeds (Sample.store ∅) Sample.jinja Sample.copies Sample.front
      "example.org" [Desk.shot "new" 2 200; Desk.shot "old" 1 100] = Ok f1 ∧
    fe_title <$> feed_entries f1 = ["new"; "old"] ∧
    fe_published <$> feed_entries f1 = [200; 100] ∧
    descending (feed_entries f1).
Proof.
  destruct (render_feeds (Sample.store ∅) Sample.jinja Sample.copies
              Sample.front "example.org"
              [Desk.shot "old" 1 100; Desk.shot "new" 2 200])
    as [f1|e] eqn:E.
  - destruct (feed_entries_descend _ _ _ _ _ _
                [Desk.shot "new" 2 200; Desk.shot "old" 1 100] _
                (Permutation_swap _ _ []) E)
      as (Hdesc & _ & f2 & E2 & _ & Hsame).
    rewrite Hsame in E2.
    + exists f1. split; [reflexivity|]. split; [exact E2|].
      vm_compute in E. injection E as <-.
      split; [reflexivity|]. split; [reflexivity|]. exact Hdesc.
    + apply (bool_decide_unpack _). by vm_compute.
  - vm_compute in E. discriminate E.
Defined.

(** ** Rendering *)












